(** * Stock-trend data pipeline: windowing, normalisation and evaluation

    A shallow embedding of the two pipeline variants of the repository:

    - [DataLoader.prepareData]                (src/data-loader.js),
      evaluated by [computePerStockAccuracy] and [getPredictionTimeline]
      (the gru.js that follows src/app.js);
    - [DataLoader.parseAndPivot], [norm] and [createSequences]
      (the data-loader.js of src/unnamed/part_000), evaluated by
      [GRUModel.evaluatePerStock]   (src/unnamed/part_001).

    JavaScript objects used as dictionaries are finite maps, arrays are
    lists, [null] and [undefined] are [None], and a thrown exception is an
    explicit [Throw] (or [None] where a single exception is possible).
    The tensors of TensorFlow.js are kept as the nested arrays they are
    built from, and the two constructors the loaders call throw where the
    library does. *)

From Stdlib Require Import ZArith QArith Qround Lia List Bool String Ascii.
From Stdlib Require Import Sorted Permutation Lqa.
From stdpp Require Import base option list strings gmap.

Local Open Scope Z_scope.
Local Open Scope list_scope.

(** ** JavaScript numbers

    A Number is either finite, one of the two infinities, or NaN.  A finite
    double is idealised by the rational it denotes: rounding and the sign of
    zero are not modelled, so the development only speaks about the
    structure of the computations (which operands are subtracted, divided
    and compared), not about their last bit.  Overflow is modelled: a
    difference or quotient whose exact value reaches the overflow bound
    becomes an infinity, as it does for doubles.  Arithmetic keeps its
    finite results in lowest terms. *)

Inductive num : Type :=
| Fin (q : Q)
| PInf
| NInf
| NaN.

Definition Qpos_b (q : Q) : bool := negb (Qle_bool q 0).

(** The magnitude from which an exact result rounds to an infinity:
    2^1024 - 2^970, half a unit in the last place above the largest
    double. *)
Definition overflow_bound : Q :=
  Eval vm_compute in inject_Z (2 ^ 1024 - 2 ^ 970).

(** The Number that the exact result [q] of an operation becomes. *)
Definition rounded (q : Q) : num :=
  if Qle_bool overflow_bound q then PInf
  else if Qle_bool q (- overflow_bound) then NInf
  else Fin (Qred q).

(** [a - b] *)
Definition num_sub (a b : num) : num :=
  match a, b with
  | NaN, _ | _, NaN => NaN
  | Fin x, Fin y => rounded (x - y)
  | Fin _, PInf => NInf
  | Fin _, NInf => PInf
  | PInf, PInf => NaN
  | PInf, _ => PInf
  | NInf, NInf => NaN
  | NInf, _ => NInf
  end.

(** [a / b]; a zero divisor is the positive zero. *)
Definition num_div (a b : num) : num :=
  match a, b with
  | NaN, _ | _, NaN => NaN
  | Fin x, Fin y =>
      if Qeq_bool y 0 then
        if Qeq_bool x 0 then NaN else if Qpos_b x then PInf else NInf
      else rounded (x / y)
  | Fin _, _ => Fin 0
  | PInf, Fin y => if Qle_bool 0 y then PInf else NInf
  | NInf, Fin y => if Qle_bool 0 y then NInf else PInf
  | _, _ => NaN
  end.

(** [a > b] on numbers: false as soon as one operand is NaN. *)
Definition num_gt (a b : num) : bool :=
  match a, b with
  | NaN, _ | _, NaN => false
  | Fin x, Fin y => negb (Qle_bool x y)
  | PInf, PInf => false
  | PInf, _ => true
  | _, PInf => false
  | NInf, _ => false
  | Fin _, NInf => true
  end.

(** [a === b] on numbers: NaN differs from everything, itself included. *)
Definition num_eq (a b : num) : bool :=
  match a, b with
  | Fin x, Fin y => Qeq_bool x y
  | PInf, PInf => true
  | NInf, NInf => true
  | _, _ => false
  end.

(** [Math.min(a, b)] and [Math.max(a, b)] *)
Definition num_min (a b : num) : num :=
  match a, b with
  | NaN, _ | _, NaN => NaN
  | _, _ => if num_gt a b then b else a
  end.

Definition num_max (a b : num) : num :=
  match a, b with
  | NaN, _ | _, NaN => NaN
  | _, _ => if num_gt b a then b else a
  end.

(** [Math.min(...values)] and [Math.max(...values)]: the empty spread gives
    [Infinity] and [-Infinity]. *)
Definition Math_min (values : list num) : num := foldl num_min PInf values.
Definition Math_max (values : list num) : num := foldl num_max NInf values.

(** A value read from an array or an object: [None] is [undefined] (or, in
    the pivoted arrays of [prepareData], [null]). *)
Abbreviation cell := (option num).

(** [a > b] where an operand may be [undefined]: [undefined] converts to
    NaN, so the comparison is false. *)
Definition js_gt (a b : cell) : bool :=
  match a, b with
  | Some x, Some y => num_gt x y
  | _, _ => false
  end.

(** Integers as Numbers. *)
Definition ofZ (z : Z) : num := Fin (inject_Z z).
Definition ofNat (n : nat) : num := ofZ (Z.of_nat n).

(** ** Loops and arrays *)

(** The successive values of [i] in [for (let i = lo; i < hi; i++)]. *)
Definition forRange (lo hi : Z) : list Z :=
  map (fun k => lo + Z.of_nat k) (seq 0 (Z.to_nat (hi - lo))).

(** The successive values of [i] in [for (let i = lo; i <= hi; i++)]. *)
Definition forRangeIncl (lo hi : Z) : list Z := forRange lo (hi + 1).

(** [arr[i]] for an integer index: [undefined] outside the array. *)
Definition at_ {A : Type} (arr : list A) (i : Z) : option A :=
  if i <? 0 then None else arr !! Z.to_nat i.

(** [arr.slice(a)] and [arr.slice(0, b)] for indices inside [0, length]. *)
Definition slice_to {A : Type} (b : nat) (arr : list A) : list A := take b arr.
Definition slice_from {A : Type} (a : nat) (arr : list A) : list A := drop a arr.

(** [[...new Set(xs)]]: the distinct elements in order of first occurrence. *)
Fixpoint uniq_from (seen xs : list string) : list string :=
  match xs with
  | [] => []
  | x :: rest =>
      if bool_decide (x ∈ seen) then uniq_from seen rest
      else x :: uniq_from (x :: seen) rest
  end.

Definition uniq (xs : list string) : list string := uniq_from [] xs.

(** [xs.sort()] on strings: ascending by code units.  The result of a sort
    is determined by the order, not by the algorithm; insertion into a
    sorted list is used here. *)
Fixpoint insert_sorted (x : string) (xs : list string) : list string :=
  match xs with
  | [] => [x]
  | y :: rest => if String.leb x y then x :: y :: rest
                 else y :: insert_sorted x rest
  end.

Definition sort (xs : list string) : list string :=
  foldr insert_sorted [] xs.

(** [Math.floor(n * 0.8)] for an array length [n]. *)
Definition floor_08 (n : nat) : nat :=
  Z.to_nat (Qfloor (inject_Z (Z.of_nat n) * (8 # 10))).

(** The chronological 80/20 split shared by both variants:
    [arr.slice(0, split)] and [arr.slice(split)]. *)
Definition split80 {A : Type} (arr : list A) : list A * list A :=
  let split := floor_08 (length arr) in
  (slice_to split arr, slice_from split arr).

(** Exceptions: [Ok] for a normal return, [Throw] for [throw new Error(message)]. *)
Inductive result (A : Type) : Type :=
| Ok (a : A)
| Throw (message : string).
Arguments Ok {A} a.
Arguments Throw {A} message.

(** A statement that throws ends the run with its error. *)
#[global] Instance result_bind : MBind result :=
  fun A B k r => match r with
                 | Ok a => k a
                 | Throw message => Throw message
                 end.

(** ** TensorFlow.js: [tf.tensor3d(values)] and [tf.tensor2d(values)]

    Both are called with a nested array and no shape.  The library infers
    the shape from the first elements ([values.length],
    [values[0].length], ...) and throws when the rank it finds is not the
    rank asked for.  An empty array has rank 1: it is taken for a flat
    array, which needs a shape.  The messages are the library's; below only
    the fact that they are not the loaders' own messages is used. *)
Definition tensor3d {A : Type} (values : list (list (list A)))
  : result (list (list (list A))) :=
  match values with
  | [] => Throw "tensor3d() requires shape to be provided when `values` are a flat array"
  | [] :: _ => Throw "tensor3d() requires values to be number[][][] or flat/TypedArray"
  | _ => Ok values
  end.

Definition tensor2d {A : Type} (values : list (list A))
  : result (list (list A)) :=
  match values with
  | [] => Throw "tensor2d() requires shape to be provided when `values` are a flat/TypedArray"
  | _ => Ok values
  end.

(** A [for]/[forEach] whose body may raise a TypeError ([None]). *)
Fixpoint foldl_opt {S A : Type} (f : S -> A -> option S) (s : S) (l : list A)
  : option S :=
  match l with
  | [] => Some s
  | a :: rest => match f s a with
                 | Some s' => foldl_opt f s' rest
                 | None => None
                 end
  end.

(** ** src/data-loader.js: [DataLoader.prepareData] *)
Module Loader.

(** The two price columns, the keys ['Open'] and ['Close']. *)
Inductive field : Type := Open | Close.

(** A parsed CSV row that passed the [row.Date && row.Symbol] filter of
    [loadCSV]; [Price row Open] is [row.Open], [None] when it is [null]. *)
Record Row : Type := {
  Date : string;
  Symbol : string;
  Price : field -> cell
}.

Definition mkRow (d s : string) (o c : cell) : Row :=
  {| Date := d; Symbol := s;
     Price := fun f => match f with Open => o | Close => c end |}.

(** The object [{ Open: [...], Close: [...] }] kept per symbol. *)
Record Series (A : Type) : Type := { Open_ : list A; Close_ : list A }.
Arguments Open_ {A} s.
Arguments Close_ {A} s.

(** [series[field]] *)
Definition col {A : Type} (s : Series A) (f : field) : list A :=
  match f with
  | Open => Open_ s
  | Close => Close_ s
  end.

(** The object whose two arrays are given field by field, as in
    [['Open', 'Close'].forEach(field => ...)]. *)
Definition perField {A : Type} (g : field -> list A) : Series A :=
  {| Open_ := g Open; Close_ := g Close |}.

Definition WINDOW_SIZE : Z := 12.
Definition PREDICTION_DAYS : Z := 3.

(** line 39: [[...new Set(rawData.map(row => row.Symbol))]] *)
Definition symbolsOf (rawData : list Row) : list string :=
  uniq (map Symbol rawData).

(** line 40: [[...new Set(rawData.map(row => row.Date))].sort()] *)
Definition allDatesOf (rawData : list Row) : list string :=
  sort (uniq (map Date rawData)).

(** lines 43-49: one all-[null] pair of arrays per symbol. *)
Definition initPivot (symbols : list string) (n : nat)
  : gmap string (Series cell) :=
  foldl (fun pivotedData symbol =>
           <[symbol := perField (fun _ => replicate n None)]> pivotedData)
        ∅ symbols.

(** line 52: [new Map(allDates.map((date, idx) => [date, idx]))] *)
Definition dateToIndexOf (allDates : list string) : gmap string nat :=
  foldl (fun m p => <[p.1 := p.2]> m) ∅
        (zip allDates (seq 0 (length allDates))).

(** lines 54-60: the body of [rawData.forEach(row => ...)]. *)
Definition putRow (dateToIndex : gmap string nat)
           (pivotedData : gmap string (Series cell)) (row : Row)
  : gmap string (Series cell) :=
  match dateToIndex !! Date row, pivotedData !! Symbol row with
  | Some dateIdx, Some s =>
      <[Symbol row := perField (fun f => <[dateIdx := Price row f]> (col s f))]>
        pivotedData
  | _, _ => pivotedData
  end.

Definition fillPivot (rawData : list Row) (allDates : list string)
           (pivotedData : gmap string (Series cell))
  : gmap string (Series cell) :=
  foldl (putRow (dateToIndexOf allDates)) pivotedData rawData.

(** lines 65-72: the forward-fill scan of one array, [lastValue] being the
    loop's variable.  The array is overwritten in place; position [i] is
    read before it is written and no other position is touched. *)
Fixpoint forwardFill (lastValue : cell) (column : list cell) : list cell :=
  match column with
  | [] => []
  | Some v :: rest => Some v :: forwardFill (Some v) rest
  | None :: rest => lastValue :: forwardFill lastValue rest
  end.

(** lines 63-74: every symbol, both fields. *)
Definition fillGaps (symbols : list string)
           (pivotedData : gmap string (Series cell))
  : gmap string (Series cell) :=
  foldl (fun p symbol =>
           alter (fun s => perField (fun f => forwardFill None (col s f))) symbol p)
        pivotedData symbols.

(** lines 82-88: min-max scaling of one array; a [null] becomes 0 and
    the quotient is not guarded. *)
Definition normalizeColumn (column : list cell) : list num :=
  let values := omap id column in
  let min := Math_min values in
  let max := Math_max values in
  map (fun val => match val with
                  | Some v => num_div (num_sub v min) (num_sub max min)
                  | None => Fin 0
                  end) column.

(** lines 77-90.  Every symbol is a key of [pivotedData]. *)
Definition normalize (symbols : list string)
           (pivotedData : gmap string (Series cell))
  : gmap string (Series num) :=
  foldl (fun normalizedData symbol =>
           match pivotedData !! symbol with
           | Some s =>
               <[symbol := perField (fun f => normalizeColumn (col s f))]>
                 normalizedData
           | None => normalizedData
           end) ∅ symbols.

(** [normalizedData[symbol][field][j]] *)
Definition valueAt (normalizedData : gmap string (Series num))
           (symbol : string) (f : field) (j : Z) : cell :=
  match normalizedData !! symbol with
  | Some s => at_ (col s f) j
  | None => None
  end.

(** lines 105-109: one time step, [timeStep.push(open, close)] per symbol. *)
Definition timeStepAt (normalizedData : gmap string (Series num))
           (symbols : list string) (j : Z) : list cell :=
  foldl (fun timeStep symbol =>
           timeStep ++ [valueAt normalizedData symbol Open j;
                        valueAt normalizedData symbol Close j])
        [] symbols.

(** lines 101-110: the input sequence of the sample at loop position [i]. *)
Definition sampleAt (normalizedData : gmap string (Series num))
           (symbols : list string) (i : Z) : list (list cell) :=
  map (timeStepAt normalizedData symbols) (forRange (i - WINDOW_SIZE) i).

(** lines 113-120: the label vector of the sample at loop position [i]. *)
Definition labelAt (normalizedData : gmap string (Series num))
           (symbols : list string) (i : Z) : list Z :=
  foldl (fun label symbol =>
           let currentClose := valueAt normalizedData symbol Close (i - 1) in
           foldl (fun label k =>
                    let futureClose := valueAt normalizedData symbol Close (i + k) in
                    label ++ [if js_gt futureClose currentClose then 1 else 0])
                 label (forRange 0 PREDICTION_DAYS))
        [] symbols.

(** line 100: the positions visited by the sample loop. *)
Definition anchors (n : nat) : list Z :=
  forRange WINDOW_SIZE (Z.of_nat n - PREDICTION_DAYS).

(** What [prepareData] leaves in the loader. *)
Record Prepared : Type := {
  symbols : list string;
  dateIndex : list (option string);
  X_train : list (list (list cell));
  y_train : list (list Z);
  X_test : list (list (list cell));
  y_test : list (list Z);
  processedData : gmap string (Series num)
}.

Definition pivotOf (rawData : list Row) : gmap string (Series cell) :=
  let symbols := symbolsOf rawData in
  let allDates := allDatesOf rawData in
  fillPivot rawData allDates (initPivot symbols (length allDates)).

Definition filledOf (rawData : list Row) : gmap string (Series cell) :=
  fillGaps (symbolsOf rawData) (pivotOf rawData).

Definition normalizedOf (rawData : list Row) : gmap string (Series num) :=
  normalize (symbolsOf rawData) (filledOf rawData).

Definition samplesOf (rawData : list Row) : list (list (list cell)) :=
  map (sampleAt (normalizedOf rawData) (symbolsOf rawData))
      (anchors (length (allDatesOf rawData))).

Definition labelsOf (rawData : list Row) : list (list Z) :=
  map (labelAt (normalizedOf rawData) (symbolsOf rawData))
      (anchors (length (allDatesOf rawData))).

(** lines 92-136: what a run that reaches the end leaves in the loader. *)
Definition prepared (rawData : list Row) : Prepared :=
  let allDates := allDatesOf rawData in
  let samples := samplesOf rawData in
  let labels := labelsOf rawData in
  {| symbols := symbolsOf rawData;
     dateIndex := map (at_ allDates) (anchors (length allDates));
     X_train := (split80 samples).1;
     y_train := (split80 labels).1;
     X_test := (split80 samples).2;
     y_test := (split80 labels).2;
     processedData := normalizedOf rawData |}.

(** lines 33-141.  The four tensors are built at lines 130-133, in this
    order; each construction may throw. *)
Definition prepareData (rawData : list Row) : result Prepared :=
  match rawData with
  | [] => Throw "No data loaded"
  | _ =>
      let allDates := allDatesOf rawData in
      let samples := samplesOf rawData in
      let labels := labelsOf rawData in
      X_train ← tensor3d (split80 samples).1;
      y_train ← tensor2d (split80 labels).1;
      X_test ← tensor3d (split80 samples).2;
      y_test ← tensor2d (split80 labels).2;
      Ok {| symbols := symbolsOf rawData;
            dateIndex := map (at_ allDates) (anchors (length allDates));
            X_train := X_train;
            y_train := y_train;
            X_test := X_test;
            y_test := y_test;
            processedData := normalizedOf rawData |}
  end.

End Loader.

(** ** Shared pieces of the three evaluators *)

(** [p > 0.5 ? 1 : 0] *)
Definition above_half (p : cell) : num :=
  if js_gt p (Some (Fin (5 # 10))) then ofZ 1 else ofZ 0.

(** [a === b] where [a] may be [undefined] and [b] is a Number. *)
Definition strict_eq (a : cell) (b : num) : bool :=
  match a with
  | Some x => num_eq x b
  | None => false
  end.

(** ** src/unnamed/part_000: [parseAndPivot], [norm], [createSequences] *)
Module Sequences.

(** A data line after [split(',')] and [parseFloat] of its two prices. *)
Record Line : Type := {
  date : string;
  symbol : string;
  open : num;
  close : num
}.

(** The object [{ Open: open, Close: close }] stored per date and symbol. *)
Record Quote : Type := { Open : num; Close : num }.

(** lines 60-70: the body of the loop over the data lines. *)
Definition addLine (st : gmap string (gmap string Quote) * gset string)
           (l : Line) : gmap string (gmap string Quote) * gset string :=
  let day := default ∅ (st.1 !! date l) in
  (<[date l := <[symbol l := {| Open := open l; Close := close l |}]> day]> st.1,
   {[symbol l]} ∪ st.2).

Record Parsed : Type := {
  pivot : gmap string (gmap string Quote);
  dates : list string;
  symbols : list string
}.

(** lines 43-77, from the data lines on (the header is looked up by the
    tokenizer).  [lines.length < 2] is a CSV without data line. *)
Definition parseAndPivot (lines : list Line) : result Parsed :=
  match lines with
  | [] => Throw "CSV too short"
  | _ =>
      let st := foldl addLine (∅, ∅) lines in
      Ok {| pivot := st.1;
            dates := sort (map fst (map_to_list st.1));
            symbols := sort (elements st.2) |}
  end.

(** lines 99-102 *)
Definition norm (val min max : num) : num :=
  if num_eq max min then Fin 0
  else num_div (num_sub val min) (num_sub max min).

Record Tensors : Type := {
  X_train : list (list (list num));
  y_train : list (list Z);
  X_test : list (list (list num));
  y_test : list (list Z);
  out_symbols : list string
}.

Section CreateSequences.

Variable pivot_ : gmap string (gmap string Quote).
Variables dates_ symbols_ : list string.

(** The source leaves the body of the window-building loop out (line 126):
    what the missing block leaves in [ok] and [seq] at position [i] is a
    parameter. *)
Variable windowBlock : Z -> bool * list (list num).

Variables inputLen outputLen : Z.

(** [(this.pivot[day] || {})[sym]?.Close], where [day] is [this.dates[k]]:
    [undefined] when the date has no quote for [sym], and also when [k] is
    outside [dates] (no date is named "undefined"). *)
Definition closeOn (day : option string) (sym : string) : cell :=
  match day with
  | Some d => match pivot_ !! d with
              | Some quotes => match quotes !! sym with
                               | Some quote => Some (Close quote)
                               | None => None
                               end
              | None => None
              end
  | None => None
  end.

(** lines 131-135: [ok] after the scan of the base closes. *)
Definition baseOk (ok : bool) (i : Z) : bool :=
  foldl (fun ok sym =>
           match closeOn (at_ dates_ i) sym with
           | None => false
           | Some _ => ok
           end) ok symbols_.

(** lines 138-145 *)
Definition labelsAt (i : Z) : list Z :=
  foldl (fun labels off =>
           let futureDate := at_ dates_ (i + off) in
           foldl (fun labels sym =>
                    let futClose := closeOn futureDate sym in
                    let baseClose := closeOn (at_ dates_ i) sym in
                    labels ++ [if js_gt futClose baseClose then 1 else 0])
                 labels symbols_)
        [] (forRangeIncl 1 outputLen).

(** lines 117-149: one turn of the sample loop; [None] is [continue]. *)
Definition sequenceAt (i : Z) : option (list (list num) * list Z) :=
  let '(ok, seq) := windowBlock i in
  if negb ok || negb (Z.of_nat (length seq) =? inputLen) then None
  else if negb (baseOk ok i) then None
  else
    let labels := labelsAt i in
    if negb (Z.of_nat (length labels) =? Z.of_nat (length symbols_) * outputLen)
    then None
    else Some (seq, labels).

(** lines 112 and 117: the positions visited by a sample loop (the header
    is written twice, with the same bounds). *)
Definition candidates : list Z :=
  forRangeIncl inputLen (Z.of_nat (length dates_) - outputLen - 1).

(** lines 117-150: the pairs that the loop of line 117 pushes onto [X] and
    [y], in the order of the positions. *)
Definition produced : list (list (list num) * list Z) :=
  omap sequenceAt candidates.

(** lines 108-165, as they are written.  The loop of line 117 stands inside
    the loop of line 112, which is closed at line 165 only: the check of
    line 152, the split and the [return] belong to the first turn of the
    outer loop.  When no position is visited the outer loop does not turn
    and the function ends without a [return] ([Ok None]); otherwise the
    first turn runs the whole inner loop and then throws or returns. *)
Definition createSequences : result (option Tensors) :=
  match candidates with
  | [] => Ok None
  | _ =>
      let X := map fst produced in
      let y := map snd produced in
      match X with
      | [] => Throw "No valid sequences generated"
      | _ =>
          X_train ← tensor3d (split80 X).1;
          y_train ← tensor2d (split80 y).1;
          X_test ← tensor3d (split80 X).2;
          y_test ← tensor2d (split80 y).2;
          Ok (Some {| X_train := X_train;
                      y_train := y_train;
                      X_test := X_test;
                      y_test := y_test;
                      out_symbols := symbols_ |})
      end
  end.

End CreateSequences.

End Sequences.

(** ** src/unnamed/part_001: [GRUModel.evaluatePerStock] *)
Module Gru.

(** [{ true: trueVal, pred: predVal, correct: ... }] *)
Record Pred : Type := { true_ : cell; pred : num; correct : bool }.

Record Evaluation : Type := {
  stockAccuracies : gmap string num;
  stockPredictions : gmap string (list Pred)
}.

(** lines 98-103: the body of the two nested loops; [None] is the TypeError
    of indexing a missing row. *)
Definition visit (yTrueArr yPredArr : list (list num)) (idx horizon s : nat)
           (st : nat * nat * list Pred) (h : nat)
  : option (nat * nat * list Pred) :=
  let '(correct, total, preds) := st in
  let tgt := (idx * horizon + h)%nat in
  match yTrueArr !! s, yPredArr !! s with
  | Some rowTrue, Some rowPred =>
      let trueVal := rowTrue !! tgt in
      let predVal := above_half (rowPred !! tgt) in
      Some (if strict_eq trueVal predVal then S correct else correct,
            S total,
            preds ++ [{| true_ := trueVal; pred := predVal;
                         correct := strict_eq trueVal predVal |}])
  | _, _ => None
  end.

(** lines 94-105 *)
Definition stockLoop (yTrueArr yPredArr : list (list num)) (idx horizon : nat)
  : option (nat * nat * list Pred) :=
  foldl_opt (fun st s =>
               foldl_opt (visit yTrueArr yPredArr idx horizon s) st
                         (seq 0 horizon))
            (0%nat, 0%nat, []) (seq 0 (length yTrueArr)).

(** lines 88-110 *)
Definition evaluatePerStock (yTrueArr yPredArr : list (list num))
           (symbols : list string) (horizon : nat) : option Evaluation :=
  foldl_opt (fun ev p =>
               match stockLoop yTrueArr yPredArr p.1 horizon with
               | Some (correct, total, preds) =>
                   Some {| stockAccuracies :=
                             <[p.2 := num_div (ofNat correct) (ofNat total)]>
                               (stockAccuracies ev);
                           stockPredictions :=
                             <[p.2 := preds]> (stockPredictions ev) |}
               | None => None
               end)
            {| stockAccuracies := ∅; stockPredictions := ∅ |}
            (zip (seq 0 (length symbols)) symbols).

End Gru.

(** ** the gru.js after src/app.js: [computePerStockAccuracy],
       [getPredictionTimeline] *)
Module Model.

(** [{ predicted, actual, correct: predicted === actual }] *)
Record Entry : Type := { predicted : num; actual : cell; correct : bool }.

(** lines 321-331 of src/app.js *)
Definition visit (predData trueData : list (list num))
           (stockIdx predictionDays sample : nat) (st : nat * nat) (day : nat)
  : option (nat * nat) :=
  let predIdx := (stockIdx * predictionDays + day)%nat in
  match predData !! sample, trueData !! sample with
  | Some rowPred, Some rowTrue =>
      let predicted := above_half (rowPred !! predIdx) in
      let actual := rowTrue !! predIdx in
      Some (if strict_eq actual predicted then S st.1 else st.1, S st.2)
  | _, _ => None
  end.

Definition stockLoop (predData trueData : list (list num))
           (stockIdx predictionDays : nat) : option (nat * nat) :=
  foldl_opt (fun st sample =>
               foldl_opt (visit predData trueData stockIdx predictionDays sample)
                         st (seq 0 predictionDays))
            (0%nat, 0%nat) (seq 0 (length predData)).

(** lines 312-338 of src/app.js *)
Definition computePerStockAccuracy (predData trueData : list (list num))
           (symbols : list string) (predictionDays : nat)
  : option (gmap string num) :=
  foldl_opt (fun stockAccuracies p =>
               match stockLoop predData trueData p.1 predictionDays with
               | Some (correct, total) =>
                   Some (<[p.2 := num_div (ofNat correct) (ofNat total)]>
                           stockAccuracies)
               | None => None
               end)
            ∅ (zip (seq 0 (length symbols)) symbols).

(** lines 350-360 of src/app.js: the records of one sample. *)
Definition sampleResult (predData trueData : list (list num))
           (stockIdx predictionDays sample : nat) : option (list Entry) :=
  foldl_opt (fun res day =>
               let predIdx := (stockIdx * predictionDays + day)%nat in
               match predData !! sample, trueData !! sample with
               | Some rowPred, Some rowTrue =>
                   let predicted := above_half (rowPred !! predIdx) in
                   let actual := rowTrue !! predIdx in
                   Some (res ++ [{| predicted := predicted; actual := actual;
                                    correct := strict_eq actual predicted |}])
               | _, _ => None
               end)
            [] (seq 0 predictionDays).

(** lines 340-366 of src/app.js *)
Definition getPredictionTimeline (predData trueData : list (list num))
           (symbols : list string) (predictionDays : nat)
  : option (gmap string (list (list Entry))) :=
  foldl_opt (fun timeline p =>
               match foldl_opt (fun rows sample =>
                                  match sampleResult predData trueData p.1
                                                     predictionDays sample with
                                  | Some r => Some (rows ++ [r])
                                  | None => None
                                  end)
                               [] (seq 0 (length predData)) with
               | Some rows => Some (<[p.2 := rows]> timeline)
               | None => None
               end)
            ∅ (zip (seq 0 (length symbols)) symbols).

End Model.

(** ** Specification-side definitions and sample data *)

(** A label entry is a binary class. *)
Definition binary (x : Z) : Prop := x = 0 \/ x = 1.

(** The label of [prepareData], one run of three entries per symbol. *)
Definition loaderRun (normalizedData : gmap string (Loader.Series num))
           (i : Z) (symbol : string) : list Z :=
  map (fun k => if js_gt (Loader.valueAt normalizedData symbol Loader.Close (i + k))
                         (Loader.valueAt normalizedData symbol Loader.Close (i - 1))
                then 1 else 0) [0; 1; 2].

(** The labels of [createSequences], one run of one entry per symbol for
    every offset. *)
Definition sequencesRun (pivot : gmap string (gmap string Sequences.Quote))
           (dates symbols : list string) (i off : Z) : list Z :=
  map (fun sym => if js_gt (Sequences.closeOn pivot (at_ dates (i + off)) sym)
                           (Sequences.closeOn pivot (at_ dates i) sym)
                  then 1 else 0) symbols.

(** The label vector as the specification words it: for each entity in
    canonical order, the baseline is the close at the anchor position, and
    each of the [horizon] following positions gives 1 when its close
    strictly exceeds the baseline, 0 otherwise. *)
Definition spec_label (close : string -> Z -> cell) (symbols : list string)
           (anchor horizon : Z) : list Z :=
  symbols ≫= fun e =>
    map (fun h => if js_gt (close e (anchor + h)) (close e anchor) then 1 else 0)
        (forRangeIncl 1 horizon).

(** Seventeen trading days of one stock whose closes span [0, 1], so that
    min-max scaling leaves them unchanged; positions 11 to 14 hold the
    closes 0.2, 0.5, 0.1, 0.9.  Seventeen days give two samples, one for
    each part of the split. *)
Definition trading_days : list string :=
  ["2024-01-01"; "2024-01-02"; "2024-01-03"; "2024-01-04"; "2024-01-05";
   "2024-01-06"; "2024-01-07"; "2024-01-08"; "2024-01-09"; "2024-01-10";
   "2024-01-11"; "2024-01-12"; "2024-01-13"; "2024-01-14"; "2024-01-15";
   "2024-01-16"; "2024-01-17"].

Definition sample_closes : list Q :=
  [1; 0; 5 # 10; 5 # 10; 5 # 10; 5 # 10; 5 # 10; 5 # 10; 5 # 10; 5 # 10;
   5 # 10; 2 # 10; 5 # 10; 1 # 10; 9 # 10; 3 # 10; 6 # 10]%Q.

Definition one_stock : list Loader.Row :=
  zip_with (fun d c => Loader.mkRow d "A" (Some (Fin c)) (Some (Fin c)))
           trading_days sample_closes.

(** Four days of one stock with the closes 0.2, 0.5, 0.1, 0.9. *)
Definition four_lines : list Sequences.Line :=
  zip_with (fun d c => {| Sequences.date := d; Sequences.symbol := "A";
                          Sequences.open := Fin c; Sequences.close := Fin c |})
           ["2024-01-01"; "2024-01-02"; "2024-01-03"; "2024-01-04"]
           [2 # 10; 5 # 10; 1 # 10; 9 # 10]%Q.

Definition four_pivot : gmap string (gmap string Sequences.Quote) :=
  (foldl Sequences.addLine (∅, ∅) four_lines).1.

Definition four_dates : list string :=
  sort (map fst (map_to_list four_pivot)).

(** Seventeen days of one stock whose open moves and whose close never
    does. *)
Definition constant_close : list Loader.Row :=
  zip_with (fun d o => Loader.mkRow d "A" (Some (Fin o)) (Some (Fin 5)))
           trading_days sample_closes.

(** What a run of keyed writes [obj[key] = val idx] leaves under [key]. *)
Definition last_write {V : Type} (val : nat -> V) (ps : list (nat * string))
           (key : string) (init : option V) : option V :=
  foldl (fun cur p => if decide (key = p.2) then Some (val p.1) else cur) init ps.

(** [m[s][t]] when row [s] exists. *)
Definition cellAt (m : list (list num)) (s t : nat) : cell :=
  match m !! s with
  | Some row => row !! t
  | None => None
  end.

(** The column block of an entity, flattened over all samples and horizon
    days: the cells (sample, entity_index * horizon_length + day_index). *)
Definition block (sample_count horizon entity_index : nat) : list (nat * nat) :=
  seq 0 sample_count ≫= fun s =>
    map (fun day => (s, (entity_index * horizon + day)%nat)) (seq 0 horizon).

(** A cell is correct when the thresholded prediction equals the label. *)
Definition hit (yTrue yPred : list (list num)) (c : nat * nat) : bool :=
  strict_eq (cellAt yTrue c.1 c.2) (above_half (cellAt yPred c.1 c.2)).

(** accuracy = correct_count / total_count over the entity's block. *)
Definition spec_accuracy (yTrue yPred : list (list num))
           (sample_count horizon entity_index : nat) : num :=
  let cells := block sample_count horizon entity_index in
  num_div (ofNat (length (List.filter (hit yTrue yPred) cells)))
          (ofNat (length cells)).

(** The worked example: one sample, one entity, two horizon days. *)
Definition example_pred : list (list num) := [[Fin (9 # 10); Fin (4 # 10)]].
Definition example_true : list (list num) := [[Fin 1; Fin 1]].

(** The record [evaluatePerStock] pushes for a cell. *)
Definition gruRecord (yTrue yPred : list (list num)) (c : nat * nat) : Gru.Pred :=
  {| Gru.true_ := cellAt yTrue c.1 c.2;
     Gru.pred := above_half (cellAt yPred c.1 c.2);
     Gru.correct := hit yTrue yPred c |}.

(** Ascending in the code-unit order of strings. *)
Definition ascending (l : list string) : Prop :=
  Sorted (fun a b => String.leb a b = true) l.

(** Two stocks on seventeen days, the rows of B before the rows of A. *)
Definition b_before_a : list Loader.Row :=
  zip_with (fun d c => Loader.mkRow d "B" (Some (Fin c)) (Some (Fin c)))
           trading_days sample_closes ++
  one_stock.

Definition b_before_a_lines : list Sequences.Line :=
  [{| Sequences.date := "2024-01-01"; Sequences.symbol := "B";
      Sequences.open := Fin 1; Sequences.close := Fin 2 |};
   {| Sequences.date := "2024-01-01"; Sequences.symbol := "A";
      Sequences.open := Fin 3; Sequences.close := Fin 4 |}].

(** The exclusion condition of the specification at loop position [i]:
    some entity and field still has a hole, after the forward fill, at a
    position of the lookback window [i-12, i) or of the horizon [i, i+3). *)
Definition touchesHole (filled : gmap string (Loader.Series cell))
           (symbols : list string) (i : Z) : bool :=
  existsb (fun symbol =>
    existsb (fun f =>
      existsb (fun j =>
                 match filled !! symbol with
                 | Some s => match at_ (Loader.col s f) j with
                             | Some None => true
                             | _ => false
                             end
                 | None => false
                 end) (forRange (i - 12) (i + 3)))
      [Loader.Open; Loader.Close]) symbols.

(** Stock A on all seventeen days, stock B listed from the second day on:
    the first position of B is a hole that no forward fill can reach. *)
Definition late_listing : list Loader.Row :=
  one_stock ++
  zip_with (fun d c => Loader.mkRow d "B" (Some (Fin c)) (Some (Fin c)))
           (drop 1 trading_days) (drop 1 sample_closes).

(** ** Further functions of the loaders *)

(** line 135 of src/data-loader.js:
    [symbols.flatMap(symbol => [`${symbol}_Open`, `${symbol}_Close`])] *)
Definition featureNamesOf (symbols : list string) : list string :=
  symbols ≫= fun symbol => [symbol +:+ "_Open"; symbol +:+ "_Close"].

(** The part of a feature name after the symbol. *)
Definition fieldSuffix (f : Loader.field) : string :=
  match f with
  | Loader.Open => "_Open"
  | Loader.Close => "_Close"
  end.

(** src/unnamed/part_000, lines 80-96: [computeMinMax]. *)
Module Scaling.




End Scaling.

(** ** Specification-side definitions of the further properties *)

(** Strictly ascending in the code-unit order of strings. *)
Definition strictly_ascending (l : list string) : Prop :=
  Sorted (fun a b => String.ltb a b = true) l.

(** The value the last row of [rows] for date [d] and symbol [symbol] gives to
    field [f]; [init] when there is no such row. *)
Definition lastPrice (rows : list Loader.Row) (d symbol : string)
           (f : Loader.field) (init : cell) : cell :=
  foldl (fun cur row =>
           if decide (Loader.Date row = d /\ Loader.Symbol row = symbol)
           then Loader.Price row f else cur) init rows.

(** The quote the last line of [lines] for date [d] and symbol [s] carries. *)
Definition lastQuote (lines : list Sequences.Line) (d s : string)
           (init : option Sequences.Quote) : option Sequences.Quote :=
  foldl (fun cur l =>
           if decide (Sequences.date l = d /\ Sequences.symbol l = s)
           then Some {| Sequences.Open := Sequences.open l;
                        Sequences.Close := Sequences.close l |}
           else cur) init lines.


(** A finite Number between 0 and 1. *)
Definition in_unit (v : num) : Prop :=
  exists q, v = Fin q /\ (0 <= q)%Q /\ (q <= 1)%Q.

(** ** The timeline charts of src/unnamed/part_000 (app.js part) *)
Module Charts.

(** [{ x: dayIdx, y: sampleIdx }] *)
Record Point : Type := { x : nat; y : nat }.

(** A scatter dataset.  Its label, [`Sample ${sampleIdx + 1} Correct`] with
    green points or [`Sample ${sampleIdx + 1} Wrong`] with red points, is
    kept as the sample number and the kind. *)
Record Dataset : Type := {
  sampleNumber : nat;
  correctKind : bool;
  data : list Point
}.

(** lines 431-437 of createStockTimelineChart: [sample.forEach((pred, dayIdx)
    => ...)]; the state is [correctPoints], [incorrectPoints]. *)
Definition splitPoints (sampleIdx : nat) (sample : list Model.Entry)
  : list Point * list Point :=
  foldl (fun pts p =>
           if Model.correct p.2
           then (pts.1 ++ [{| x := p.1; y := sampleIdx |}], pts.2)
           else (pts.1, pts.2 ++ [{| x := p.1; y := sampleIdx |}]))
        ([], []) (zip (seq 0 (length sample)) sample).

(** lines 427-459: the body of [timelineData.forEach((sample, sampleIdx)
    => ...)]. *)
Definition addSample (datasets : list Dataset) (p : nat * list Model.Entry)
  : list Dataset :=
  let pts := splitPoints p.1 p.2 in
  let datasets :=
    match pts.1 with
    | [] => datasets
    | _ => datasets ++ [{| sampleNumber := p.1 + 1; correctKind := true;
                           data := pts.1 |}]
    end in
  match pts.2 with
  | [] => datasets
  | _ => datasets ++ [{| sampleNumber := p.1 + 1; correctKind := false;
                         data := pts.2 |}]
  end.

(** lines 422-460: the datasets handed to the chart; [None] is the TypeError
    of [timelineData[0].length] on an empty timeline. *)
Definition createStockTimelineChart (timelineData : list (list Model.Entry))
  : option (list Dataset) :=
  match timelineData with
  | [] => None
  | _ => Some (foldl addSample []
                     (zip (seq 0 (length timelineData)) timelineData))
  end.

(** lines 407-419: the body of [topStocks.forEach] for one stock; [None] is
    a TypeError ([timeline[symbol]] missing, or the one above). *)
Definition stockChart (timeline : gmap string (list (list Model.Entry)))
           (symbol : string) : option (list Dataset) :=
  match timeline !! symbol with
  | None => None
  | Some stockTimeline =>
      let sampleCount := Nat.min 10 (length stockTimeline) in
      createStockTimelineChart (take sampleCount stockTimeline)
  end.

End Charts.

(** Seventeen days of one stock for [createSequences], with the closes of
    [one_stock], and a window block that accepts every position with twelve
    steps. *)
Definition seventeen_lines : list Sequences.Line :=
  zip_with (fun d c => {| Sequences.date := d; Sequences.symbol := "A";
                          Sequences.open := Fin c; Sequences.close := Fin c |})
           trading_days sample_closes.

Definition seventeen_pivot : gmap string (gmap string Sequences.Quote) :=
  (foldl Sequences.addLine (∅, ∅) seventeen_lines).1.

Definition twelve_steps (i : Z) : bool * list (list num) :=
  (true, replicate 12 [Fin 0; Fin 0]).

(** Stock A on all seventeen days, stock B on all of them but the fourth:
    position 3 of B is a hole between two quotes. *)
Definition inner_gap : list Loader.Row :=
  one_stock ++
  zip_with (fun d c => Loader.mkRow d "B" (Some (Fin c)) (Some (Fin c)))
           (take 3 trading_days ++ drop 4 trading_days)
           (take 3 sample_closes ++ drop 4 sample_closes).

(** ** Auxiliary notions for the properties *)

(** Three finite closes whose range 2^1024 is not a finite double. *)
Definition wide_closes : list cell :=
  [Some (Fin (inject_Z (2 ^ 1023))); Some (Fin (inject_Z (- 2 ^ 1023)));
   Some (Fin 0)].


(** The state of the pivot while the rows are written: the keys are the
    symbols, every array has one slot per date, and the slot of a date holds
    [v] of that date. *)
Definition pivotHolds (symbols allDates : list string)
           (p : gmap string (Loader.Series cell))
           (v : string -> string -> Loader.field -> cell) : Prop :=
  (forall symbol, symbol ∉ symbols -> p !! symbol = None) /\
  (forall symbol, symbol ∈ symbols ->
     exists s, p !! symbol = Some s /\
       forall f, length (Loader.col s f) = length allDates /\
         forall i d, allDates !! i = Some d ->
                     Loader.col s f !! i = Some (v d symbol f)).


(** The record [getPredictionTimeline] pushes for a cell. *)
Definition modelEntry (trueData predData : list (list num)) (c : nat * nat)
  : Model.Entry :=
  {| Model.predicted := above_half (cellAt predData c.1 c.2);
     Model.actual := cellAt trueData c.1 c.2;
     Model.correct := hit trueData predData c |}.

(** * Properties *)

(** ** Loops, pushes and slices *)

Lemma elem_of_forRange (lo hi i : Z) : i ∈ forRange lo hi <-> lo <= i < hi.
Proof.
  unfold forRange. rewrite list_elem_of_In, in_map_iff. split.
  - intros (k & <- & Hk). apply in_seq in Hk. lia.
  - intros Hi. exists (Z.to_nat (i - lo)). split; [lia|].
    apply in_seq. lia.
Qed.

Lemma length_forRange (lo hi : Z) : length (forRange lo hi) = Z.to_nat (hi - lo).
Proof. unfold forRange. now rewrite length_map, length_seq. Qed.

Lemma forRange_lookup (lo hi : Z) (k : nat) :
  (k < Z.to_nat (hi - lo))%nat -> forRange lo hi !! k = Some (lo + Z.of_nat k).
Proof.
  intros Hk. unfold forRange.
  change (map ?f ?l) with (f <$> l).
  rewrite list_lookup_fmap, lookup_seq_lt by exact Hk. reflexivity.
Qed.

Lemma foldl_agree {A B : Type} (f g : A -> B -> A) (l : list B) (a : A) :
  (forall a x, f a x = g a x) -> foldl f a l = foldl g a l.
Proof.
  intros Hfg. revert a. induction l as [|x l IH]; intros a; simpl; [reflexivity|].
  now rewrite Hfg, IH.
Qed.

(** A loop that only pushes onto an array appends the pushed runs in order. *)
Lemma foldl_push {A B : Type} (g : B -> list A) (l : list B) (acc : list A) :
  foldl (fun acc x => acc ++ g x) acc l = acc ++ (l ≫= g).
Proof.
  revert acc. induction l as [|x l IH]; intros acc; simpl.
  - now rewrite app_nil_r.
  - rewrite IH. now rewrite <- app_assoc.
Qed.

Lemma bind_block_lookup {A B : Type} (g : B -> list A) (m : nat)
      (l : list B) (e k : nat) (x : B) :
  (forall y, length (g y) = m) -> l !! e = Some x -> (k < m)%nat ->
  (l ≫= g) !! (e * m + k)%nat = g x !! k.
Proof.
  intros Hlen. revert e. induction l as [|y l IH]; intros e He Hk; [easy|].
  change ((y :: l) ≫= g) with (g y ++ (l ≫= g)).
  destruct e as [|e]; simpl in He.
  - injection He as ->. simpl. apply lookup_app_l. now rewrite Hlen.
  - rewrite lookup_app_r by (rewrite Hlen; lia).
    rewrite Hlen. replace (S e * m + k - m)%nat with (e * m + k)%nat by lia.
    now apply IH.
Qed.

Lemma length_bind_block {A B : Type} (g : B -> list A) (m : nat) (l : list B) :
  (forall y, length (g y) = m) -> length (l ≫= g) = (length l * m)%nat.
Proof.
  intros Hlen. induction l as [|y l IH]; [reflexivity|].
  change ((y :: l) ≫= g) with (g y ++ (l ≫= g)).
  rewrite length_app, Hlen, IH. simpl. lia.
Qed.

(** ** Runs that throw *)

Lemma bind_Ok {A B : Type} (m : result A) (k : A -> result B) (b : B) :
  m ≫= k = Ok b -> exists a, m = Ok a /\ k a = Ok b.
Proof. destruct m as [a|message]; [now exists a|discriminate]. Qed.

Lemma tensor3d_Ok {A : Type} (values t : list (list (list A))) :
  tensor3d values = Ok t -> t = values /\ values <> [].
Proof.
  destruct values as [|[|step sample] values]; try discriminate.
  intros [= <-]. split; [reflexivity|discriminate].
Qed.

Lemma tensor2d_Ok {A : Type} (values t : list (list A)) :
  tensor2d values = Ok t -> t = values /\ values <> [].
Proof.
  destruct values as [|row values]; [discriminate|].
  intros [= <-]. split; [reflexivity|discriminate].
Qed.

Lemma tensor3d_returns {A : Type} (values : list (list (list A))) :
  values <> [] -> (forall sample, sample ∈ values -> sample <> []) ->
  tensor3d values = Ok values.
Proof.
  destruct values as [|[|step sample] values]; intros Hne Hs;
    [congruence| |reflexivity].
  exfalso. apply (Hs []); [left|reflexivity].
Qed.

Lemma tensor2d_returns {A : Type} (values : list (list A)) :
  values <> [] -> tensor2d values = Ok values.
Proof. destruct values; [congruence|reflexivity]. Qed.

Lemma prepareData_run (rawData : list Loader.Row) (r : Loader.Prepared) :
  Loader.prepareData rawData = Ok r ->
  r = Loader.prepared rawData /\
  (split80 (Loader.samplesOf rawData)).1 <> [] /\
  (split80 (Loader.samplesOf rawData)).2 <> [].
Proof.
  unfold Loader.prepareData. destruct rawData as [|row rows]; [discriminate|].
  cbv zeta. intros H.
  apply bind_Ok in H as (X_train & HXtrain & H).
  apply bind_Ok in H as (y_train & Hytrain & H).
  apply bind_Ok in H as (X_test & HXtest & H).
  apply bind_Ok in H as (y_test & Hytest & H).
  apply tensor3d_Ok in HXtrain as [-> Htrain].
  apply tensor2d_Ok in Hytrain as [-> _].
  apply tensor3d_Ok in HXtest as [-> Htest].
  apply tensor2d_Ok in Hytest as [-> _].
  split; [|split; assumption].
  symmetry. unfold Loader.prepared. congruence.
Qed.

Lemma prepareData_Ok (rawData : list Loader.Row) (r : Loader.Prepared) :
  Loader.prepareData rawData = Ok r -> r = Loader.prepared rawData.
Proof. intros H. now apply prepareData_run in H as [-> _]. Qed.

Lemma createSequences_run (pivot : gmap string (gmap string Sequences.Quote))
      (dates symbols : list string) (windowBlock : Z -> bool * list (list num))
      (inputLen outputLen : Z) (t : Sequences.Tensors) :
  Sequences.createSequences pivot dates symbols windowBlock inputLen outputLen
    = Ok (Some t) ->
  let produced := Sequences.produced pivot dates symbols windowBlock
                                     inputLen outputLen in
  Sequences.X_train t = (split80 (map fst produced)).1 /\
  Sequences.y_train t = (split80 (map snd produced)).1 /\
  Sequences.X_test t = (split80 (map fst produced)).2 /\
  Sequences.y_test t = (split80 (map snd produced)).2 /\
  Sequences.out_symbols t = symbols /\
  (split80 (map fst produced)).1 <> [] /\
  (split80 (map fst produced)).2 <> [].
Proof.
  unfold Sequences.createSequences.
  destruct (Sequences.candidates dates inputLen outputLen); [discriminate|].
  cbv zeta. set (produced := Sequences.produced _ _ _ _ _ _).
  destruct (map fst produced) eqn:HX; [discriminate|]. rewrite <- HX.
  intros H.
  apply bind_Ok in H as (X_train & HXtrain & H).
  apply bind_Ok in H as (y_train & Hytrain & H).
  apply bind_Ok in H as (X_test & HXtest & H).
  apply bind_Ok in H as (y_test & Hytest & H).
  apply tensor3d_Ok in HXtrain as [-> Htrain].
  apply tensor2d_Ok in Hytrain as [-> _].
  apply tensor3d_Ok in HXtest as [-> Htest].
  apply tensor2d_Ok in Hytest as [-> _].
  injection H as <-. cbn. auto 10.
Qed.

Lemma col_perField {A : Type} (g : Loader.field -> list A) (f : Loader.field) :
  Loader.col (Loader.perField g) f = g f.
Proof. now destruct f. Qed.

(** ** The 80/20 split *)

Lemma floor_08_div (n : nat) : Z.of_nat (floor_08 n) = (Z.of_nat n * 8) / 10.
Proof.
  unfold floor_08, Qfloor, Qmult, inject_Z. simpl Qnum. simpl Qden.
  rewrite Z2Nat.id; [reflexivity|].
  apply Z.div_pos; lia.
Qed.

Lemma floor_08_bounds (n : nat) :
  (5 * floor_08 n <= 4 * n < 5 * floor_08 n + 5)%nat.
Proof.
  pose proof (floor_08_div n) as H.
  pose proof (Z.div_mod (Z.of_nat n * 8) 10 ltac:(lia)) as Hdm.
  pose proof (Z.mod_pos_bound (Z.of_nat n * 8) 10 ltac:(lia)) as Hm.
  lia.
Qed.

Lemma floor_08_le (n : nat) : (floor_08 n <= n)%nat.
Proof. pose proof (floor_08_bounds n). lia. Qed.

(** ** The sample loop *)

(** ** The forward fill *)

Lemma length_forwardFill (lastValue : cell) (column : list cell) :
  length (Loader.forwardFill lastValue column) = length column.
Proof.
  revert lastValue. induction column as [|[v|] rest IH]; intros lastValue; simpl;
    [reflexivity| |]; now rewrite IH.
Qed.

(** What the scan leaves at position [i]: the nearest non-hole at or before
    [i], or the initial [lastValue] when there is none. *)
Lemma forwardFill_lookup (lastValue : cell) (column : list cell) (i : nat) (x : cell) :
  Loader.forwardFill lastValue column !! i = Some x ->
  (exists j v, (j <= i)%nat /\ column !! j = Some (Some v) /\ x = Some v /\
               forall k, (j < k <= i)%nat -> column !! k = Some None) \/
  (x = lastValue /\ forall k, (k <= i)%nat -> column !! k = Some None).
Proof.
  revert lastValue i. induction column as [|c rest IH]; intros lastValue i Hx.
  - discriminate.
  - destruct c as [v|]; simpl in Hx; destruct i as [|i]; simpl in Hx.
    + injection Hx as <-. left. exists 0%nat, v.
      repeat split; [lia|]. intros k Hk. lia.
    + apply IH in Hx as [(j & w & Hj & Hc & -> & Hk)|[-> Hk]]; left.
      * exists (S j), w. repeat split; [lia|exact Hc|].
        intros [|k] Hjk; [lia|]. simpl. apply Hk. lia.
      * exists 0%nat, v. repeat split; [lia|].
        intros [|k] Hjk; [lia|]. simpl. apply Hk. lia.
    + injection Hx as <-. right. split; [reflexivity|].
      intros k Hk. replace k with 0%nat by lia. reflexivity.
    + apply IH in Hx as [(j & w & Hj & Hc & -> & Hk)|[-> Hk]].
      * left. exists (S j), w. repeat split; [lia|exact Hc|].
        intros [|k] Hjk; [lia|]. simpl. apply Hk. lia.
      * right. split; [reflexivity|].
        intros [|k] Hjk; [reflexivity|]. simpl. apply Hk. lia.
Qed.

Lemma forwardFill_at (column : list cell) (i : nat) :
  let filled := Loader.forwardFill None column in
  length filled = length column /\
  (filled !! i = Some None <->
   (i < length column)%nat /\ forall j, (j <= i)%nat -> column !! j = Some None) /\
  (forall v, filled !! i = Some (Some v) <->
             exists j, (j <= i)%nat /\ column !! j = Some (Some v) /\
                       forall k, (j < k <= i)%nat -> column !! k = Some None).
Proof.
  intros filled. subst filled.
  pose proof (length_forwardFill None column) as Hlen.
  assert (Hex : (i < length column)%nat ->
                exists y, Loader.forwardFill None column !! i = Some y).
  { intros Hi. apply lookup_lt_is_Some. lia. }
  split; [exact Hlen|split].
  - split.
    + intros Hx. split.
      * apply lookup_lt_Some in Hx. lia.
      * apply forwardFill_lookup in Hx as [(j & w & _ & _ & Hw & _)|[_ Hk]];
          [discriminate|exact Hk].
    + intros [Hi Hall]. destruct (Hex Hi) as (y & Hy). rewrite Hy.
      apply forwardFill_lookup in Hy as [(j & w & Hj & Hc & _ & _)|[-> _]];
        [|reflexivity].
      rewrite Hall in Hc by exact Hj. discriminate.
  - intros v. split.
    + intros Hx.
      apply forwardFill_lookup in Hx as [(j & w & Hj & Hc & Hw & Hk)|[Hw _]];
        [|discriminate].
      injection Hw as ->. now exists j.
    + intros (j & Hj & Hc & Hk).
      assert (Hi : (i < length column)%nat).
      { destruct (decide (j = i)) as [<-|Hne].
        - now apply lookup_lt_Some in Hc.
        - specialize (Hk i ltac:(lia)). now apply lookup_lt_Some in Hk. }
      destruct (Hex Hi) as (y & Hy). rewrite Hy.
      apply forwardFill_lookup in Hy as [(j' & w & Hj' & Hc' & -> & Hk')|[-> Hk']].
      * destruct (Nat.lt_total j j') as [Hlt|[->|Hlt]].
        -- rewrite Hk in Hc' by lia. discriminate.
        -- rewrite Hc in Hc'. congruence.
        -- rewrite Hk' in Hc by lia. discriminate.
      * rewrite Hk' in Hc by exact Hj. discriminate.
Qed.

(** ** Label vectors *)


Lemma bind_singleton {A B : Type} (h : B -> A) (l : list B) :
  (l ≫= fun x => [h x]) = map h l.
Proof. induction l as [|x l IH]; [reflexivity|]. simpl. now rewrite <- IH. Qed.


Lemma labelAt_runs (normalizedData : gmap string (Loader.Series num))
      (symbols : list string) (i : Z) :
  Loader.labelAt normalizedData symbols i = symbols ≫= loaderRun normalizedData i.
Proof.
  unfold Loader.labelAt.
  rewrite (foldl_agree _ (fun label symbol => label ++ loaderRun normalizedData i symbol)).
  - now rewrite foldl_push.
  - intros label symbol. cbv zeta.
    rewrite (foldl_push (fun k => [if js_gt _ _ then 1 else 0])).
    now rewrite bind_singleton.
Qed.


Lemma labelsAt_runs (pivot : gmap string (gmap string Sequences.Quote))
      (dates symbols : list string) (outputLen i : Z) :
  Sequences.labelsAt pivot dates symbols outputLen i =
  forRangeIncl 1 outputLen ≫= sequencesRun pivot dates symbols i.
Proof.
  unfold Sequences.labelsAt.
  rewrite (foldl_agree _ (fun labels off => labels ++ sequencesRun pivot dates symbols i off)).
  - now rewrite foldl_push.
  - intros labels off. cbv zeta.
    rewrite (foldl_push (fun sym => [if js_gt _ _ then 1 else 0])).
    now rewrite bind_singleton.
Qed.

Lemma binary_runs {B : Type} (g : B -> list Z) (l : list B) :
  (forall x, Forall binary (g x)) -> Forall binary (l ≫= g).
Proof.
  intros Hg. induction l as [|x l IH]; [constructor|].
  change ((x :: l) ≫= g) with (g x ++ (l ≫= g)).
  apply Forall_app. split; [apply Hg|exact IH].
Qed.

Lemma binary_choice {B : Type} (c : B -> bool) (l : list B) :
  Forall binary (map (fun x => if c x then 1 else 0) l).
Proof.
  induction l as [|x l IH]; constructor; [|exact IH].
  destruct (c x); [now right|now left].
Qed.

Lemma labelAt_binary (normalizedData : gmap string (Loader.Series num))
      (symbols : list string) (i : Z) :
  Forall binary (Loader.labelAt normalizedData symbols i).
Proof.
  rewrite labelAt_runs. apply binary_runs. intros symbol.
  apply (binary_choice (fun k => js_gt _ _)).
Qed.

Lemma labelsAt_binary (pivot : gmap string (gmap string Sequences.Quote))
      (dates symbols : list string) (outputLen i : Z) :
  Forall binary (Sequences.labelsAt pivot dates symbols outputLen i).
Proof.
  rewrite labelsAt_runs. apply binary_runs. intros off.
  apply (binary_choice (fun sym => js_gt _ _)).
Qed.

Lemma sequenceAt_labels (pivot : gmap string (gmap string Sequences.Quote))
      (dates symbols : list string) (windowBlock : Z -> bool * list (list num))
      (inputLen outputLen i : Z) (s : list (list num)) (labels : list Z) :
  Sequences.sequenceAt pivot dates symbols windowBlock inputLen outputLen i
    = Some (s, labels) ->
  labels = Sequences.labelsAt pivot dates symbols outputLen i.
Proof.
  unfold Sequences.sequenceAt. destruct (windowBlock i) as [ok w].
  repeat match goal with |- context [if ?c then _ else _] => destruct c end;
    congruence.
Qed.

(** C10.  Every element of every emitted label vector is exactly 0 or
    exactly 1, whatever the close values are (a missing or NaN close makes
    the comparison false, which gives 0): this holds for the label block of
    both variants at any position and for the label matrices they return. *)
Theorem labels_are_binary :
  (forall normalizedData symbols i,
      Forall binary (Loader.labelAt normalizedData symbols i)) /\
  (forall pivot dates symbols outputLen i,
      Forall binary (Sequences.labelsAt pivot dates symbols outputLen i)) /\
  (forall rawData r,
      Loader.prepareData rawData = Ok r ->
      Forall (Forall binary) (Loader.y_train r) /\
      Forall (Forall binary) (Loader.y_test r)) /\
  (forall pivot dates symbols windowBlock inputLen outputLen t,
      Sequences.createSequences pivot dates symbols windowBlock inputLen outputLen
        = Ok (Some t) ->
      Forall (Forall binary) (Sequences.y_train t) /\
      Forall (Forall binary) (Sequences.y_test t)).
Proof.
  split; [exact labelAt_binary|]. split; [exact labelsAt_binary|]. split.
  - intros rawData r Hr. apply prepareData_Ok in Hr as ->.
    cbn [Loader.y_train Loader.y_test Loader.prepared].
    assert (Hall : Forall (Forall binary) (Loader.labelsOf rawData)).
    { unfold Loader.labelsOf. apply Forall_forall. intros label Hl.
      apply list_elem_of_In, in_map_iff in Hl as (i & <- & _).
      apply labelAt_binary. }
    unfold split80, slice_to, slice_from. cbn [fst snd].
    split; [now apply Forall_take|now apply Forall_drop].
  - intros pivot dates symbols windowBlock inputLen outputLen t Ht.
    apply createSequences_run in Ht as (_ & -> & _ & -> & _).
    set (produced := Sequences.produced _ _ _ _ _ _).
    assert (Hall : Forall (Forall binary) (map snd produced)).
    { apply Forall_forall. intros labels Hl.
      apply list_elem_of_In, in_map_iff in Hl as ([s l] & <- & Hin).
      apply list_elem_of_In, list_elem_of_omap in Hin as (i & _ & Hi).
      apply sequenceAt_labels in Hi as ->. apply labelsAt_binary. }
    unfold split80, slice_to, slice_from. cbn [fst snd].
    split; [now apply Forall_take|now apply Forall_drop].
Qed.

Lemma loaderRun_lookup (normalizedData : gmap string (Loader.Series num))
      (i : Z) (symbol : string) (k : nat) :
  (k < 3)%nat ->
  loaderRun normalizedData i symbol !! k =
  Some (if js_gt (Loader.valueAt normalizedData symbol Loader.Close (i + Z.of_nat k))
                 (Loader.valueAt normalizedData symbol Loader.Close (i - 1))
        then 1 else 0).
Proof.
  intros Hk. destruct k as [|[|[|k]]]; [reflexivity..|lia].
Qed.

Lemma labelsOf_lookup (rawData : list Loader.Row) (i : Z) :
  0 <= i - 12 /\ i + 3 <= Z.of_nat (length (Loader.allDatesOf rawData)) - 1 ->
  Loader.labelsOf rawData !! Z.to_nat (i - 12) =
  Some (Loader.labelAt (Loader.normalizedOf rawData) (Loader.symbolsOf rawData) i).
Proof.
  intros Hi. unfold Loader.labelsOf.
  change (map ?f ?l) with (f <$> l).
  rewrite list_lookup_fmap. unfold Loader.anchors.
  rewrite forRange_lookup.
  - simpl. f_equal. f_equal. unfold Loader.WINDOW_SIZE. lia.
  - unfold Loader.WINDOW_SIZE, Loader.PREDICTION_DAYS. lia.
Qed.

(** C1, as the code has it.  In [prepareData] the label vector of the
    sample at loop position i (lookback window [i-12, i)) is laid out entity
    by entity in the order of [symbols]; the baseline of an entity is its
    normalised close at position i-1, the last position of the lookback
    window, and entry 3e+k is 1 exactly when the close at position i+k
    (k = 0, 1, 2) strictly exceeds that baseline.  With closes 0.2, 0.5,
    0.1, 0.9 at positions i-1 .. i+2 the labels are 1, 0, 1.  In
    [createSequences] the baseline is the close on the date at position i
    and the compared closes are those at i+1 .. i+outputLen; for a single
    entity with the same closes the labels of horizons 1 and 2 are 0, 1. *)
Theorem label_vector_layout :
  (forall rawData i e symbol k,
      0 <= i - 12 /\ i + 3 <= Z.of_nat (length (Loader.allDatesOf rawData)) - 1 ->
      Loader.symbolsOf rawData !! e = Some symbol ->
      (k < 3)%nat ->
      exists label,
        Loader.labelsOf rawData !! Z.to_nat (i - 12) = Some label /\
        length label = (length (Loader.symbolsOf rawData) * 3)%nat /\
        label !! (e * 3 + k)%nat =
          Some (if js_gt (Loader.valueAt (Loader.normalizedOf rawData) symbol
                                         Loader.Close (i + Z.of_nat k))
                         (Loader.valueAt (Loader.normalizedOf rawData) symbol
                                         Loader.Close (i - 1))
                then 1 else 0)) /\
  (forall pivot dates sym outputLen i,
      Sequences.labelsAt pivot dates [sym] outputLen i =
      map (fun off => if js_gt (Sequences.closeOn pivot (at_ dates (i + off)) sym)
                               (Sequences.closeOn pivot (at_ dates i) sym)
                      then 1 else 0)
          (forRangeIncl 1 outputLen)) /\
  Loader.labelsOf one_stock !! 0%nat = Some [1; 0; 1] /\
  Sequences.labelsAt four_pivot four_dates ["A"] 2 1 = [0; 1].
Proof.
  split; [|split; [|split]].
  - intros rawData i e symbol k Hi He Hk.
    eexists. split; [now apply labelsOf_lookup|].
    rewrite labelAt_runs. split.
    + now apply length_bind_block.
    + rewrite (bind_block_lookup _ 3 _ e k symbol) by easy.
      now apply loaderRun_lookup.
  - intros pivot dates sym outputLen i. rewrite labelsAt_runs.
    apply (bind_singleton (fun off => if js_gt _ _ then 1 else 0)).
  - vm_compute. reflexivity.
  - vm_compute. reflexivity.
Qed.

(** C1 as stated fails on [prepareData]: on seventeen days of one stock
    the first sample has loop position 12, the closes at positions 11 .. 14
    are 0.2, 0.5, 0.1, 0.9, and its labels are 1, 0, 1 (baseline 0.2 at
    position 11) where the stated rule (baseline 0.5 at position 12) gives
    0, 1 for horizons 1 and 2. *)
Lemma label_baseline_counterexample :
  Loader.anchors (length (Loader.allDatesOf one_stock)) = [12; 13] /\
  map (fun j => Loader.valueAt (Loader.normalizedOf one_stock) "A" Loader.Close j)
      [11; 12; 13; 14]
    = [Some (Fin (1 # 5)); Some (Fin (1 # 2)); Some (Fin (1 # 10)); Some (Fin (9 # 10))] /\
  Loader.labelsOf one_stock !! 0%nat = Some [1; 0; 1] /\
  spec_label (fun e j => Loader.valueAt (Loader.normalizedOf one_stock) e
                                      Loader.Close j)
             (Loader.symbolsOf one_stock) 12 3
    = [0; 1; 0] /\
  Loader.labelsOf one_stock !! 0%nat <>
    Some (spec_label (fun e j => Loader.valueAt (Loader.normalizedOf one_stock) e
                                             Loader.Close j)
                     (Loader.symbolsOf one_stock) 12 3) /\
  match Loader.prepareData one_stock with
  | Ok r => Loader.y_train r = [[1; 0; 1]] /\
            Loader.dateIndex r !! 0%nat = Some (Some "2024-01-13")
  | Throw _ => False
  end.
Proof.
  repeat split; try (vm_compute; reflexivity).
  vm_compute. discriminate.
Qed.

(** ** Normalisation *)

Lemma overflow_bound_pos : (1 < overflow_bound)%Q.
Proof. reflexivity. Qed.

(** An exact result below the overflow bound is kept. *)
Lemma rounded_finite (q : Q) :
  (- overflow_bound < q)%Q -> (q < overflow_bound)%Q -> rounded q = Fin (Qred q).
Proof.
  intros Hlo Hhi. unfold rounded.
  destruct (Qle_bool overflow_bound q) eqn:H1.
  { apply Qle_bool_iff in H1. exfalso. apply (Qlt_not_le _ _ Hhi H1). }
  destruct (Qle_bool q (- overflow_bound)) eqn:H2; [|reflexivity].
  apply Qle_bool_iff in H2. exfalso. apply (Qlt_not_le _ _ Hlo H2).
Qed.

Lemma rounded_unit (q : Q) :
  (0 <= q)%Q -> (q <= 1)%Q -> rounded q = Fin (Qred q).
Proof.
  intros H0 H1. pose proof overflow_bound_pos as Hb.
  apply rounded_finite.
  - apply Qlt_le_trans with 0%Q; [|exact H0].
    apply Qlt_trans with (- (1))%Q; [|reflexivity].
    now apply Qopp_lt_compat.
  - now apply Qle_lt_trans with 1%Q.
Qed.

Lemma norm_guarded (val min max : num) :
  Sequences.norm val min max =
  if num_eq max min then Fin 0 else num_div (num_sub val min) (num_sub max min).
Proof. reflexivity. Qed.

Lemma Qeq_bool_refl (q : Q) : Qeq_bool q q = true.
Proof. apply Qeq_bool_iff. reflexivity. Qed.

(** [norm] on a constant series: the guard answers 0. *)
Lemma norm_constant (val m : Q) : Sequences.norm (Fin val) (Fin m) (Fin m) = Fin 0.
Proof. unfold Sequences.norm. simpl. now rewrite Qeq_bool_refl. Qed.

Lemma Qle_bool_refl (q : Q) : Qle_bool q q = true.
Proof. apply Qle_bool_iff. apply Qle_refl. Qed.

Lemma Math_min_constant (c : Q) (values : list num) (start : num) :
  start = PInf \/ start = Fin c ->
  Forall (fun v => v = Fin c) values ->
  foldl num_min start values = start \/ foldl num_min start values = Fin c.
Proof.
  intros Hs Hall. revert start Hs.
  induction Hall as [|v values -> _ IH]; intros start Hs; [now left|].
  simpl. right.
  assert (Hstep : num_min start (Fin c) = Fin c).
  { destruct Hs as [->| ->]; [reflexivity|].
    simpl. now rewrite Qle_bool_refl. }
  rewrite Hstep. destruct (IH (Fin c)) as [H|H]; auto.
Qed.

Lemma Math_max_constant (c : Q) (values : list num) (start : num) :
  start = NInf \/ start = Fin c ->
  Forall (fun v => v = Fin c) values ->
  foldl num_max start values = start \/ foldl num_max start values = Fin c.
Proof.
  intros Hs Hall. revert start Hs.
  induction Hall as [|v values -> _ IH]; intros start Hs; [now left|].
  simpl. right.
  assert (Hstep : num_max start (Fin c) = Fin c).
  { destruct Hs as [->| ->]; [reflexivity|].
    simpl. now rewrite Qle_bool_refl. }
  rewrite Hstep. destruct (IH (Fin c)) as [H|H]; auto.
Qed.

(** The unguarded quotient of [prepareData] on a constant series: every
    value that is not a hole becomes 0/0. *)
Lemma normalizeColumn_constant (c : Q) (column : list cell) :
  Forall (fun x => x = Some (Fin c) \/ x = None) column ->
  Some (Fin c) ∈ column ->
  Loader.normalizeColumn column =
  map (fun x => match x with Some _ => NaN | None => Fin 0 end) column.
Proof.
  intros Hall Hin. unfold Loader.normalizeColumn.
  assert (Hvals : Forall (fun v => v = Fin c) (omap id column)).
  { apply Forall_forall. intros v Hv.
    apply list_elem_of_omap in Hv as (x & Hx & Hid).
    rewrite Forall_forall in Hall. destruct (Hall x Hx) as [->| ->];
      simpl in Hid; congruence. }
  assert (Hne : omap id column <> []).
  { intros Hnil. assert (Hc : Fin c ∈ omap id column).
    { apply list_elem_of_omap. now exists (Some (Fin c)). }
    rewrite Hnil in Hc. inversion Hc. }
  assert (Hmin : Math_min (omap id column) = Fin c).
  { unfold Math_min. destruct (omap id column) as [|v vs]; [easy|].
    inversion Hvals as [|? ? -> Hvs]; subst. simpl.
    destruct (Math_min_constant c vs (Fin c)) as [H|H]; auto. }
  assert (Hmax : Math_max (omap id column) = Fin c).
  { unfold Math_max. destruct (omap id column) as [|v vs]; [easy|].
    inversion Hvals as [|? ? -> Hvs]; subst. simpl.
    destruct (Math_max_constant c vs (Fin c)) as [H|H]; auto. }
  rewrite Hmin, Hmax. apply map_ext_in. intros x Hx.
  apply list_elem_of_In in Hx. rewrite Forall_forall in Hall.
  destruct (Hall x Hx) as [->| ->]; [|reflexivity].
  cbn [num_sub].
  assert (Hc : (c - c == 0)%Q) by ring.
  rewrite rounded_unit by (rewrite Hc; discriminate).
  cbn [num_div].
  assert (Hz : Qeq_bool (Qred (c - c)) 0 = true).
  { apply Qeq_bool_iff. now rewrite Qred_correct. }
  now rewrite Hz.
Qed.

(** C4 at the failing input.  On a close series that stays at 5 the
    guarded [norm] of one variant answers 0, while the unguarded quotient of
    [prepareData] makes every normalised close NaN (0/0), and the NaN
    reaches the training tensor. *)
Theorem constant_series_normalisation :
  Sequences.norm (Fin 5) (Fin 5) (Fin 5) = Fin 0 /\
  Loader.Close_ <$> (Loader.normalizedOf constant_close !! "A")
    = Some (replicate 17 NaN) /\
  match Loader.prepareData constant_close with
  | Ok r => Loader.X_train r !! 0%nat ≫= (fun sample => sample !! 0%nat)
            = Some [Some (Fin 1); Some NaN]
  | Throw _ => False
  end.
Proof.
  repeat split; vm_compute; reflexivity.
Qed.

(** ** Keyed writes of the evaluators *)

Lemma foldl_opt_writes {St V : Type} (step : St -> nat * string -> option St)
      (get : St -> string -> option V) (val : nat -> V)
      (ps : list (nat * string)) (st : St) :
  (forall st p, p ∈ ps ->
     exists st', step st p = Some st' /\
       forall key, get st' key =
                   if decide (key = p.2) then Some (val p.1) else get st key) ->
  exists st', foldl_opt step st ps = Some st' /\
    forall key, get st' key = last_write val ps key (get st key).
Proof.
  revert st. induction ps as [|p ps IH]; intros st Hstep.
  - exists st. split; reflexivity.
  - destruct (Hstep st p) as (st1 & Hst1 & Hget1); [left|].
    destruct (IH st1) as (st' & Hst' & Hget').
    { intros st0 q Hq. apply Hstep. now right. }
    exists st'. split.
    + simpl. now rewrite Hst1.
    + intros key. rewrite Hget'. unfold last_write. simpl.
      now rewrite Hget1.
Qed.

Lemma last_write_notin {V : Type} (val : nat -> V) (ps : list (nat * string))
      (key : string) (init : option V) :
  key ∉ map snd ps -> last_write val ps key init = init.
Proof.
  revert init. induction ps as [|p ps IH]; intros init Hnot; [reflexivity|].
  unfold last_write. simpl. destruct (decide (key = p.2)) as [->|Hne].
  - exfalso. apply Hnot. simpl. left.
  - apply IH. intros Hin. apply Hnot. simpl. now right.
Qed.

Lemma last_write_const {V : Type} (val : nat -> V) (c : V)
      (ps : list (nat * string)) (key : string) (init : option V) :
  (forall p, p ∈ ps -> val p.1 = c) ->
  init = Some c \/ key ∈ map snd ps ->
  last_write val ps key init = Some c.
Proof.
  revert init. induction ps as [|p ps IH]; intros init Hval Hk.
  - destruct Hk as [->|Hk]; [reflexivity|inversion Hk].
  - unfold last_write. simpl. apply IH.
    + intros q Hq. apply Hval. now right.
    + destruct (decide (key = p.2)) as [->|Hne].
      * left. f_equal. apply Hval. left.
      * destruct Hk as [->|Hk]; [now left|]. right.
        simpl in Hk. inversion Hk; subst; [contradiction|assumption].
Qed.

Lemma last_write_NoDup {V : Type} (val : nat -> V) (ps : list (nat * string))
      (i : nat) (key : string) (init : option V) :
  NoDup (map snd ps) -> (i, key) ∈ ps ->
  last_write val ps key init = Some (val i).
Proof.
  revert init. induction ps as [|p ps IH]; intros init Hnd Hin; [inversion Hin|].
  simpl in Hnd. apply NoDup_cons in Hnd as [Hnot Hnd].
  unfold last_write. simpl. inversion Hin as [? ? Heq|? ? ? Hin' Heq]; subst.
  - simpl. rewrite decide_True by reflexivity.
    now apply last_write_notin.
  - now apply IH.
Qed.

Lemma zip_seq_elem (symbols : list string) (a idx : nat) (sym : string) :
  symbols !! idx = Some sym ->
  ((a + idx)%nat, sym) ∈ zip (seq a (length symbols)) symbols.
Proof.
  revert a idx. induction symbols as [|x symbols IH]; intros a idx Hidx; [easy|].
  destruct idx as [|idx]; simpl in Hidx.
  - injection Hidx as ->. rewrite Nat.add_0_r. left.
  - simpl. right. replace (a + S idx)%nat with (S a + idx)%nat by lia.
    now apply IH.
Qed.

Lemma zip_seq_keys (symbols : list string) (a : nat) :
  map snd (zip (seq a (length symbols)) symbols) = symbols.
Proof.
  revert a. induction symbols as [|x symbols IH]; intros a; [reflexivity|].
  simpl. now rewrite IH.
Qed.

(** ** Evaluation with no sample *)

Lemma evaluatePerStock_empty (symbols : list string) (horizon : nat) :
  exists ev, Gru.evaluatePerStock [] [] symbols horizon = Some ev /\
    (forall key, Gru.stockAccuracies ev !! key =
       last_write (fun _ => NaN) (zip (seq 0 (length symbols)) symbols) key None) /\
    (forall key, Gru.stockPredictions ev !! key =
       last_write (fun _ => []) (zip (seq 0 (length symbols)) symbols) key None).
Proof.
  unfold Gru.evaluatePerStock.
  set (step := fun ev p => match Gru.stockLoop [] [] p.1 horizon with
                           | Some (c, t, ps) => _ | None => None end).
  set (ps := zip _ _).
  destruct (foldl_opt_writes step (fun ev key => Gru.stockAccuracies ev !! key)
              (fun _ => NaN) ps {| Gru.stockAccuracies := ∅; Gru.stockPredictions := ∅ |})
    as (ev & Hev & Hacc).
  { intros st p _. eexists. split; [reflexivity|]. intros key. simpl.
    change (num_div (ofNat 0) (ofNat 0)) with NaN.
    rewrite lookup_insert. destruct (decide (p.2 = key)), (decide (key = p.2));
      congruence. }
  destruct (foldl_opt_writes step (fun ev key => Gru.stockPredictions ev !! key)
              (fun _ => []) ps {| Gru.stockAccuracies := ∅; Gru.stockPredictions := ∅ |})
    as (ev' & Hev' & Hpreds).
  { intros st p _. eexists. split; [reflexivity|]. intros key. simpl.
    rewrite lookup_insert. destruct (decide (p.2 = key)), (decide (key = p.2));
      congruence. }
  assert (ev' = ev) as -> by congruence.
  exists ev. repeat split; [exact Hev|..].
  - intros key. now rewrite Hacc.
  - intros key. now rewrite Hpreds.
Qed.

Lemma computePerStockAccuracy_empty (symbols : list string) (predictionDays : nat) :
  exists acc, Model.computePerStockAccuracy [] [] symbols predictionDays = Some acc /\
    forall key, acc !! key =
      last_write (fun _ => NaN) (zip (seq 0 (length symbols)) symbols) key None.
Proof.
  unfold Model.computePerStockAccuracy.
  set (step := fun acc p => match Model.stockLoop [] [] p.1 predictionDays with
                            | Some (c, t) => _ | None => None end).
  set (ps := zip _ _).
  destruct (foldl_opt_writes step (fun (acc : gmap string num) key => acc !! key)
              (fun _ => NaN) ps ∅) as (acc & Hacc & Hget).
  { intros st p _. eexists. split; [reflexivity|]. intros key. simpl.
    change (num_div (ofNat 0) (ofNat 0)) with NaN.
    rewrite lookup_insert. destruct (decide (p.2 = key)), (decide (key = p.2));
      congruence. }
  exists acc. split; [exact Hacc|]. intros key. now rewrite Hget.
Qed.

(** C8, as the code has it.  Called with no sample, the Evaluation
    Aggregator raises nothing: it returns normally, and the accuracy it
    reports for every entity is 0/0, that is NaN (with an empty list of
    prediction records). *)
Theorem empty_evaluation_is_NaN (symbols : list string) (horizon : nat) (sym : string) :
  sym ∈ symbols ->
  (exists ev, Gru.evaluatePerStock [] [] symbols horizon = Some ev /\
              Gru.stockAccuracies ev !! sym = Some NaN /\
              Gru.stockPredictions ev !! sym = Some []) /\
  (exists acc, Model.computePerStockAccuracy [] [] symbols horizon = Some acc /\
               acc !! sym = Some NaN).
Proof.
  intros Hsym. split.
  - destruct (evaluatePerStock_empty symbols horizon) as (ev & Hev & Hacc & Hpreds).
    exists ev. split; [exact Hev|]. rewrite Hacc, Hpreds.
    split; apply last_write_const; try (intros; reflexivity);
      right; now rewrite zip_seq_keys.
  - destruct (computePerStockAccuracy_empty symbols horizon) as (acc & Hacc & Hget).
    exists acc. split; [exact Hacc|]. rewrite Hget.
    apply last_write_const; [intros; reflexivity|].
    right. now rewrite zip_seq_keys.
Qed.

Lemma empty_evaluation_is_NaN_witness :
  "A" ∈ ["A"] /\
  (exists ev, Gru.evaluatePerStock [] [] ["A"] 3 = Some ev /\
              Gru.stockAccuracies ev !! "A" = Some NaN /\
              Gru.stockPredictions ev !! "A" = Some []) /\
  (exists acc, Model.computePerStockAccuracy [] [] ["A"] 3 = Some acc /\
               acc !! "A" = Some NaN).
Proof.
  assert (H : "A" ∈ ["A"]) by (apply list_elem_of_here).
  split; [exact H|]. exact (empty_evaluation_is_NaN ["A"] 3 "A" H).
Defined.

(** C8 as stated fails: with empty prediction and label matrices both
    evaluators return a value, an accuracy map whose entry is NaN, and no
    error of any kind is raised. *)
Lemma empty_evaluation_counterexample :
  Gru.evaluatePerStock [] [] ["A"] 3 <> None /\
  Gru.stockAccuracies <$> Gru.evaluatePerStock [] [] ["A"] 3 = Some {["A" := NaN]} /\
  Model.computePerStockAccuracy [] [] ["A"] 3 = Some {["A" := NaN]}.
Proof.
  repeat split; try (vm_compute; reflexivity). vm_compute. discriminate.
Qed.

(** ** Per-entity accuracy *)

Lemma length_block (n horizon idx : nat) :
  length (block n horizon idx) = (n * horizon)%nat.
Proof.
  unfold block. rewrite (length_bind_block _ horizon).
  - now rewrite length_seq.
  - intros s. now rewrite length_map, length_seq.
Qed.

Lemma above_half_threshold (p : Q) :
  (above_half (Some (Fin p)) = ofZ 1 <-> (1 # 2 < p)%Q) /\
  (above_half (Some (Fin p)) = ofZ 0 <-> (p <= 1 # 2)%Q).
Proof.
  unfold above_half, js_gt, num_gt.
  destruct (Qle_bool p (5 # 10)) eqn:Hle; simpl.
  - apply Qle_bool_iff in Hle. unfold Qle in Hle. simpl in Hle.
    split; (split; [intros H|intros H]); try discriminate; try reflexivity.
    + unfold Qlt in H. simpl in H. lia.
    + unfold Qle. simpl. lia.
  - assert (Hgt : ~ (p <= 5 # 10)%Q).
    { intros H. apply Qle_bool_iff in H. congruence. }
    unfold Qle in Hgt. simpl in Hgt.
    split; (split; [intros H|intros H]); try discriminate; try reflexivity.
    + unfold Qlt. simpl. lia.
    + unfold Qle in H. simpl in H. lia.
Qed.

Lemma gru_visit_days (yTrue yPred : list (list num)) (idx horizon s : nat)
      (rowTrue rowPred : list num) (days : list nat)
      (c t : nat) (ps : list Gru.Pred) :
  yTrue !! s = Some rowTrue -> yPred !! s = Some rowPred ->
  let cells := map (fun day => (s, (idx * horizon + day)%nat)) days in
  foldl_opt (Gru.visit yTrue yPred idx horizon s) (c, t, ps) days =
  Some ((c + length (List.filter (hit yTrue yPred) cells))%nat,
        (t + length cells)%nat,
        ps ++ map (gruRecord yTrue yPred) cells).
Proof.
  intros HT HP. revert c t ps. induction days as [|d days IH]; intros c t ps.
  - simpl. now rewrite !Nat.add_0_r, app_nil_r.
  - simpl. rewrite HT, HP. rewrite IH. simpl.
    assert (Hhit : hit yTrue yPred (s, (idx * horizon + d)%nat) =
                   strict_eq (rowTrue !! (idx * horizon + d)%nat)
                             (above_half (rowPred !! (idx * horizon + d)%nat))).
    { unfold hit, cellAt. simpl. now rewrite HT, HP. }
    assert (Hrec : gruRecord yTrue yPred (s, (idx * horizon + d)%nat) =
                   {| Gru.true_ := rowTrue !! (idx * horizon + d)%nat;
                      Gru.pred := above_half (rowPred !! (idx * horizon + d)%nat);
                      Gru.correct := strict_eq (rowTrue !! (idx * horizon + d)%nat)
                                       (above_half (rowPred !! (idx * horizon + d)%nat)) |}).
    { unfold gruRecord. rewrite Hhit. unfold cellAt. simpl. now rewrite HT, HP. }
    rewrite Hhit, Hrec, <- app_assoc. simpl.
    destruct (strict_eq _ _); simpl; do 2 f_equal; f_equal; lia.
Qed.

Lemma gru_visit_samples (yTrue yPred : list (list num)) (idx horizon : nat)
      (ss : list nat) (c t : nat) (ps : list Gru.Pred) :
  (forall s, s ∈ ss -> is_Some (yTrue !! s) /\ is_Some (yPred !! s)) ->
  let cells := ss ≫= fun s =>
                 map (fun day => (s, (idx * horizon + day)%nat)) (seq 0 horizon) in
  foldl_opt (fun st s => foldl_opt (Gru.visit yTrue yPred idx horizon s) st
                                   (seq 0 horizon)) (c, t, ps) ss =
  Some ((c + length (List.filter (hit yTrue yPred) cells))%nat,
        (t + length cells)%nat,
        ps ++ map (gruRecord yTrue yPred) cells).
Proof.
  revert c t ps. induction ss as [|s ss IH]; intros c t ps Hrows.
  - simpl. now rewrite !Nat.add_0_r, app_nil_r.
  - destruct (Hrows s) as [[rowTrue HT] [rowPred HP]]; [left|].
    cbv zeta. simpl foldl_opt.
    rewrite (gru_visit_days _ _ _ _ _ rowTrue rowPred) by assumption.
    cbv zeta. rewrite IH by (intros s' Hs'; apply Hrows; now right).
    cbv zeta.
    change ((s :: ss) ≫= ?g) with (g s ++ (ss ≫= g)).
    rewrite List.filter_app, !length_app, map_app, <- app_assoc.
    do 2 f_equal; f_equal; lia.
Qed.

Lemma gru_stockLoop (yTrue yPred : list (list num)) (idx horizon : nat) :
  (length yTrue <= length yPred)%nat ->
  Gru.stockLoop yTrue yPred idx horizon =
  Some (length (List.filter (hit yTrue yPred) (block (length yTrue) horizon idx)),
        length (block (length yTrue) horizon idx),
        map (gruRecord yTrue yPred) (block (length yTrue) horizon idx)).
Proof.
  intros Hlen. unfold Gru.stockLoop. rewrite gru_visit_samples.
  - reflexivity.
  - intros s Hs. apply list_elem_of_In, in_seq in Hs.
    split; apply lookup_lt_is_Some; lia.
Qed.

Lemma model_visit_days (predData trueData : list (list num)) (idx days_ s : nat)
      (rowPred rowTrue : list num) (days : list nat) (c t : nat) :
  predData !! s = Some rowPred -> trueData !! s = Some rowTrue ->
  let cells := map (fun day => (s, (idx * days_ + day)%nat)) days in
  foldl_opt (Model.visit predData trueData idx days_ s) (c, t) days =
  Some ((c + length (List.filter (hit trueData predData) cells))%nat,
        (t + length cells)%nat).
Proof.
  intros HP HT. revert c t. induction days as [|d days IH]; intros c t.
  - simpl. now rewrite !Nat.add_0_r.
  - simpl. unfold Model.visit at 1. rewrite HP, HT. rewrite IH. simpl.
    assert (Hhit : hit trueData predData (s, (idx * days_ + d)%nat) =
                   strict_eq (rowTrue !! (idx * days_ + d)%nat)
                             (above_half (rowPred !! (idx * days_ + d)%nat))).
    { unfold hit, cellAt. simpl. now rewrite HT, HP. }
    rewrite Hhit.
    destruct (strict_eq _ _); simpl; f_equal; f_equal; lia.
Qed.

Lemma model_visit_samples (predData trueData : list (list num)) (idx days_ : nat)
      (ss : list nat) (c t : nat) :
  (forall s, s ∈ ss -> is_Some (predData !! s) /\ is_Some (trueData !! s)) ->
  let cells := ss ≫= fun s =>
                 map (fun day => (s, (idx * days_ + day)%nat)) (seq 0 days_) in
  foldl_opt (fun st s => foldl_opt (Model.visit predData trueData idx days_ s) st
                                   (seq 0 days_)) (c, t) ss =
  Some ((c + length (List.filter (hit trueData predData) cells))%nat,
        (t + length cells)%nat).
Proof.
  revert c t. induction ss as [|s ss IH]; intros c t Hrows.
  - simpl. now rewrite !Nat.add_0_r.
  - destruct (Hrows s) as [[rowPred HP] [rowTrue HT]]; [left|].
    cbv zeta. simpl foldl_opt.
    rewrite (model_visit_days _ _ _ _ _ rowPred rowTrue) by assumption.
    cbv zeta. rewrite IH by (intros s' Hs'; apply Hrows; now right).
    cbv zeta.
    change ((s :: ss) ≫= ?g) with (g s ++ (ss ≫= g)).
    rewrite List.filter_app, !length_app.
    f_equal; f_equal; lia.
Qed.

Lemma model_stockLoop (predData trueData : list (list num)) (idx days_ : nat) :
  (length predData <= length trueData)%nat ->
  Model.stockLoop predData trueData idx days_ =
  Some (length (List.filter (hit trueData predData) (block (length predData) days_ idx)),
        length (block (length predData) days_ idx)).
Proof.
  intros Hlen. unfold Model.stockLoop. rewrite model_visit_samples.
  - reflexivity.
  - intros s Hs. apply list_elem_of_In, in_seq in Hs.
    split; apply lookup_lt_is_Some; lia.
Qed.

Lemma evaluatePerStock_accuracy (yTrue yPred : list (list num))
      (symbols : list string) (horizon idx : nat) (sym : string) :
  (length yTrue <= length yPred)%nat -> NoDup symbols ->
  symbols !! idx = Some sym ->
  exists ev, Gru.evaluatePerStock yTrue yPred symbols horizon = Some ev /\
    Gru.stockAccuracies ev !! sym =
      Some (spec_accuracy yTrue yPred (length yTrue) horizon idx) /\
    Gru.stockPredictions ev !! sym =
      Some (map (gruRecord yTrue yPred) (block (length yTrue) horizon idx)).
Proof.
  intros Hlen Hnd Hidx. unfold Gru.evaluatePerStock.
  set (step := fun ev p => match Gru.stockLoop yTrue yPred p.1 horizon with
                           | Some (c, t, ps) => _ | None => None end).
  set (ps := zip _ _).
  set (ev0 := {| Gru.stockAccuracies := ∅; Gru.stockPredictions := ∅ |}).
  assert (Hkeys : NoDup (map snd ps)) by (subst ps; now rewrite zip_seq_keys).
  assert (Hin : (idx, sym) ∈ ps) by (apply (zip_seq_elem symbols 0 idx sym Hidx)).
  destruct (foldl_opt_writes step (fun ev key => Gru.stockAccuracies ev !! key)
              (fun i => spec_accuracy yTrue yPred (length yTrue) horizon i) ps ev0)
    as (ev & Hev & Hacc).
  { intros st p _. subst step. cbv beta. rewrite gru_stockLoop by exact Hlen.
    eexists. split; [reflexivity|]. intros key. simpl.
    rewrite lookup_insert. unfold spec_accuracy.
    destruct (decide (p.2 = key)), (decide (key = p.2));
      first [congruence | reflexivity]. }
  destruct (foldl_opt_writes step (fun ev key => Gru.stockPredictions ev !! key)
              (fun i => map (gruRecord yTrue yPred) (block (length yTrue) horizon i))
              ps ev0) as (ev' & Hev' & Hpreds).
  { intros st p _. subst step. cbv beta. rewrite gru_stockLoop by exact Hlen.
    eexists. split; [reflexivity|]. intros key. simpl.
    rewrite lookup_insert.
    destruct (decide (p.2 = key)), (decide (key = p.2));
      first [congruence | reflexivity]. }
  assert (ev' = ev) as -> by congruence.
  exists ev. split; [exact Hev|]. rewrite Hacc, Hpreds.
  split.
  - now apply (last_write_NoDup
                 (fun i => spec_accuracy yTrue yPred (length yTrue) horizon i)).
  - now apply (last_write_NoDup
                 (fun i => map (gruRecord yTrue yPred)
                               (block (length yTrue) horizon i))).
Qed.

Lemma computePerStockAccuracy_accuracy (predData trueData : list (list num))
      (symbols : list string) (predictionDays idx : nat) (sym : string) :
  (length predData <= length trueData)%nat -> NoDup symbols ->
  symbols !! idx = Some sym ->
  exists acc,
    Model.computePerStockAccuracy predData trueData symbols predictionDays = Some acc /\
    acc !! sym =
      Some (spec_accuracy trueData predData (length predData) predictionDays idx).
Proof.
  intros Hlen Hnd Hidx. unfold Model.computePerStockAccuracy.
  set (step := fun acc p => match Model.stockLoop predData trueData p.1 predictionDays with
                            | Some (c, t) => _ | None => None end).
  set (ps := zip _ _).
  assert (Hkeys : NoDup (map snd ps)) by (subst ps; now rewrite zip_seq_keys).
  assert (Hin : (idx, sym) ∈ ps) by (apply (zip_seq_elem symbols 0 idx sym Hidx)).
  destruct (foldl_opt_writes step (fun (acc : gmap string num) key => acc !! key)
              (fun i => spec_accuracy trueData predData (length predData) predictionDays i)
              ps ∅) as (acc & Hacc & Hget).
  { intros st p _. subst step. cbv beta. rewrite model_stockLoop by exact Hlen.
    eexists. split; [reflexivity|]. intros key. simpl.
    rewrite lookup_insert. unfold spec_accuracy.
    destruct (decide (p.2 = key)), (decide (key = p.2));
      first [congruence | reflexivity]. }
  exists acc. split; [exact Hacc|]. rewrite Hget.
  now apply (last_write_NoDup
               (fun i => spec_accuracy trueData predData (length predData)
                                       predictionDays i)).
Qed.

(** C7.  The Evaluation Aggregator turns a predicted probability into class
    1 exactly when it is strictly greater than 0.5 (so 0.5 itself gives
    class 0); for the entity at position idx it reports
    correct_count / total_count over the cells
    (sample, idx * horizon_length + day) of all samples and horizon days.
    For one sample, one entity, horizon 2, predictions 0.9, 0.4 and labels
    1, 1 the accuracy is 0.5 and the records are
    (predicted 1, actual 1, correct) and (predicted 0, actual 1, wrong). *)
Theorem evaluation_aggregator :
  (forall p : Q,
      (above_half (Some (Fin p)) = ofZ 1 <-> (1 # 2 < p)%Q) /\
      (above_half (Some (Fin p)) = ofZ 0 <-> (p <= 1 # 2)%Q)) /\
  above_half (Some (Fin (5 # 10))) = ofZ 0 /\
  (forall yTrue yPred symbols horizon idx sym,
      (length yTrue <= length yPred)%nat -> NoDup symbols ->
      symbols !! idx = Some sym ->
      length (block (length yTrue) horizon idx) = (length yTrue * horizon)%nat /\
      exists ev, Gru.evaluatePerStock yTrue yPred symbols horizon = Some ev /\
        Gru.stockAccuracies ev !! sym =
          Some (spec_accuracy yTrue yPred (length yTrue) horizon idx) /\
        Gru.stockPredictions ev !! sym =
          Some (map (gruRecord yTrue yPred) (block (length yTrue) horizon idx))) /\
  (forall predData trueData symbols predictionDays idx sym,
      (length predData <= length trueData)%nat -> NoDup symbols ->
      symbols !! idx = Some sym ->
      exists acc,
        Model.computePerStockAccuracy predData trueData symbols predictionDays
          = Some acc /\
        acc !! sym =
          Some (spec_accuracy trueData predData (length predData) predictionDays idx)) /\
  (Gru.evaluatePerStock example_true example_pred ["A"] 2 ≫= fun ev =>
     Some (Gru.stockAccuracies ev !! "A", Gru.stockPredictions ev !! "A"))
    = Some (Some (Fin (1 # 2)),
            Some [{| Gru.true_ := Some (Fin 1); Gru.pred := Fin 1; Gru.correct := true |};
                  {| Gru.true_ := Some (Fin 1); Gru.pred := Fin 0; Gru.correct := false |}]) /\
  (Model.computePerStockAccuracy example_pred example_true ["A"] 2 ≫= fun acc =>
     acc !! "A") = Some (Fin (1 # 2)) /\
  (Model.getPredictionTimeline example_pred example_true ["A"] 2 ≫= fun timeline =>
     timeline !! "A")
    = Some [[{| Model.predicted := Fin 1; Model.actual := Some (Fin 1);
                Model.correct := true |};
             {| Model.predicted := Fin 0; Model.actual := Some (Fin 1);
                Model.correct := false |}]].
Proof.
  split; [exact above_half_threshold|].
  split; [reflexivity|].
  split; [|split; [exact computePerStockAccuracy_accuracy|]].
  - intros yTrue yPred symbols horizon idx sym Hlen Hnd Hidx.
    split; [apply length_block|now apply evaluatePerStock_accuracy].
  - repeat split; vm_compute; reflexivity.
Qed.

Lemma evaluation_aggregator_witness :
  exists ev, Gru.evaluatePerStock example_true example_pred ["A"] 2 = Some ev /\
    Gru.stockAccuracies ev !! "A" =
      Some (spec_accuracy example_true example_pred 1 2 0) /\
    spec_accuracy example_true example_pred 1 2 0 = Fin (1 # 2).
Proof.
  destruct evaluation_aggregator as (_ & _ & H & _).
  destruct (H example_true example_pred ["A"] 2%nat 0%nat "A")
    as (_ & ev & Hev & Hacc & _).
  - simpl. lia.
  - apply NoDup_singleton.
  - reflexivity.
  - exists ev. split; [exact Hev|]. split; [exact Hacc|]. reflexivity.
Defined.

(** ** The entity set *)

Lemma elem_of_uniq_from (seen xs : list string) (x : string) :
  x ∈ uniq_from seen xs <-> x ∈ xs /\ x ∉ seen.
Proof.
  revert seen. induction xs as [|y xs IH]; intros seen; simpl.
  - split; [intros H; inversion H|intros [H _]; inversion H].
  - destruct (bool_decide (y ∈ seen)) eqn:Hy.
    + apply bool_decide_eq_true in Hy. rewrite IH. split.
      * intros [Hx Hs]. split; [now right|exact Hs].
      * intros [Hx Hs]. split; [|exact Hs].
        inversion Hx; subst; [contradiction|assumption].
    + apply bool_decide_eq_false in Hy. rewrite elem_of_cons, IH. split.
      * intros [->|[Hx Hs]]; [split; [left|exact Hy]|].
        split; [now right|]. intros H. apply Hs. now right.
      * intros [Hx Hs]. destruct (decide (x = y)) as [->|Hne]; [now left|].
        right. split.
        -- inversion Hx; subst; [contradiction|assumption].
        -- intros H. inversion H; subst; contradiction.
Qed.

Lemma NoDup_uniq_from (seen xs : list string) : NoDup (uniq_from seen xs).
Proof.
  revert seen. induction xs as [|y xs IH]; intros seen; simpl; [constructor|].
  destruct (bool_decide (y ∈ seen)); [apply IH|].
  apply NoDup_cons. split; [|apply IH].
  rewrite elem_of_uniq_from. intros [_ H]. apply H. left.
Qed.

Lemma uniq_from_snoc_old (seen xs : list string) (x : string) :
  x ∈ seen \/ x ∈ xs -> uniq_from seen (xs ++ [x]) = uniq_from seen xs.
Proof.
  revert seen. induction xs as [|y xs IH]; intros seen Hx; simpl.
  - destruct Hx as [Hx|Hx]; [|inversion Hx].
    now rewrite bool_decide_eq_true_2.
  - destruct (bool_decide (y ∈ seen)) eqn:Hy.
    + apply bool_decide_eq_true in Hy. apply IH.
      destruct Hx as [Hx|Hx]; [now left|].
      inversion Hx; subst; [now left|now right].
    + f_equal. apply IH. destruct Hx as [Hx|Hx]; [left; now right|].
      inversion Hx; subst; [left; left|now right].
Qed.

Lemma uniq_from_snoc_new (seen xs : list string) (x : string) :
  x ∉ seen -> x ∉ xs -> uniq_from seen (xs ++ [x]) = uniq_from seen xs ++ [x].
Proof.
  revert seen. induction xs as [|y xs IH]; intros seen Hs Hx; simpl.
  - now rewrite bool_decide_eq_false_2.
  - assert (Hne : x <> y) by (intros ->; apply Hx; left).
    assert (Hx' : x ∉ xs) by (intros H; apply Hx; now right).
    destruct (bool_decide (y ∈ seen)); [now apply IH|].
    simpl. f_equal. apply IH; [|exact Hx'].
    intros H. inversion H; subst; contradiction.
Qed.

Lemma insert_sorted_perm (x : string) (l : list string) :
  Permutation (insert_sorted x l) (x :: l).
Proof.
  induction l as [|y l IH]; simpl; [reflexivity|].
  destruct (String.leb x y); [reflexivity|].
  rewrite IH. apply perm_swap.
Qed.

Lemma sort_perm (l : list string) : Permutation (sort l) l.
Proof.
  induction l as [|x l IH]; simpl; [reflexivity|].
  rewrite insert_sorted_perm. now constructor.
Qed.

Lemma insert_sorted_ascending (x : string) (l : list string) :
  ascending l -> ascending (insert_sorted x l).
Proof.
  unfold ascending. induction l as [|y l IH]; intros Hl; simpl.
  - repeat constructor.
  - destruct (String.leb x y) eqn:Hxy.
    + constructor; [exact Hl|]. now constructor.
    + assert (Hyx : String.leb y x = true).
      { destruct (String.leb_total x y) as [H|H]; [congruence|exact H]. }
      inversion Hl as [|? ? Hl' Hhd]; subst.
      constructor; [now apply IH|].
      destruct l as [|z l]; simpl.
      * now constructor.
      * destruct (String.leb x z); constructor; [exact Hyx|].
        now inversion Hhd.
Qed.

Lemma sort_ascending (l : list string) : ascending (sort l).
Proof.
  induction l as [|x l IH]; simpl; [constructor|].
  now apply insert_sorted_ascending.
Qed.

Lemma addLine_symbols (lines : list Sequences.Line)
      (st : gmap string (gmap string Sequences.Quote) * gset string) (s : string) :
  s ∈ (foldl Sequences.addLine st lines).2 <->
  s ∈ st.2 \/ exists l, l ∈ lines /\ Sequences.symbol l = s.
Proof.
  revert st. induction lines as [|l lines IH]; intros st; simpl.
  - split; [now left|]. intros [H|(l & Hl & _)]; [exact H|inversion Hl].
  - rewrite IH. unfold Sequences.addLine. cbn [snd].
    rewrite elem_of_union, elem_of_singleton. split.
    + intros [[->|H]|(l' & Hl' & Hs)].
      * right. exists l. split; [left|reflexivity].
      * now left.
      * right. exists l'. split; [now right|exact Hs].
    + intros [H|(l' & Hl' & Hs)]; [left; now right|].
      inversion Hl'; subst; [left; now left|].
      right. now exists l'.
Qed.

Lemma timeStepAt_runs (normalizedData : gmap string (Loader.Series num))
      (symbols : list string) (j : Z) :
  Loader.timeStepAt normalizedData symbols j =
  symbols ≫= fun symbol => [Loader.valueAt normalizedData symbol Loader.Open j;
                            Loader.valueAt normalizedData symbol Loader.Close j].
Proof. unfold Loader.timeStepAt. now rewrite foldl_push. Qed.

(** C9, as the code has it.  The Entity Set is the deduplicated sequence of
    the identifiers of the rows: [prepareData] keeps them in the order in
    which they first occur (a new identifier goes to the end, a known one
    changes nothing), [parseAndPivot] sorts them ascending.  That sequence
    is returned unchanged, and it is the column order of every time step of
    an input tensor and of every label vector of [prepareData]. *)
Theorem entity_set_order :
  (forall rawData : list Loader.Row,
      NoDup (Loader.symbolsOf rawData) /\
      (forall s, s ∈ Loader.symbolsOf rawData <->
                 exists row, row ∈ rawData /\ Loader.Symbol row = s) /\
      (forall row,
          (Loader.Symbol row ∈ Loader.symbolsOf rawData ->
           Loader.symbolsOf (rawData ++ [row]) = Loader.symbolsOf rawData) /\
          (Loader.Symbol row ∉ Loader.symbolsOf rawData ->
           Loader.symbolsOf (rawData ++ [row]) =
           Loader.symbolsOf rawData ++ [Loader.Symbol row])) /\
      (forall r, Loader.prepareData rawData = Ok r ->
                 Loader.symbols r = Loader.symbolsOf rawData)) /\
  (forall lines p,
      Sequences.parseAndPivot lines = Ok p ->
      ascending (Sequences.symbols p) /\
      NoDup (Sequences.symbols p) /\
      (forall s, s ∈ Sequences.symbols p <->
                 exists l, l ∈ lines /\ Sequences.symbol l = s)) /\
  (forall normalizedData symbols j i e symbol,
      symbols !! e = Some symbol ->
      Loader.timeStepAt normalizedData symbols j !! (e * 2)%nat =
        Some (Loader.valueAt normalizedData symbol Loader.Open j) /\
      Loader.timeStepAt normalizedData symbols j !! (e * 2 + 1)%nat =
        Some (Loader.valueAt normalizedData symbol Loader.Close j) /\
      forall k, (k < 3)%nat ->
        Loader.labelAt normalizedData symbols i !! (e * 3 + k)%nat =
        loaderRun normalizedData i symbol !! k).
Proof.
  split; [|split].
  - intros rawData. unfold Loader.symbolsOf, uniq. repeat split.
    + apply NoDup_uniq_from.
    + intros Hs. apply elem_of_uniq_from in Hs as [Hs _].
      apply list_elem_of_In, in_map_iff in Hs as (row & <- & Hrow).
      exists row. split; [now apply list_elem_of_In|reflexivity].
    + intros (row & Hrow & <-). apply elem_of_uniq_from. split.
      * apply list_elem_of_In, in_map. now apply list_elem_of_In.
      * intros H. inversion H.
    + intros Hs. rewrite map_app. simpl. apply uniq_from_snoc_old.
      right. now apply elem_of_uniq_from in Hs as [Hs _].
    + intros Hs. rewrite map_app. simpl. apply uniq_from_snoc_new.
      * intros H. inversion H.
      * intros H. apply Hs. apply elem_of_uniq_from. split; [exact H|].
        intros H'. inversion H'.
    + intros r Hr. now apply prepareData_Ok in Hr as ->.
  - intros lines p Hp. unfold Sequences.parseAndPivot in Hp.
    destruct lines as [|l lines]; [discriminate|]. injection Hp as <-.
    cbn [Sequences.symbols]. repeat split.
    + apply sort_ascending.
    + rewrite sort_perm. apply NoDup_elements.
    + intros Hs. rewrite sort_perm in Hs. apply elem_of_elements in Hs.
      apply (addLine_symbols (l :: lines) (∅, ∅)) in Hs as [Hs|Hs]; [|exact Hs].
      cbn in Hs. now apply elem_of_empty in Hs.
    + intros Hs. rewrite sort_perm. apply elem_of_elements.
      apply (addLine_symbols (l :: lines) (∅, ∅)). now right.
  - intros normalizedData symbols j i e symbol He. repeat split.
    + rewrite timeStepAt_runs.
      replace (e * 2)%nat with (e * 2 + 0)%nat by lia.
      now rewrite (bind_block_lookup _ 2 _ e 0 symbol) by (auto; lia).
    + rewrite timeStepAt_runs.
      now rewrite (bind_block_lookup _ 2 _ e 1 symbol) by (auto; lia).
    + intros k Hk. rewrite labelAt_runs.
      now rewrite (bind_block_lookup _ 3 _ e k symbol) by easy.
Qed.

(** C9 as stated fails on [prepareData]: rows that mention B before A give
    the entity sequence B, A, which is not ascending (while [parseAndPivot]
    on lines in that order gives A, B). *)
Lemma entity_set_counterexample :
  Loader.symbolsOf b_before_a = ["B"; "A"] /\
  ~ ascending (Loader.symbolsOf b_before_a) /\
  match Loader.prepareData b_before_a with
  | Ok r => Loader.symbols r = ["B"; "A"]
  | Throw _ => False
  end /\
  match Sequences.parseAndPivot b_before_a_lines with
  | Ok p => Sequences.symbols p = ["A"; "B"]
  | Throw _ => False
  end.
Proof.
  assert (Hsym : Loader.symbolsOf b_before_a = ["B"; "A"]) by (vm_compute; reflexivity).
  split; [exact Hsym|]. split; [|split; vm_compute; reflexivity].
  intros H. rewrite Hsym in H.
  inversion H as [|? ? _ Hhd]; subst. inversion Hhd as [|? ? Hle]; subst.
  vm_compute in Hle. discriminate.
Qed.

(** ** Holes after the forward fill *)

Lemma fillGaps_lookup (symbols : list string)
      (pivotedData : gmap string (Loader.Series cell)) (key : string) :
  NoDup symbols -> key ∈ symbols ->
  Loader.fillGaps symbols pivotedData !! key =
  (fun s => Loader.perField (fun f => Loader.forwardFill None (Loader.col s f)))
    <$> pivotedData !! key.
Proof.
  unfold Loader.fillGaps. revert pivotedData.
  induction symbols as [|x symbols IH]; intros pivotedData Hnd Hin; [inversion Hin|].
  apply NoDup_cons in Hnd as [Hx Hnd]. simpl.
  destruct (decide (key = x)) as [->|Hne].
  - clear IH Hin.
    assert (Hkeep : forall p : gmap string (Loader.Series cell),
              foldl (fun p symbol =>
                alter (fun s => Loader.perField
                                  (fun f => Loader.forwardFill None (Loader.col s f)))
                      symbol p) p symbols !! x
              = p !! x).
    { clear Hnd. induction symbols as [|y symbols IH]; intros p; [reflexivity|].
      simpl. rewrite IH.
      - apply lookup_alter_ne. intros ->. apply Hx. left.
      - intros H. apply Hx. now right. }
    rewrite Hkeep. apply lookup_alter_eq.
  - rewrite IH; [|exact Hnd|].
    + now rewrite lookup_alter_ne by congruence.
    + inversion Hin; subst; [contradiction|assumption].
Qed.

Lemma normalize_fold_lookup (symbols : list string)
      (pivotedData : gmap string (Loader.Series cell))
      (acc : gmap string (Loader.Series num)) (key : string) :
  key ∈ symbols ->
  foldl (fun normalizedData symbol =>
           match pivotedData !! symbol with
           | Some s =>
               <[symbol := Loader.perField
                             (fun f => Loader.normalizeColumn (Loader.col s f))]>
                 normalizedData
           | None => normalizedData
           end) acc symbols !! key =
  match pivotedData !! key with
  | Some s => Some (Loader.perField
                      (fun f => Loader.normalizeColumn (Loader.col s f)))
  | None => acc !! key
  end.
Proof.
  revert acc. induction symbols as [|x symbols IH]; intros acc Hin; [inversion Hin|].
  simpl. destruct (decide (key ∈ symbols)) as [Hk|Hk].
  - rewrite IH by exact Hk. destruct (pivotedData !! key) eqn:Hp; [reflexivity|].
    destruct (pivotedData !! x) eqn:Hx; [|reflexivity].
    apply lookup_insert_ne. congruence.
  - assert (key = x) as -> by (inversion Hin; subst; [reflexivity|contradiction]).
    assert (Hkeep : forall acc : gmap string (Loader.Series num),
              foldl (fun normalizedData symbol =>
              match pivotedData !! symbol with
              | Some s =>
                  <[symbol := Loader.perField
                                (fun f => Loader.normalizeColumn (Loader.col s f))]>
                    normalizedData
              | None => normalizedData
              end) acc symbols !! x = acc !! x).
    { clear IH Hin. induction symbols as [|y symbols IH]; intros acc'; [reflexivity|].
      simpl. rewrite IH by (intros H; apply Hk; now right).
      destruct (pivotedData !! y); [|reflexivity].
      apply lookup_insert_ne. intros ->. apply Hk. left. }
    rewrite Hkeep. destruct (pivotedData !! x); [|reflexivity].
    apply lookup_insert_eq.
Qed.

Lemma normalizedOf_lookup (rawData : list Loader.Row) (symbol : string) :
  symbol ∈ Loader.symbolsOf rawData ->
  Loader.normalizedOf rawData !! symbol =
  (fun s => Loader.perField (fun f => Loader.normalizeColumn (Loader.col s f)))
    <$> Loader.filledOf rawData !! symbol.
Proof.
  intros Hin. unfold Loader.normalizedOf, Loader.normalize.
  rewrite normalize_fold_lookup by exact Hin.
  now destruct (Loader.filledOf rawData !! symbol).
Qed.

Lemma filledOf_lookup (rawData : list Loader.Row) (symbol : string) :
  symbol ∈ Loader.symbolsOf rawData ->
  Loader.filledOf rawData !! symbol =
  (fun s => Loader.perField (fun f => Loader.forwardFill None (Loader.col s f)))
    <$> Loader.pivotOf rawData !! symbol.
Proof.
  intros Hin. unfold Loader.filledOf. apply fillGaps_lookup; [|exact Hin].
  apply NoDup_uniq_from.
Qed.

Lemma baseOk_absorbs (pivot : gmap string (gmap string Sequences.Quote))
      (dates symbols : list string) (i : Z) :
  Sequences.baseOk pivot dates symbols false i = false.
Proof.
  unfold Sequences.baseOk. induction symbols as [|x symbols IH]; [reflexivity|].
  simpl. now destruct (Sequences.closeOn pivot (at_ dates i) x).
Qed.

Lemma baseOk_missing (pivot : gmap string (gmap string Sequences.Quote))
      (dates symbols : list string) (ok : bool) (i : Z) (sym : string) :
  sym ∈ symbols -> Sequences.closeOn pivot (at_ dates i) sym = None ->
  Sequences.baseOk pivot dates symbols ok i = false.
Proof.
  intros Hin Hnone. revert ok.
  induction symbols as [|x symbols IH]; intros ok; [inversion Hin|].
  unfold Sequences.baseOk. simpl.
  destruct (decide (sym = x)) as [->|Hne].
  - rewrite Hnone. apply baseOk_absorbs.
  - apply IH. inversion Hin; subst; [contradiction|assumption].
Qed.

(** C3, as the code has it.  [prepareData] never excludes a window: it
    emits one sample for every loop position 12 <= i <= len - 4 whatever
    holes the window or the horizon touches, and a value that is still a
    hole after the forward fill enters the tensors and the label comparison
    as the normalised value 0.  [createSequences], which does not fill,
    skips the position whose base close (the close on the anchor date) is
    missing for some entity: that turn of the loop produces no sample and
    raises nothing. *)
Theorem hole_policy :
  (forall rawData : list Loader.Row,
      let len := Z.of_nat (length (Loader.allDatesOf rawData)) in
      length (Loader.samplesOf rawData) = Z.to_nat (len - 15) /\
      length (Loader.labelsOf rawData) = Z.to_nat (len - 15) /\
      (forall r, Loader.prepareData rawData = Ok r ->
         Loader.X_train r ++ Loader.X_test r = Loader.samplesOf rawData /\
         Loader.y_train r ++ Loader.y_test r = Loader.labelsOf rawData /\
         length (Loader.dateIndex r) = Z.to_nat (len - 15))) /\
  (forall rawData symbol s f (j : nat),
      symbol ∈ Loader.symbolsOf rawData ->
      Loader.filledOf rawData !! symbol = Some s ->
      Loader.col s f !! j = Some None ->
      Loader.valueAt (Loader.normalizedOf rawData) symbol f (Z.of_nat j)
        = Some (Fin 0)) /\
  (forall pivot dates symbols windowBlock inputLen outputLen i sym,
      sym ∈ symbols ->
      Sequences.closeOn pivot (at_ dates i) sym = None ->
      Sequences.sequenceAt pivot dates symbols windowBlock inputLen outputLen i
        = None).
Proof.
  split; [|split].
  - intros rawData len.
    assert (Hn : length (Loader.anchors (length (Loader.allDatesOf rawData)))
                 = Z.to_nat (len - 15)).
    { unfold Loader.anchors. rewrite length_forRange.
      unfold Loader.WINDOW_SIZE, Loader.PREDICTION_DAYS. subst len. lia. }
    unfold Loader.samplesOf, Loader.labelsOf. rewrite !length_map.
    repeat split; try exact Hn.
    + apply prepareData_Ok in H as ->. apply take_drop.
    + apply prepareData_Ok in H as ->. apply take_drop.
    + apply prepareData_Ok in H as ->. cbn [Loader.dateIndex Loader.prepared].
      rewrite length_map. exact Hn.
  - intros rawData symbol s f j Hin Hs Hj. unfold Loader.valueAt.
    rewrite normalizedOf_lookup, Hs by exact Hin. simpl.
    rewrite col_perField. unfold at_. destruct (Z.ltb_spec (Z.of_nat j) 0) as [Hneg|_]; [lia|].
    rewrite Nat2Z.id. unfold Loader.normalizeColumn.
    change (map ?g ?l) with (g <$> l).
    now rewrite list_lookup_fmap, Hj.
  - intros pivot dates symbols windowBlock inputLen outputLen i sym Hin Hnone.
    unfold Sequences.sequenceAt. destruct (windowBlock i) as [ok w].
    destruct (negb ok || negb (Z.of_nat (length w) =? inputLen)); [reflexivity|].
    now rewrite (baseOk_missing pivot dates symbols ok i sym Hin Hnone).
Qed.

(** C3 as stated fails on [prepareData]: stock B has no row on the first
    of seventeen days, its position 0 is still a hole after the forward fill
    and lies in the lookback window of loop position 12, yet the sample of
    position 12 is emitted, with 0 in the place of the hole. *)
Lemma hole_window_counterexample :
  (Loader.filledOf late_listing !! "B") ≫= (fun s => Loader.Close_ s !! 0%nat)
    = Some None /\
  touchesHole (Loader.filledOf late_listing) (Loader.symbolsOf late_listing) 12
    = true /\
  match Loader.prepareData late_listing with
  | Ok r =>
      Loader.dateIndex r = [Some "2024-01-13"; Some "2024-01-14"] /\
      length (Loader.X_train r ++ Loader.X_test r) = 2%nat /\
      (Loader.X_train r ++ Loader.X_test r) !! 0%nat ≫= (fun sample => sample !! 0%nat)
        = Some [Some (Fin 1); Some (Fin 1); Some (Fin 0); Some (Fin 0)]
  | Throw _ => False
  end.
Proof.
  repeat split; vm_compute; reflexivity.
Qed.

(** ** The statements at concrete inputs *)

Lemma label_vector_layout_witness :
  exists label,
    Loader.labelsOf one_stock !! Z.to_nat (12 - 12) = Some label /\
    length label = (length (Loader.symbolsOf one_stock) * 3)%nat /\
    label !! (0 * 3 + 1)%nat =
      Some (if js_gt (Loader.valueAt (Loader.normalizedOf one_stock) "A"
                                     Loader.Close (12 + Z.of_nat 1))
                     (Loader.valueAt (Loader.normalizedOf one_stock) "A"
                                     Loader.Close (12 - 1))
            then 1 else 0).
Proof.
  destruct label_vector_layout as (H & _).
  apply (H one_stock 12 0%nat "A" 1%nat).
  - assert (Hlen : length (Loader.allDatesOf one_stock) = 17%nat)
      by (vm_compute; reflexivity).
    rewrite Hlen. lia.
  - reflexivity.
  - lia.
Defined.

Lemma hole_policy_witness :
  "A" ∈ ["A"; "B"] /\
  Sequences.closeOn four_pivot (at_ four_dates 0) "B" = None /\
  Sequences.sequenceAt four_pivot four_dates ["A"; "B"]
                       (fun _ => (true, [])) 0 1 0 = None.
Proof.
  destruct hole_policy as (_ & _ & H).
  assert (Hin : "B" ∈ ["A"; "B"]) by (right; left).
  assert (Hnone : Sequences.closeOn four_pivot (at_ four_dates 0) "B" = None)
    by (vm_compute; reflexivity).
  split; [left|]. split; [exact Hnone|].
  exact (H four_pivot four_dates ["A"; "B"] (fun _ => (true, [])) 0 1 0 "B"
           Hin Hnone).
Defined.

Lemma entity_set_order_witness :
  match Sequences.parseAndPivot b_before_a_lines with
  | Ok p => ascending (Sequences.symbols p) /\ NoDup (Sequences.symbols p)
  | Throw _ => False
  end.
Proof.
  destruct entity_set_order as (_ & H & _).
  destruct (Sequences.parseAndPivot b_before_a_lines) as [p|msg] eqn:Hp.
  - destruct (H b_before_a_lines p Hp) as (Hasc & Hnd & _). now split.
  - vm_compute in Hp. discriminate.
Defined.

Lemma labels_are_binary_witness :
  match Loader.prepareData one_stock with
  | Ok r => Forall (Forall binary) (Loader.y_train r) /\
            Forall (Forall binary) (Loader.y_test r)
  | Throw _ => False
  end.
Proof.
  destruct labels_are_binary as (_ & _ & H & _).
  destruct (Loader.prepareData one_stock) as [r|msg] eqn:Hr.
  - exact (H one_stock r Hr).
  - vm_compute in Hr. discriminate.
Defined.

(** * Further properties of the code *)

(** ** The date axis *)

Lemma leb_ne_ltb (a b : string) :
  String.leb a b = true -> a <> b -> String.ltb a b = true.
Proof.
  unfold String.leb, String.ltb. intros Hle Hne.
  destruct (String.compare a b) eqn:Hc; [|reflexivity|discriminate].
  apply String.compare_eq_iff in Hc. contradiction.
Qed.

Lemma ascending_NoDup_strict (l : list string) :
  ascending l -> NoDup l -> strictly_ascending l.
Proof.
  unfold ascending, strictly_ascending. intros Hs. induction Hs as [|x l Hs IH Hhd].
  - constructor.
  - intros Hnd. apply NoDup_cons in Hnd as [Hx Hnd]. constructor; [now apply IH|].
    destruct Hhd as [|y l' Hxy]; constructor.
    apply leb_ne_ltb; [exact Hxy|]. intros ->. apply Hx. left.
Qed.

Lemma sort_uniq_axis (xs : list string) :
  strictly_ascending (sort (uniq xs)) /\ NoDup (sort (uniq xs)) /\
  forall d, d ∈ sort (uniq xs) <-> d ∈ xs.
Proof.
  assert (Hnd : NoDup (sort (uniq xs))).
  { rewrite sort_perm. apply NoDup_uniq_from. }
  split; [|split; [exact Hnd|]].
  - apply ascending_NoDup_strict; [apply sort_ascending|exact Hnd].
  - intros d. rewrite sort_perm. unfold uniq. rewrite elem_of_uniq_from.
    split; [now intros [H _]|]. intros H. split; [exact H|]. intros H'. inversion H'.
Qed.

Lemma allDatesOf_axis (rawData : list Loader.Row) :
  strictly_ascending (Loader.allDatesOf rawData) /\
  NoDup (Loader.allDatesOf rawData) /\
  forall d, d ∈ Loader.allDatesOf rawData <->
            exists row, row ∈ rawData /\ Loader.Date row = d.
Proof.
  unfold Loader.allDatesOf.
  destruct (sort_uniq_axis (map Loader.Date rawData)) as (Hs & Hnd & Hin).
  split; [exact Hs|]. split; [exact Hnd|]. intros d. rewrite Hin.
  rewrite list_elem_of_In, in_map_iff. split.
  - intros (row & <- & Hrow). exists row. now rewrite list_elem_of_In.
  - intros (row & Hrow & <-). exists row. now rewrite <- list_elem_of_In.
Qed.

(** X1.  The date axis of [prepareData] is strictly ascending, free of
    duplicates, and holds exactly the dates that occur in the rows. *)
Theorem allDates_axis (rawData : list Loader.Row) :
  strictly_ascending (Loader.allDatesOf rawData) /\
  NoDup (Loader.allDatesOf rawData) /\
  forall d, d ∈ Loader.allDatesOf rawData <->
            exists row, row ∈ rawData /\ Loader.Date row = d.
Proof.
  exact (allDatesOf_axis rawData).
Qed.

Lemma addLine_pivot_lookup (lines : list Sequences.Line)
      (st : gmap string (gmap string Sequences.Quote) * gset string) (d s : string) :
  default ∅ ((foldl Sequences.addLine st lines).1 !! d) !! s =
  lastQuote lines d s (default ∅ (st.1 !! d) !! s).
Proof.
  revert st. induction lines as [|l lines IH]; intros st; [reflexivity|].
  simpl. rewrite IH. f_equal.
  unfold Sequences.addLine. cbn [fst].
  destruct (decide (Sequences.date l = d)) as [<-|Hd].
  - rewrite lookup_insert_eq. cbn [default from_option]. change (id ?x) with x.
    destruct (decide (Sequences.symbol l = s)) as [<-|Hs].
    + rewrite lookup_insert_eq. now rewrite decide_True by auto.
    + rewrite lookup_insert_ne by exact Hs.
      rewrite decide_False by (intros [_ H]; contradiction). reflexivity.
  - rewrite lookup_insert_ne by exact Hd.
    rewrite decide_False by (intros [H _]; contradiction). reflexivity.
Qed.

Lemma addLine_dates (lines : list Sequences.Line)
      (st : gmap string (gmap string Sequences.Quote) * gset string) (d : string) :
  is_Some ((foldl Sequences.addLine st lines).1 !! d) <->
  is_Some (st.1 !! d) \/ exists l, l ∈ lines /\ Sequences.date l = d.
Proof.
  revert st. induction lines as [|l lines IH]; intros st; simpl.
  - split; [now left|]. intros [H|(l & Hl & _)]; [exact H|inversion Hl].
  - rewrite IH. unfold Sequences.addLine. cbn [fst]. split.
    + intros [H|(l' & Hl' & Hd)].
      * destruct (decide (Sequences.date l = d)) as [<-|Hne].
        -- right. exists l. split; [left|reflexivity].
        -- rewrite lookup_insert_ne in H by exact Hne. now left.
      * right. exists l'. split; [now right|exact Hd].
    + intros [H|(l' & Hl' & Hd)].
      * left. destruct (decide (Sequences.date l = d)) as [<-|Hne].
        -- rewrite lookup_insert_eq. eauto.
        -- now rewrite lookup_insert_ne by exact Hne.
      * inversion Hl'; subst.
        -- left. rewrite lookup_insert_eq. eauto.
        -- right. now exists l'.
Qed.

Lemma lastQuote_none (lines : list Sequences.Line) (d s : string)
      (init : option Sequences.Quote) :
  (forall l, l ∈ lines -> ~ (Sequences.date l = d /\ Sequences.symbol l = s)) ->
  lastQuote lines d s init = init.
Proof.
  revert init. induction lines as [|l lines IH]; intros init Hno; [reflexivity|].
  unfold lastQuote. simpl. rewrite decide_False by (apply Hno; left).
  apply IH. intros l' Hl'. apply Hno. now right.
Qed.

Lemma lastQuote_last (pre post : list Sequences.Line) (l : Sequences.Line)
      (init : option Sequences.Quote) :
  (forall l', l' ∈ post ->
     ~ (Sequences.date l' = Sequences.date l /\
        Sequences.symbol l' = Sequences.symbol l)) ->
  lastQuote (pre ++ l :: post) (Sequences.date l) (Sequences.symbol l) init =
  Some {| Sequences.Open := Sequences.open l; Sequences.Close := Sequences.close l |}.
Proof.
  intros Hpost. unfold lastQuote. rewrite foldl_app. simpl.
  rewrite decide_True by auto. now apply lastQuote_none.
Qed.

(** X2.  What [parseAndPivot] returns: the dates are strictly ascending, free
    of duplicates and exactly the dates of the lines; for every date and
    symbol the pivot holds the quote of the last line that names them (a later
    line overwrites an earlier one), and nothing when no line does. *)
Theorem parseAndPivot_pivot (lines : list Sequences.Line) (p : Sequences.Parsed) :
  Sequences.parseAndPivot lines = Ok p ->
  strictly_ascending (Sequences.dates p) /\
  NoDup (Sequences.dates p) /\
  (forall d, d ∈ Sequences.dates p <->
             exists l, l ∈ lines /\ Sequences.date l = d) /\
  (forall d s,
      (forall l, l ∈ lines -> ~ (Sequences.date l = d /\ Sequences.symbol l = s)) ->
      default ∅ (Sequences.pivot p !! d) !! s = None) /\
  (forall pre l post,
      lines = pre ++ l :: post ->
      (forall l', l' ∈ post ->
         ~ (Sequences.date l' = Sequences.date l /\
            Sequences.symbol l' = Sequences.symbol l)) ->
      default ∅ (Sequences.pivot p !! Sequences.date l) !! Sequences.symbol l =
      Some {| Sequences.Open := Sequences.open l;
              Sequences.Close := Sequences.close l |}).
Proof.
  intros Hp. unfold Sequences.parseAndPivot in Hp.
  destruct lines as [|l0 lines0] eqn:Hlines; [discriminate|].
  rewrite <- Hlines in *. injection Hp as <-.
  cbn [Sequences.dates Sequences.pivot].
  set (m := (foldl Sequences.addLine (∅, ∅) lines).1).
  assert (Hnd : NoDup (sort (map fst (map_to_list m)))).
  { rewrite sort_perm. apply NoDup_fst_map_to_list. }
  assert (Hlook : forall d s, default ∅ (m !! d) !! s = lastQuote lines d s None).
  { intros d s. subst m. rewrite addLine_pivot_lookup. cbn.
    now rewrite !lookup_empty. }
  split; [|split; [exact Hnd|split; [|split]]].
  - apply ascending_NoDup_strict; [apply sort_ascending|exact Hnd].
  - intros d. rewrite sort_perm.
    change (map fst (map_to_list m)) with (fst <$> map_to_list m).
    rewrite list_elem_of_fmap. split.
    + intros ([d' q] & -> & Hin). apply elem_of_map_to_list in Hin.
      assert (His : is_Some (m !! d')) by eauto.
      apply (addLine_dates lines (∅, ∅)) in His as [[? H]|H]; [|exact H].
      cbn in H. rewrite lookup_empty in H. discriminate.
    + intros Hl. assert (His : is_Some (m !! d)).
      { apply (addLine_dates lines (∅, ∅)). now right. }
      destruct His as [q Hq]. exists (d, q). split; [reflexivity|].
      now apply elem_of_map_to_list.
  - intros d s Hno. rewrite Hlook. now apply lastQuote_none.
  - intros pre l post Heq Hpost. rewrite Hlook, Heq. now apply lastQuote_last.
Qed.

(** ** The pivoted series of [prepareData] *)

Lemma lastPrice_none (rows : list Loader.Row) (d symbol : string)
      (f : Loader.field) (init : cell) :
  (forall row, row ∈ rows ->
     ~ (Loader.Date row = d /\ Loader.Symbol row = symbol)) ->
  lastPrice rows d symbol f init = init.
Proof.
  revert init. induction rows as [|row rows IH]; intros init Hno; [reflexivity|].
  unfold lastPrice. simpl. rewrite decide_False by (apply Hno; left).
  apply IH. intros row' Hrow'. apply Hno. now right.
Qed.

Lemma lastPrice_last (pre post : list Loader.Row) (row : Loader.Row)
      (f : Loader.field) (init : cell) :
  (forall row', row' ∈ post ->
     ~ (Loader.Date row' = Loader.Date row /\
        Loader.Symbol row' = Loader.Symbol row)) ->
  lastPrice (pre ++ row :: post) (Loader.Date row) (Loader.Symbol row) f init =
  Loader.Price row f.
Proof.
  intros Hpost. unfold lastPrice. rewrite foldl_app. simpl.
  rewrite decide_True by auto. now apply lastPrice_none.
Qed.

Lemma dateToIndexOf_fold_notin (l : list string) (a : nat)
      (m : gmap string nat) (d : string) :
  d ∉ l ->
  foldl (fun m p => <[p.1 := p.2]> m) m (zip l (seq a (length l))) !! d = m !! d.
Proof.
  revert a m. induction l as [|x l IH]; intros a m Hd; [reflexivity|].
  simpl. rewrite IH by (intros H; apply Hd; now right).
  apply lookup_insert_ne. intros ->. apply Hd. left.
Qed.

Lemma dateToIndexOf_fold_at (l : list string) (a k : nat)
      (m : gmap string nat) (d : string) :
  NoDup l -> l !! k = Some d ->
  foldl (fun m p => <[p.1 := p.2]> m) m (zip l (seq a (length l))) !! d
    = Some (a + k)%nat.
Proof.
  revert a k m. induction l as [|x l IH]; intros a k m Hnd Hk; [easy|].
  apply NoDup_cons in Hnd as [Hx Hnd]. simpl. destruct k as [|k]; simpl in Hk.
  - injection Hk as ->. rewrite dateToIndexOf_fold_notin by exact Hx.
    rewrite lookup_insert_eq. f_equal. lia.
  - rewrite (IH (S a) k) by assumption. f_equal. lia.
Qed.

Lemma dateToIndexOf_lookup (allDates : list string) (d : string) (i : nat) :
  NoDup allDates ->
  (Loader.dateToIndexOf allDates !! d = Some i <-> allDates !! i = Some d).
Proof.
  intros Hnd. unfold Loader.dateToIndexOf. split.
  - intros Hi. destruct (decide (d ∈ allDates)) as [Hin|Hnot].
    + apply list_elem_of_lookup in Hin as [k Hk].
      rewrite (dateToIndexOf_fold_at allDates 0 k ∅ d Hnd Hk) in Hi.
      injection Hi as <-. exact Hk.
    + rewrite dateToIndexOf_fold_notin in Hi by exact Hnot.
      rewrite lookup_empty in Hi. discriminate.
  - intros Hk. now rewrite (dateToIndexOf_fold_at allDates 0 i ∅ d Hnd Hk).
Qed.

Lemma initPivot_fold (symbols : list string) (n : nat)
      (acc : gmap string (Loader.Series cell)) (key : string) :
  foldl (fun pivotedData symbol =>
           <[symbol := Loader.perField (fun _ => replicate n None)]> pivotedData)
        acc symbols !! key =
  if decide (key ∈ symbols)
  then Some (Loader.perField (fun _ => replicate n None))
  else acc !! key.
Proof.
  revert acc. induction symbols as [|x symbols IH]; intros acc; [reflexivity|].
  simpl. rewrite IH. destruct (decide (key ∈ symbols)) as [Hin|Hnot].
  - rewrite decide_True by now right. reflexivity.
  - destruct (decide (key = x)) as [->|Hne].
    + rewrite decide_True by left. apply lookup_insert_eq.
    + rewrite decide_False.
      * apply lookup_insert_ne. congruence.
      * intros H. inversion H; subst; contradiction.
Qed.

Lemma putRow_holds (symbols allDates : list string)
      (p : gmap string (Loader.Series cell))
      (v : string -> string -> Loader.field -> cell) (row : Loader.Row) :
  NoDup allDates ->
  Loader.Symbol row ∈ symbols -> Loader.Date row ∈ allDates ->
  pivotHolds symbols allDates p v ->
  pivotHolds symbols allDates (Loader.putRow (Loader.dateToIndexOf allDates) p row)
    (fun d symbol f =>
       if decide (Loader.Date row = d /\ Loader.Symbol row = symbol)
       then Loader.Price row f else v d symbol f).
Proof.
  intros Hnd Hsym Hdate [Hout Hin].
  apply list_elem_of_lookup in Hdate as [idx Hidx].
  assert (Hdti : Loader.dateToIndexOf allDates !! Loader.Date row = Some idx)
    by now apply dateToIndexOf_lookup.
  destruct (Hin _ Hsym) as (s0 & Hs0 & Hcols0).
  unfold Loader.putRow. rewrite Hdti, Hs0. split.
  - intros symbol Hnot. rewrite lookup_insert_ne by (intros <-; contradiction).
    now apply Hout.
  - intros symbol Hsymbol. destruct (decide (Loader.Symbol row = symbol)) as [<-|Hne].
    + rewrite lookup_insert_eq. eexists. split; [reflexivity|]. intros f.
      rewrite col_perField. destruct (Hcols0 f) as [Hlen Hval]. split.
      * now rewrite length_insert.
      * intros i d Hi. destruct (decide (i = idx)) as [->|Hi'].
        -- assert (d = Loader.Date row) as -> by congruence.
           rewrite decide_True by auto. apply list_lookup_insert_eq.
           rewrite Hlen. now apply lookup_lt_Some in Hidx.
        -- rewrite list_lookup_insert_ne by congruence.
           rewrite decide_False; [now apply Hval|].
           intros [Hd _]. apply Hi'. rewrite <- Hd in Hi.
           now apply (NoDup_lookup allDates i idx (Loader.Date row)).
    + rewrite lookup_insert_ne by exact Hne.
      destruct (Hin _ Hsymbol) as (s & Hs & Hcols). exists s. split; [exact Hs|].
      intros f. destruct (Hcols f) as [Hlen Hval]. split; [exact Hlen|].
      intros i d Hi. rewrite decide_False by (intros [_ H]; contradiction).
      now apply Hval.
Qed.

Lemma fillPivot_holds (symbols allDates : list string) (rows : list Loader.Row)
      (p : gmap string (Loader.Series cell))
      (v : string -> string -> Loader.field -> cell) :
  NoDup allDates ->
  (forall row, row ∈ rows ->
     Loader.Symbol row ∈ symbols /\ Loader.Date row ∈ allDates) ->
  pivotHolds symbols allDates p v ->
  pivotHolds symbols allDates (Loader.fillPivot rows allDates p)
    (fun d symbol f => lastPrice rows d symbol f (v d symbol f)).
Proof.
  intros Hnd. unfold Loader.fillPivot. revert p v.
  induction rows as [|row rows IH]; intros p v Hrows Hp; [exact Hp|].
  simpl. destruct (Hrows row) as [Hsym Hdate]; [left|].
  apply (IH _ _ (fun r Hr => Hrows r (list_elem_of_further _ _ _ Hr))
            (putRow_holds _ _ _ _ _ Hnd Hsym Hdate Hp)).
Qed.

Lemma pivotOf_holds (rawData : list Loader.Row) :
  pivotHolds (Loader.symbolsOf rawData) (Loader.allDatesOf rawData)
             (Loader.pivotOf rawData)
             (fun d symbol f => lastPrice rawData d symbol f None).
Proof.
  unfold Loader.pivotOf. destruct (allDatesOf_axis rawData) as (_ & Hnd & Hdates).
  apply (fillPivot_holds _ _ _ _ (fun _ _ _ => None) Hnd).
  - intros row Hrow. split.
    + unfold Loader.symbolsOf, uniq. apply elem_of_uniq_from. split.
      * apply list_elem_of_In, in_map. now apply list_elem_of_In.
      * intros H. inversion H.
    + apply Hdates. now exists row.
  - unfold Loader.initPivot. split.
    + intros symbol Hnot. rewrite initPivot_fold.
      now rewrite decide_False by exact Hnot.
    + intros symbol Hin. rewrite initPivot_fold, decide_True by exact Hin.
      eexists. split; [reflexivity|]. intros f. rewrite col_perField. split.
      * apply length_replicate.
      * intros i d Hi. apply lookup_replicate_2. now apply lookup_lt_Some in Hi.
Qed.

(** X3.  The pivot of [prepareData]: its keys are exactly the symbols, both
    arrays of every symbol have one slot per date of the axis, and the slot of
    a date holds the value of the last row for that date and symbol (a later
    row overwrites an earlier one), or [null] when there is no row. *)
Theorem pivot_last_row_wins (rawData : list Loader.Row) :
  (forall symbol, symbol ∉ Loader.symbolsOf rawData ->
                  Loader.pivotOf rawData !! symbol = None) /\
  (forall symbol, symbol ∈ Loader.symbolsOf rawData ->
     exists s, Loader.pivotOf rawData !! symbol = Some s /\
       forall f,
         length (Loader.col s f) = length (Loader.allDatesOf rawData) /\
         (forall i d,
             Loader.allDatesOf rawData !! i = Some d ->
             (forall row, row ∈ rawData ->
                ~ (Loader.Date row = d /\ Loader.Symbol row = symbol)) ->
             Loader.col s f !! i = Some None) /\
         (forall i pre row post,
             rawData = pre ++ row :: post ->
             Loader.Symbol row = symbol ->
             Loader.allDatesOf rawData !! i = Some (Loader.Date row) ->
             (forall row', row' ∈ post ->
                ~ (Loader.Date row' = Loader.Date row /\
                   Loader.Symbol row' = Loader.Symbol row)) ->
             Loader.col s f !! i = Some (Loader.Price row f))).
Proof.
  destruct (pivotOf_holds rawData) as [Hout Hin]. split; [exact Hout|].
  intros symbol Hsym. destruct (Hin _ Hsym) as (s & Hs & Hcols).
  exists s. split; [exact Hs|]. intros f. destruct (Hcols f) as [Hlen Hval].
  split; [exact Hlen|]. split.
  - intros i d Hi Hno. rewrite (Hval i d Hi). f_equal. now apply lastPrice_none.
  - intros i pre row post Heq <- Hi Hpost. rewrite (Hval i _ Hi). f_equal.
    rewrite Heq. now apply lastPrice_last.
Qed.

(** ** Min-max scaling *)


Lemma fold_min_Fin (qs : list Q) (a : Q) :
  exists m, foldl num_min (Fin a) (map Fin qs) = Fin m /\
            (m = a \/ In m qs) /\ (m <= a)%Q /\ forall q, In q qs -> (m <= q)%Q.
Proof.
  revert a. induction qs as [|q qs IH]; intros a.
  - exists a. repeat split; [now left|apply Qle_refl|intros q []].
  - simpl. destruct (Qle_bool a q) eqn:Hle; simpl.
    + apply Qle_bool_iff in Hle. destruct (IH a) as (m & Hm & Hin & Hma & Hall).
      exists m. repeat split; [exact Hm| |exact Hma|].
      * destruct Hin; [now left|right; now right].
      * intros q' [<-|Hq']; [now apply Qle_trans with a|now apply Hall].
    + assert (Hlt : (q < a)%Q).
      { apply Qnot_le_lt. intros H. apply Qle_bool_iff in H. congruence. }
      destruct (IH q) as (m & Hm & Hin & Hmq & Hall).
      exists m. repeat split; [exact Hm| | |].
      * right. destruct Hin as [->|Hin]; [now left|now right].
      * apply Qle_trans with q; [exact Hmq|now apply Qlt_le_weak].
      * intros q' [<-|Hq']; [exact Hmq|now apply Hall].
Qed.

Lemma fold_max_Fin (qs : list Q) (a : Q) :
  exists m, foldl num_max (Fin a) (map Fin qs) = Fin m /\
            (m = a \/ In m qs) /\ (a <= m)%Q /\ forall q, In q qs -> (q <= m)%Q.
Proof.
  revert a. induction qs as [|q qs IH]; intros a.
  - exists a. repeat split; [now left|apply Qle_refl|intros q []].
  - simpl. destruct (Qle_bool q a) eqn:Hle; simpl.
    + apply Qle_bool_iff in Hle. destruct (IH a) as (m & Hm & Hin & Hma & Hall).
      exists m. repeat split; [exact Hm| |exact Hma|].
      * destruct Hin; [now left|right; now right].
      * intros q' [<-|Hq']; [now apply Qle_trans with a|now apply Hall].
    + assert (Hlt : (a < q)%Q).
      { apply Qnot_le_lt. intros H. apply Qle_bool_iff in H. congruence. }
      destruct (IH q) as (m & Hm & Hin & Hmq & Hall).
      exists m. repeat split; [exact Hm| | |].
      * right. destruct Hin as [->|Hin]; [now left|now right].
      * apply Qle_trans with q; [now apply Qlt_le_weak|exact Hmq].
      * intros q' [<-|Hq']; [exact Hmq|now apply Hall].
Qed.

(** [Math.min] and [Math.max] of finitely many finite Numbers are elements
    of the list that bound it. *)
Lemma Math_min_max_Fin (q : Q) (qs : list Q) :
  exists lo hi,
    Math_min (map Fin (q :: qs)) = Fin lo /\ Math_max (map Fin (q :: qs)) = Fin hi /\
    In lo (q :: qs) /\ In hi (q :: qs) /\
    forall x, In x (q :: qs) -> (lo <= x)%Q /\ (x <= hi)%Q.
Proof.
  unfold Math_min, Math_max. simpl.
  destruct (fold_min_Fin qs q) as (lo & Hlo & Hlin & Hloq & Hlall).
  destruct (fold_max_Fin qs q) as (hi & Hhi & Hhin & Hhiq & Hhall).
  exists lo, hi. repeat split; try assumption.
  - destruct Hlin as [->|H]; [now left|now right].
  - destruct Hhin as [->|H]; [now left|now right].
  - destruct H as [<-|H]; [exact Hloq|now apply Hlall].
  - destruct H as [<-|H]; [exact Hhiq|now apply Hhall].
Qed.

(** The quotient (v - lo) / (hi - lo) for lo <= v <= hi and lo < hi, when
    the range hi - lo does not overflow. *)
Lemma scale_unit (v lo hi : Q) :
  (lo <= v)%Q -> (v <= hi)%Q -> (lo < hi)%Q -> (hi - lo < overflow_bound)%Q ->
  num_div (num_sub (Fin v) (Fin lo)) (num_sub (Fin hi) (Fin lo))
    = Fin (Qred ((v - lo) / (hi - lo))) /\
  (0 <= (v - lo) / (hi - lo))%Q /\ ((v - lo) / (hi - lo) <= 1)%Q.
Proof.
  intros Hlo Hhi Hlt Hb. pose proof overflow_bound_pos as Hp.
  assert (H0 : (0 <= (v - lo) / (hi - lo))%Q) by (apply Qle_shift_div_l; lra).
  assert (H1 : ((v - lo) / (hi - lo) <= 1)%Q) by (apply Qle_shift_div_r; lra).
  split; [|split; assumption].
  cbn [num_sub].
  rewrite (rounded_finite (v - lo)) by lra.
  rewrite (rounded_finite (hi - lo)) by lra.
  cbn [num_div].
  destruct (Qeq_bool (Qred (hi - lo)) 0) eqn:Hz.
  { apply Qeq_bool_iff in Hz. rewrite Qred_correct in Hz. lra. }
  assert (Hr : (Qred (v - lo) / Qred (hi - lo) == (v - lo) / (hi - lo))%Q)
    by (now rewrite !Qred_correct).
  rewrite rounded_unit by (rewrite Hr; assumption).
  f_equal. now apply Qred_complete.
Qed.

Lemma scale_monotone (v w lo hi : Q) :
  (lo < hi)%Q -> (v <= w)%Q ->
  ((v - lo) / (hi - lo) <= (w - lo) / (hi - lo))%Q.
Proof.
  intros Hlt Hvw. unfold Qdiv. apply Qmult_le_compat_r; [lra|].
  apply Qlt_le_weak, Qinv_lt_0_compat. lra.
Qed.

Lemma finite_values (column : list cell) :
  (forall c, c ∈ column -> c = None \/ exists q, c = Some (Fin q)) ->
  exists qs, omap id column = map Fin qs /\
             forall q, In q qs <-> Some (Fin q) ∈ column.
Proof.
  induction column as [|c column IH]; intros Hfin.
  - exists []. split; [reflexivity|]. intros q. split; [intros []|intros H; inversion H].
  - destruct IH as (qs & Hqs & Hin).
    { intros c' Hc'. apply Hfin. now right. }
    assert (Hc : c ∈ c :: column) by left.
    destruct (Hfin c Hc) as [->|[q ->]]; clear Hc.
    + exists qs. split; [exact Hqs|]. intros q. rewrite Hin. split.
      * intros H. now right.
      * intros H. apply elem_of_cons in H as [H|H]; [discriminate|exact H].
    + exists (q :: qs). split; [simpl; now rewrite <- Hqs|].
      intros q'. simpl. rewrite Hin. split.
      * intros [<-|H]; [left|now right].
      * intros H. apply elem_of_cons in H as [H|H]; [left; congruence|now right].
Qed.

Lemma normalizeColumn_scaled (column : list cell) :
  (forall c, c ∈ column -> c = None \/ exists q, c = Some (Fin q)) ->
  (exists a b, Some (Fin a) ∈ column /\ Some (Fin b) ∈ column /\ ~ (a == b)%Q) ->
  (forall a b, Some (Fin a) ∈ column -> Some (Fin b) ∈ column ->
               (a - b < overflow_bound)%Q) ->
  length (Loader.normalizeColumn column) = length column /\
  (forall i, column !! i = Some None ->
             Loader.normalizeColumn column !! i = Some (Fin 0)) /\
  (forall i q, column !! i = Some (Some (Fin q)) ->
     exists r, Loader.normalizeColumn column !! i = Some (Fin r) /\
               (0 <= r)%Q /\ (r <= 1)%Q) /\
  (forall i j q q' r r',
      column !! i = Some (Some (Fin q)) -> column !! j = Some (Some (Fin q')) ->
      Loader.normalizeColumn column !! i = Some (Fin r) ->
      Loader.normalizeColumn column !! j = Some (Fin r') ->
      (q <= q')%Q -> (r <= r')%Q) /\
  (exists i j q q',
      column !! i = Some (Some (Fin q)) /\ column !! j = Some (Some (Fin q')) /\
      Loader.normalizeColumn column !! i = Some (Fin 0) /\
      Loader.normalizeColumn column !! j = Some (Fin 1)).
Proof.
  intros Hfin (a & b & Ha & Hb & Hab) Hrange.
  destruct (finite_values column Hfin) as (qs & Hqs & Hin).
  assert (Hlook : forall i, Loader.normalizeColumn column !! i =
            (fun val => match val with
                        | Some v => num_div (num_sub v (Math_min (omap id column)))
                                            (num_sub (Math_max (omap id column))
                                                     (Math_min (omap id column)))
                        | None => Fin 0
                        end) <$> column !! i).
  { intros i. unfold Loader.normalizeColumn.
    change (map ?g ?l) with (g <$> l). now rewrite list_lookup_fmap. }
  destruct qs as [|q0 qs].
  { exfalso. apply Hin in Ha. destruct Ha. }
  rewrite Hqs in Hlook.
  destruct (Math_min_max_Fin q0 qs) as (lo & hi & Hlo & Hhi & Hloin & Hhiin & Hbnd).
  rewrite Hlo, Hhi in Hlook.
  assert (Hlt : (lo < hi)%Q).
  { apply Hin in Ha. apply Hin in Hb.
    destruct (Hbnd a Ha) as [Ha1 Ha2], (Hbnd b Hb) as [Hb1 Hb2].
    destruct (Qlt_le_dec lo hi) as [H|H]; [exact H|]. exfalso. apply Hab. lra. }
  assert (Hfit : (hi - lo < overflow_bound)%Q).
  { apply Hrange; now apply Hin. }
  assert (Hscale : forall i q, column !! i = Some (Some (Fin q)) ->
            Loader.normalizeColumn column !! i
              = Some (Fin (Qred ((q - lo) / (hi - lo)))) /\
            (0 <= (q - lo) / (hi - lo))%Q /\ ((q - lo) / (hi - lo) <= 1)%Q).
  { intros i q Hi. rewrite Hlook, Hi. cbn [fmap option_fmap option_map].
    assert (Hq : In q (q0 :: qs)) by (apply Hin; now apply list_elem_of_lookup_2 in Hi).
    destruct (Hbnd q Hq) as [H1 H2].
    destruct (scale_unit q lo hi H1 H2 Hlt Hfit) as (Hr & Hrest).
    now rewrite Hr. }
  split; [|split; [|split; [|split]]].
  - unfold Loader.normalizeColumn. apply length_map.
  - intros i Hi. now rewrite Hlook, Hi.
  - intros i q Hi. destruct (Hscale i q Hi) as (Hr & H0 & H1).
    eexists. split; [exact Hr|]. now rewrite Qred_correct.
  - intros i j q q' r r' Hi Hj Hr Hr' Hle.
    destruct (Hscale i q Hi) as (Hr1 & _).
    destruct (Hscale j q' Hj) as (Hr2 & _).
    rewrite Hr1 in Hr. rewrite Hr2 in Hr'.
    injection Hr as <-. injection Hr' as <-.
    rewrite !Qred_correct. now apply scale_monotone.
  - apply Hin, list_elem_of_lookup in Hloin as [i Hi].
    apply Hin, list_elem_of_lookup in Hhiin as [j Hj].
    exists i, j, lo, hi. split; [exact Hi|]. split; [exact Hj|].
    destruct (Hscale i lo Hi) as (-> & _). destruct (Hscale j hi Hj) as (-> & _).
    split; do 2 f_equal.
    + change 0%Q with (Qred 0). apply Qred_complete. field. lra.
    + change 1%Q with (Qred 1). apply Qred_complete. field. lra.
Qed.

(** X4.  Min-max scaling of [prepareData] on a series of finite values
    that is not constant and whose range does not overflow: the array keeps
    its length, a hole becomes 0, every value becomes a finite number
    between 0 and 1, the order of the values is kept, and some value becomes
    exactly 0 and some exactly 1.  Without the bound on the range the
    maximum of the series 2^1023, -2^1023, 0 becomes NaN. *)
Theorem normalizeColumn_unit_range (column : list cell) :
  ((forall c, c ∈ column -> c = None \/ exists q, c = Some (Fin q)) ->
   (exists a b, Some (Fin a) ∈ column /\ Some (Fin b) ∈ column /\ ~ (a == b)%Q) ->
   (forall a b, Some (Fin a) ∈ column -> Some (Fin b) ∈ column ->
                (a - b < overflow_bound)%Q) ->
   length (Loader.normalizeColumn column) = length column /\
   (forall i, column !! i = Some None ->
              Loader.normalizeColumn column !! i = Some (Fin 0)) /\
   (forall i q, column !! i = Some (Some (Fin q)) ->
      exists r, Loader.normalizeColumn column !! i = Some (Fin r) /\
                (0 <= r)%Q /\ (r <= 1)%Q) /\
   (forall i j q q' r r',
       column !! i = Some (Some (Fin q)) -> column !! j = Some (Some (Fin q')) ->
       Loader.normalizeColumn column !! i = Some (Fin r) ->
       Loader.normalizeColumn column !! j = Some (Fin r') ->
       (q <= q')%Q -> (r <= r')%Q) /\
   (exists i j q q',
       column !! i = Some (Some (Fin q)) /\ column !! j = Some (Some (Fin q')) /\
       Loader.normalizeColumn column !! i = Some (Fin 0) /\
       Loader.normalizeColumn column !! j = Some (Fin 1))) /\
  Loader.normalizeColumn wide_closes = [NaN; Fin 0; Fin 0].
Proof.
  split; [exact (normalizeColumn_scaled column)|].
  vm_compute. reflexivity.
Qed.

(** ** The samples of [prepareData] *)

Lemma normalizedOf_series (rawData : list Loader.Row) (symbol : string) :
  symbol ∈ Loader.symbolsOf rawData ->
  exists s, Loader.normalizedOf rawData !! symbol = Some s /\
            forall f, length (Loader.col s f) = length (Loader.allDatesOf rawData).
Proof.
  intros Hin. destruct (pivotOf_holds rawData) as [_ Hp].
  destruct (Hp _ Hin) as (s0 & Hs0 & Hcols).
  rewrite normalizedOf_lookup, filledOf_lookup, Hs0 by exact Hin.
  eexists. split; [reflexivity|]. intros f.
  rewrite !col_perField. unfold Loader.normalizeColumn.
  rewrite length_map, length_forwardFill. apply Hcols.
Qed.

Lemma valueAt_defined (rawData : list Loader.Row) (symbol : string)
      (f : Loader.field) (j : Z) :
  symbol ∈ Loader.symbolsOf rawData ->
  0 <= j < Z.of_nat (length (Loader.allDatesOf rawData)) ->
  exists v, Loader.valueAt (Loader.normalizedOf rawData) symbol f j = Some v.
Proof.
  intros Hin Hj. destruct (normalizedOf_series rawData symbol Hin) as (s & Hs & Hlen).
  unfold Loader.valueAt. rewrite Hs. unfold at_.
  destruct (Z.ltb_spec j 0) as [Hneg|_]; [lia|].
  apply lookup_lt_is_Some. rewrite Hlen. lia.
Qed.

(** X5.  The sample emitted for the n-th visited position: it has 12 time
    steps of two entries per symbol and a label of three entries per symbol;
    time step t holds, for the e-th symbol, the normalised open and close of
    axis position n + t (oldest first, all before the labelled positions), and
    every one of these entries is a Number, never [undefined]. *)
Theorem sample_window_content (rawData : list Loader.Row) (n : nat) :
  let S := length (Loader.symbolsOf rawData) in
  let nd := Loader.normalizedOf rawData in
  (n < Z.to_nat (Z.of_nat (length (Loader.allDatesOf rawData)) - 15))%nat ->
  exists sample label,
    Loader.samplesOf rawData !! n = Some sample /\
    Loader.labelsOf rawData !! n = Some label /\
    length sample = 12%nat /\ length label = (S * 3)%nat /\
    forall t, (t < 12)%nat ->
      exists step, sample !! t = Some step /\ length step = (S * 2)%nat /\
        forall e symbol, Loader.symbolsOf rawData !! e = Some symbol ->
          exists o c,
            step !! (e * 2)%nat = Some (Some o) /\
            step !! (e * 2 + 1)%nat = Some (Some c) /\
            Loader.valueAt nd symbol Loader.Open (Z.of_nat n + Z.of_nat t) = Some o /\
            Loader.valueAt nd symbol Loader.Close (Z.of_nat n + Z.of_nat t) = Some c.
Proof.
  intros S nd Hn.
  assert (Hanchor : Loader.anchors (length (Loader.allDatesOf rawData)) !! n
                    = Some (12 + Z.of_nat n)).
  { unfold Loader.anchors. apply forRange_lookup.
    unfold Loader.WINDOW_SIZE, Loader.PREDICTION_DAYS. lia. }
  exists (Loader.sampleAt nd (Loader.symbolsOf rawData) (12 + Z.of_nat n)),
         (Loader.labelAt nd (Loader.symbolsOf rawData) (12 + Z.of_nat n)).
  split; [|split; [|split; [|split]]].
  - unfold Loader.samplesOf. change (map ?g ?l) with (g <$> l).
    now rewrite list_lookup_fmap, Hanchor.
  - unfold Loader.labelsOf. change (map ?g ?l) with (g <$> l).
    now rewrite list_lookup_fmap, Hanchor.
  - unfold Loader.sampleAt. rewrite length_map, length_forRange.
    unfold Loader.WINDOW_SIZE. lia.
  - rewrite labelAt_runs. now apply length_bind_block.
  - intros t Ht.
    exists (Loader.timeStepAt nd (Loader.symbolsOf rawData) (Z.of_nat n + Z.of_nat t)).
    split; [|split].
    + unfold Loader.sampleAt. change (map ?g ?l) with (g <$> l).
      rewrite list_lookup_fmap, forRange_lookup by (unfold Loader.WINDOW_SIZE; lia).
      simpl. do 2 f_equal. unfold Loader.WINDOW_SIZE. lia.
    + rewrite timeStepAt_runs. now apply length_bind_block.
    + intros e symbol He.
      assert (Hsym : symbol ∈ Loader.symbolsOf rawData)
        by now apply list_elem_of_lookup_2 in He.
      assert (Hj : 0 <= Z.of_nat n + Z.of_nat t
                   < Z.of_nat (length (Loader.allDatesOf rawData))) by lia.
      destruct (valueAt_defined rawData symbol Loader.Open _ Hsym Hj) as [o Ho].
      destruct (valueAt_defined rawData symbol Loader.Close _ Hsym Hj) as [c Hc].
      exists o, c. fold nd in Ho, Hc. rewrite timeStepAt_runs.
      replace (e * 2)%nat with (e * 2 + 0)%nat at 1 by lia.
      rewrite !(bind_block_lookup _ 2 _ e _ symbol) by (auto; lia).
      simpl. rewrite Ho, Hc. auto.
Qed.

Lemma Sorted_adjacent {A : Type} (R : A -> A -> Prop) (l : list A) (i : nat) (x y : A) :
  Sorted R l -> l !! i = Some x -> l !! S i = Some y -> R x y.
Proof.
  intros Hs. revert i. induction Hs as [|a l Hs IH Hhd]; intros i Hx Hy; [easy|].
  destruct i as [|i]; simpl in Hx, Hy.
  - injection Hx as ->. destruct Hhd as [|b l' Hab]; [discriminate|].
    simpl in Hy. now injection Hy as ->.
  - now apply (IH i).
Qed.

(** X6.  [dateIndex] after [prepareData]: one entry per sample, the n-th being
    the date at axis position 12 + n (a real date, the first labelled day of
    the sample), so consecutive samples carry strictly increasing dates. *)
Theorem dateIndex_dates (rawData : list Loader.Row) (r : Loader.Prepared) :
  Loader.prepareData rawData = Ok r ->
  length (Loader.dateIndex r) = length (Loader.X_train r ++ Loader.X_test r) /\
  (forall n, (n < length (Loader.dateIndex r))%nat ->
     exists d, Loader.dateIndex r !! n = Some (Some d) /\
               Loader.allDatesOf rawData !! (12 + n)%nat = Some d) /\
  (forall n d d', Loader.dateIndex r !! n = Some (Some d) ->
                  Loader.dateIndex r !! S n = Some (Some d') ->
                  String.ltb d d' = true).
Proof.
  intros Hr. apply prepareData_Ok in Hr as ->.
  cbn [Loader.dateIndex Loader.X_train Loader.X_test Loader.prepared].
  set (allDates := Loader.allDatesOf rawData).
  assert (Hlen : length (map (at_ allDates) (Loader.anchors (length allDates)))
                 = Z.to_nat (Z.of_nat (length allDates) - 15)).
  { rewrite length_map. unfold Loader.anchors. rewrite length_forRange.
    unfold Loader.WINDOW_SIZE, Loader.PREDICTION_DAYS. lia. }
  assert (Hat : forall n, (n < Z.to_nat (Z.of_nat (length allDates) - 15))%nat ->
            map (at_ allDates) (Loader.anchors (length allDates)) !! n
            = Some (allDates !! (12 + n)%nat)).
  { intros n Hn. change (map ?g ?l) with (g <$> l).
    unfold Loader.anchors. rewrite list_lookup_fmap, forRange_lookup
      by (unfold Loader.WINDOW_SIZE, Loader.PREDICTION_DAYS; lia).
    simpl. unfold at_, Loader.WINDOW_SIZE.
    destruct (Z.ltb_spec (12 + Z.of_nat n) 0) as [Hneg|_]; [lia|].
    do 2 f_equal. lia. }
  split; [|split].
  - unfold split80, slice_to, slice_from. cbn [fst snd]. rewrite take_drop.
    unfold Loader.samplesOf. now rewrite !length_map.
  - intros n Hn. rewrite Hlen in Hn. rewrite (Hat n Hn).
    destruct (lookup_lt_is_Some_2 allDates (12 + n)%nat) as [d Hd]; [lia|].
    exists d. now rewrite Hd.
  - intros n d d' Hd Hd'.
    assert (Hn' : (S n < Z.to_nat (Z.of_nat (length allDates) - 15))%nat).
    { rewrite <- Hlen. now apply lookup_lt_Some in Hd'. }
    rewrite Hat in Hd, Hd' by lia.
    injection Hd as Hd. injection Hd' as Hd'.
    destruct (allDatesOf_axis rawData) as (Hs & _ & _).
    apply (Sorted_adjacent _ _ (12 + n)%nat d d' Hs Hd).
    now replace (S (12 + n))%nat with (12 + S n)%nat by lia.
Qed.

(** ** The parts of the split *)

(** The split at its edges: the train part is empty exactly when there are
    fewer than two samples, the test part only when there is none. *)
Lemma split80_edges {A : Type} (arr : list A) :
  ((split80 arr).1 = [] <-> (length arr <= 1)%nat) /\
  ((split80 arr).2 = [] <-> arr = []) /\
  (length arr <= 5 * length (split80 arr).2 < length arr + 5)%nat.
Proof.
  unfold split80, slice_to, slice_from. cbn [fst snd].
  pose proof (floor_08_bounds (length arr)) as Hb.
  pose proof (floor_08_le (length arr)) as Hle.
  split; [|split].
  - split.
    + intros H. apply (f_equal length) in H. rewrite length_take in H.
      simpl in H. lia.
    + intros H. apply nil_length_inv. rewrite length_take. lia.
  - split.
    + intros H. apply (f_equal length) in H. rewrite length_drop in H.
      simpl in H. apply nil_length_inv. lia.
    + intros ->. reflexivity.
  - rewrite length_drop. lia.
Qed.

(** ** Feature names *)

Lemma bind_block_index {A B : Type} (g : B -> list A) (m : nat) (l : list B) (k : nat) :
  (forall y, length (g y) = m) -> (k < length (l ≫= g))%nat ->
  exists e x r, l !! e = Some x /\ (r < m)%nat /\ k = (e * m + r)%nat.
Proof.
  intros Hlen. revert k. induction l as [|y l IH]; intros k Hk.
  - simpl in Hk. lia.
  - change ((y :: l) ≫= g) with (g y ++ (l ≫= g)) in Hk.
    rewrite length_app, Hlen in Hk. destruct (Nat.lt_ge_cases k m) as [Hlt|Hge].
    + exists 0%nat, y, k. repeat split; auto; lia.
    + destruct (IH (k - m)%nat) as (e & x & r & He & Hr & Hk'); [lia|].
      exists (S e), x, r. repeat split; auto; simpl; lia.
Qed.

(** X8.  [featureNames] names the columns of every time step: entry k is the
    name of a symbol followed by "_Open" or "_Close", and column k of the time
    step holds the normalised value of that symbol and field. *)
Theorem featureNames_label_columns
        (normalizedData : gmap string (Loader.Series num))
        (symbols : list string) (j : Z) :
  length (featureNamesOf symbols) = length (Loader.timeStepAt normalizedData symbols j) /\
  forall k name,
    featureNamesOf symbols !! k = Some name ->
    exists symbol f,
      symbol ∈ symbols /\ name = symbol +:+ fieldSuffix f /\
      Loader.timeStepAt normalizedData symbols j !! k =
        Some (Loader.valueAt normalizedData symbol f j).
Proof.
  rewrite timeStepAt_runs. unfold featureNamesOf. split.
  - now rewrite !(length_bind_block _ 2).
  - intros k name Hk.
    destruct (bind_block_index (fun symbol => [symbol +:+ "_Open"; symbol +:+ "_Close"])
                2 symbols k) as (e & symbol & r & He & Hr & ->);
      [auto|now apply lookup_lt_Some in Hk|].
    rewrite (bind_block_lookup _ 2 _ e r symbol) in Hk by auto.
    assert (Hin : symbol ∈ symbols) by now apply list_elem_of_lookup_2 in He.
    rewrite (bind_block_lookup _ 2 _ e r symbol) by auto.
    destruct r as [|[|r]]; [| |lia]; simpl in Hk; injection Hk as <-.
    + exists symbol, Loader.Open. auto.
    + exists symbol, Loader.Close. auto.
Qed.

(** ** The filled series *)

Lemma forwardFill_idempotent (lastValue : cell) (column : list cell) :
  Loader.forwardFill lastValue (Loader.forwardFill lastValue column)
  = Loader.forwardFill lastValue column.
Proof.
  revert lastValue. induction column as [|[v|] rest IH]; intros lastValue; simpl.
  - reflexivity.
  - now rewrite IH.
  - destruct lastValue as [w|]; simpl; now rewrite IH.
Qed.

(** X9.  The series of a symbol after the Gap Filler of [prepareData]: each
    array is the forward fill of the pivoted array, no hole is left at or
    after the first position that carries a value (holes can only precede the
    first quote of the symbol), and filling it again changes nothing. *)
Theorem filled_series_complete (rawData : list Loader.Row) (symbol : string) :
  symbol ∈ Loader.symbolsOf rawData ->
  exists p s,
    Loader.pivotOf rawData !! symbol = Some p /\
    Loader.filledOf rawData !! symbol = Some s /\
    forall f,
      Loader.col s f = Loader.forwardFill None (Loader.col p f) /\
      length (Loader.col s f) = length (Loader.allDatesOf rawData) /\
      (forall i j v,
          (j <= i < length (Loader.allDatesOf rawData))%nat ->
          Loader.col p f !! j = Some (Some v) ->
          exists w, Loader.col s f !! i = Some (Some w)) /\
      Loader.forwardFill None (Loader.col s f) = Loader.col s f.
Proof.
  intros Hin. destruct (pivotOf_holds rawData) as [_ Hp].
  destruct (Hp _ Hin) as (p & Hpv & Hcols).
  exists p. eexists. split; [exact Hpv|]. split.
  - rewrite filledOf_lookup, Hpv by exact Hin. reflexivity.
  - intros f. rewrite col_perField. destruct (Hcols f) as [Hlen _].
    split; [reflexivity|]. split; [now rewrite length_forwardFill|]. split.
    + intros i j v Hij Hj.
      destruct (forwardFill_at (Loader.col p f) i) as (Hl & Hhole & _).
      destruct (lookup_lt_is_Some_2 (Loader.forwardFill None (Loader.col p f)) i)
        as [[w|] Hw]; [rewrite Hl, Hlen; lia|now exists w|].
      apply Hhole in Hw as [_ Hall]. rewrite Hall in Hj by lia. discriminate.
    + apply forwardFill_idempotent.
Qed.

(** ** [createSequences]: errors and shapes *)

Lemma baseOk_true (pivot : gmap string (gmap string Sequences.Quote))
      (dates symbols : list string) (ok : bool) (i : Z) :
  Sequences.baseOk pivot dates symbols ok i = true ->
  ok = true /\
  forall sym, sym ∈ symbols ->
              exists c, Sequences.closeOn pivot (at_ dates i) sym = Some c.
Proof.
  unfold Sequences.baseOk. revert ok.
  induction symbols as [|x symbols IH]; intros ok Hok; simpl in Hok.
  - split; [exact Hok|]. intros sym H. inversion H.
  - destruct (Sequences.closeOn pivot (at_ dates i) x) as [c|] eqn:Hx.
    + destruct (IH _ Hok) as [-> Hall]. split; [reflexivity|].
      intros sym Hsym. apply elem_of_cons in Hsym as [->|Hsym]; [eauto|auto].
    + fold (Sequences.baseOk pivot dates symbols false i) in Hok.
      rewrite baseOk_absorbs in Hok. discriminate.
Qed.

Lemma sequenceAt_Some (pivot : gmap string (gmap string Sequences.Quote))
      (dates symbols : list string) (windowBlock : Z -> bool * list (list num))
      (inputLen outputLen i : Z) (x : list (list num)) (labels : list Z) :
  Sequences.sequenceAt pivot dates symbols windowBlock inputLen outputLen i
    = Some (x, labels) ->
  windowBlock i = (true, x) /\
  Z.of_nat (length x) = inputLen /\
  (forall sym, sym ∈ symbols ->
               exists c, Sequences.closeOn pivot (at_ dates i) sym = Some c) /\
  labels = Sequences.labelsAt pivot dates symbols outputLen i /\
  Z.of_nat (length labels) = Z.of_nat (length symbols) * outputLen.
Proof.
  unfold Sequences.sequenceAt. destruct (windowBlock i) as [ok w].
  destruct ok; simpl; [|discriminate].
  destruct (Z.eqb_spec (Z.of_nat (length w)) inputLen) as [Hw|]; [|discriminate].
  simpl.
  destruct (Sequences.baseOk pivot dates symbols true i) eqn:Hb; [|discriminate].
  simpl.
  destruct (Z.eqb_spec (Z.of_nat (length (Sequences.labelsAt pivot dates symbols
                                                              outputLen i)))
                       (Z.of_nat (length symbols) * outputLen)) as [Hl|];
    [|discriminate].
  simpl. intros H. injection H as <- <-.
  apply baseOk_true in Hb as [_ Hall]. auto.
Qed.



(** What the tensor constructions of a loader give: the four parts, or the
    error of the first construction that throws, which is never the loader's
    own message. *)
Lemma tensors_outcome {A B C : Type} (Xa Xb : list (list (list A)))
      (ya yb : list (list B)) (k : list (list (list A)) -> list (list B) ->
                                 list (list (list A)) -> list (list B) -> C) :
  (X_train ← tensor3d Xa; y_train ← tensor2d ya;
   X_test ← tensor3d Xb; y_test ← tensor2d yb;
   Ok (k X_train y_train X_test y_test)) = Ok (k Xa ya Xb yb) \/
  exists message,
    (X_train ← tensor3d Xa; y_train ← tensor2d ya;
     X_test ← tensor3d Xb; y_test ← tensor2d yb;
     Ok (k X_train y_train X_test y_test)) = Throw message /\
    message <> "No valid sequences generated" /\ message <> "No data loaded".
Proof.
  destruct Xa as [|[|? ?] ?]; try (right; eexists; split; [reflexivity|easy]).
  destruct ya as [|? ?]; try (right; eexists; split; [reflexivity|easy]).
  destruct Xb as [|[|? ?] ?]; try (right; eexists; split; [reflexivity|easy]).
  destruct yb as [|? ?]; try (right; eexists; split; [reflexivity|easy]).
  left. reflexivity.
Qed.


(** X11.  When [createSequences] returns, the two input tensors and the two
    label matrices pair up and neither part is empty; every input
    sequence has inputLen steps, every label vector has one entry per symbol
    and offset, the symbols are returned unchanged, and every emitted sample
    comes from a position at which each symbol has a base close. *)
Theorem createSequences_shapes
        (pivot : gmap string (gmap string Sequences.Quote))
        (dates symbols : list string) (windowBlock : Z -> bool * list (list num))
        (inputLen outputLen : Z) (t : Sequences.Tensors) :
  Sequences.createSequences pivot dates symbols windowBlock inputLen outputLen
    = Ok (Some t) ->
  length (Sequences.X_train t) = length (Sequences.y_train t) /\
  length (Sequences.X_test t) = length (Sequences.y_test t) /\
  Sequences.X_train t <> [] /\
  Sequences.X_test t <> [] /\
  Sequences.out_symbols t = symbols /\
  (forall x, x ∈ Sequences.X_train t ++ Sequences.X_test t ->
             Z.of_nat (length x) = inputLen) /\
  (forall labels, labels ∈ Sequences.y_train t ++ Sequences.y_test t ->
     Z.of_nat (length labels) = Z.of_nat (length symbols) * outputLen /\
     exists i, i ∈ Sequences.candidates dates inputLen outputLen /\
       labels = Sequences.labelsAt pivot dates symbols outputLen i /\
       forall sym, sym ∈ symbols ->
         exists c, Sequences.closeOn pivot (at_ dates i) sym = Some c).
Proof.
  intros Ht.
  apply createSequences_run in Ht as (-> & -> & -> & -> & -> & Htrain & Htest).
  set (produced := Sequences.produced _ _ _ _ _ _) in *.
  split; [|split; [|split; [exact Htrain|split; [exact Htest|]]]].
  1, 2: unfold split80, slice_to, slice_from; cbn [fst snd];
    rewrite ?length_take, ?length_drop, !length_map; reflexivity.
  unfold split80, slice_to, slice_from. cbn [fst snd]. rewrite !take_drop.
  split; [reflexivity|]. split.
  - intros x Hx. apply list_elem_of_In, in_map_iff in Hx as ([x' l] & <- & Hin).
    apply list_elem_of_In, list_elem_of_omap in Hin as (i & _ & Hi).
    now apply sequenceAt_Some in Hi.
  - intros labels Hl. apply list_elem_of_In, in_map_iff in Hl as ([x l] & <- & Hin).
    apply list_elem_of_In, list_elem_of_omap in Hin as (i & Hc & Hi).
    apply sequenceAt_Some in Hi as (_ & _ & Hbase & Hlab & Hlen).
    split; [exact Hlen|]. exists i. auto.
Qed.

(** X12.  The label vector of [createSequences] is laid out offset by offset:
    for the o-th offset (the date at position i + 1 + o) and the e-th symbol,
    entry o * |symbols| + e is 1 exactly when the close on that date strictly
    exceeds the close on the date at position i. Column c is therefore the
    label of symbol c mod |symbols| at offset c / |symbols|. *)
Theorem labelsAt_offset_major
        (pivot : gmap string (gmap string Sequences.Quote))
        (dates symbols : list string) (outputLen i : Z) :
  length (Sequences.labelsAt pivot dates symbols outputLen i)
    = (Z.to_nat outputLen * length symbols)%nat /\
  (forall o e sym,
      (o < Z.to_nat outputLen)%nat -> symbols !! e = Some sym ->
      Sequences.labelsAt pivot dates symbols outputLen i !! (o * length symbols + e)%nat
      = Some (if js_gt (Sequences.closeOn pivot (at_ dates (i + 1 + Z.of_nat o)) sym)
                       (Sequences.closeOn pivot (at_ dates i) sym)
              then 1 else 0)) /\
  (forall c sym,
      (c < Z.to_nat outputLen * length symbols)%nat ->
      symbols !! (c mod length symbols)%nat = Some sym ->
      Sequences.labelsAt pivot dates symbols outputLen i !! c
      = Some (if js_gt (Sequences.closeOn pivot
                          (at_ dates (i + 1 + Z.of_nat (c / length symbols))) sym)
                       (Sequences.closeOn pivot (at_ dates i) sym)
              then 1 else 0)).
Proof.
  assert (Hrun : forall off, length (sequencesRun pivot dates symbols i off)
                             = length symbols).
  { intros off. unfold sequencesRun. apply length_map. }
  assert (Hat : forall o e sym,
      (o < Z.to_nat outputLen)%nat -> symbols !! e = Some sym ->
      Sequences.labelsAt pivot dates symbols outputLen i !! (o * length symbols + e)%nat
      = Some (if js_gt (Sequences.closeOn pivot (at_ dates (i + 1 + Z.of_nat o)) sym)
                       (Sequences.closeOn pivot (at_ dates i) sym)
              then 1 else 0)).
  { intros o e sym Ho He. rewrite labelsAt_runs.
    rewrite (bind_block_lookup _ (length symbols) _ o e (1 + Z.of_nat o)).
    - unfold sequencesRun. change (map ?g ?l) with (g <$> l).
      rewrite list_lookup_fmap, He. cbn [fmap option_fmap option_map].
      now replace (i + (1 + Z.of_nat o)) with (i + 1 + Z.of_nat o) by lia.
    - exact Hrun.
    - unfold forRangeIncl. apply forRange_lookup. lia.
    - now apply lookup_lt_Some in He. }
  split; [|split; [exact Hat|]].
  - rewrite labelsAt_runs, (length_bind_block _ (length symbols)) by exact Hrun.
    unfold forRangeIncl. rewrite length_forRange. f_equal. lia.
  - intros c sym Hc Hsym.
    assert (Hpos : (0 < length symbols)%nat) by (destruct symbols; simpl in *; lia).
    pose proof (Nat.div_mod c (length symbols) ltac:(lia)) as Hdm.
    pose proof (Nat.mod_upper_bound c (length symbols) ltac:(lia)) as Hmod.
    assert (Ho : (c / length symbols < Z.to_nat outputLen)%nat).
    { apply Nat.Div0.div_lt_upper_bound. lia. }
    rewrite <- (Hat _ _ _ Ho Hsym). f_equal. lia.
Qed.

(** ** [computeMinMax] and [norm] *)






(** ** The evaluators: range, failure, agreement *)

Lemma length_filter_le {A : Type} (f : A -> bool) (l : list A) :
  (length (List.filter f l) <= length l)%nat.
Proof.
  induction l as [|x l IH]; simpl; [lia|]. destruct (f x); simpl; lia.
Qed.

Lemma ratio_unit (c t : nat) :
  (c <= t)%nat -> (0 < t)%nat -> in_unit (num_div (ofNat c) (ofNat t)).
Proof.
  intros Hct Ht. unfold ofNat, ofZ.
  assert (Hpos : (0 < inject_Z (Z.of_nat t))%Q).
  { change 0%Q with (inject_Z 0). rewrite <- Zlt_Qlt. lia. }
  assert (Hc0 : (0 <= inject_Z (Z.of_nat c))%Q).
  { change 0%Q with (inject_Z 0). rewrite <- Zle_Qle. lia. }
  assert (Hle : (inject_Z (Z.of_nat c) <= inject_Z (Z.of_nat t))%Q).
  { rewrite <- Zle_Qle. lia. }
  assert (Hz : Qeq_bool (inject_Z (Z.of_nat t)) 0 = false).
  { destruct (Qeq_bool (inject_Z (Z.of_nat t)) 0) eqn:Hz; [|reflexivity].
    apply Qeq_bool_iff in Hz. lra. }
  assert (H0 : (0 <= inject_Z (Z.of_nat c) / inject_Z (Z.of_nat t))%Q)
    by (apply Qle_shift_div_l; lra).
  assert (H1 : (inject_Z (Z.of_nat c) / inject_Z (Z.of_nat t) <= 1)%Q)
    by (apply Qle_shift_div_r; lra).
  unfold num_div. rewrite Hz, rounded_unit by assumption.
  eexists. split; [reflexivity|]. rewrite Qred_correct. now split.
Qed.

(** X14.  With at least one sample and one horizon day, the accuracy that
    either evaluator reports for an entity is a finite number between 0 and 1,
    and [evaluatePerStock] lists one record per sample and horizon day. *)
Theorem accuracy_in_unit (yTrue yPred : list (list num)) (symbols : list string)
        (horizon idx : nat) (sym : string) :
  length yTrue = length yPred -> (1 <= length yTrue)%nat -> (1 <= horizon)%nat ->
  NoDup symbols -> symbols !! idx = Some sym ->
  (exists ev a preds,
      Gru.evaluatePerStock yTrue yPred symbols horizon = Some ev /\
      Gru.stockAccuracies ev !! sym = Some a /\ in_unit a /\
      Gru.stockPredictions ev !! sym = Some preds /\
      length preds = (length yTrue * horizon)%nat) /\
  (exists acc a,
      Model.computePerStockAccuracy yPred yTrue symbols horizon = Some acc /\
      acc !! sym = Some a /\ in_unit a).
Proof.
  intros Hlen Hn Hh Hnd Hidx.
  assert (Hunit : in_unit (spec_accuracy yTrue yPred (length yTrue) horizon idx)).
  { unfold spec_accuracy. apply ratio_unit; [apply length_filter_le|].
    rewrite length_block. nia. }
  split.
  - destruct (evaluatePerStock_accuracy yTrue yPred symbols horizon idx sym)
      as (ev & Hev & Hacc & Hpreds); [lia|exact Hnd|exact Hidx|].
    exists ev. eexists _, _. split; [exact Hev|]. split; [exact Hacc|].
    split; [exact Hunit|]. split; [exact Hpreds|].
    now rewrite length_map, length_block.
  - destruct (computePerStockAccuracy_accuracy yPred yTrue symbols horizon idx sym)
      as (acc & Hacc & Hget); [lia|exact Hnd|exact Hidx|].
    exists acc. eexists. split; [exact Hacc|]. rewrite Hget, <- Hlen.
    split; [reflexivity|exact Hunit].
Qed.

Lemma foldl_opt_app {S A : Type} (f : S -> A -> option S) (s : S) (l1 l2 : list A) :
  foldl_opt f s (l1 ++ l2) =
  match foldl_opt f s l1 with
  | Some s' => foldl_opt f s' l2
  | None => None
  end.
Proof.
  revert s. induction l1 as [|a l1 IH]; intros s; [reflexivity|].
  simpl. destruct (f s a); [apply IH|reflexivity].
Qed.

Lemma gru_stockLoop_fails (yTrue yPred : list (list num)) (idx horizon : nat) :
  (length yPred < length yTrue)%nat -> (0 < horizon)%nat ->
  Gru.stockLoop yTrue yPred idx horizon = None.
Proof.
  intros Hlen Hh. unfold Gru.stockLoop.
  replace (length yTrue) with (length yPred + (length yTrue - length yPred))%nat by lia.
  rewrite seq_app, foldl_opt_app, gru_visit_samples.
  - cbv zeta. destruct (length yTrue - length yPred)%nat as [|k] eqn:Hk; [lia|].
    destruct horizon as [|h]; [lia|]. simpl.
    destruct (yTrue !! length yPred); [|reflexivity].
    now rewrite (proj2 (lookup_ge_None yPred (length yPred))) by lia.
  - intros s Hs. apply list_elem_of_In, in_seq in Hs.
    split; apply lookup_lt_is_Some; lia.
Qed.

Lemma model_visit_missing (predData trueData : list (list num))
      (idx days_ s : nat) (st : nat * nat) (day : nat) :
  trueData !! s = None -> Model.visit predData trueData idx days_ s st day = None.
Proof. intros H. unfold Model.visit. rewrite H. now destruct (predData !! s). Qed.

Lemma model_stockLoop_fails (predData trueData : list (list num)) (idx days_ : nat) :
  (length trueData < length predData)%nat -> (0 < days_)%nat ->
  Model.stockLoop predData trueData idx days_ = None.
Proof.
  intros Hlen Hh. unfold Model.stockLoop.
  replace (length predData)
    with (length trueData + (length predData - length trueData))%nat by lia.
  rewrite seq_app, foldl_opt_app, model_visit_samples.
  - cbv zeta. destruct (length predData - length trueData)%nat as [|k] eqn:Hk; [lia|].
    destruct days_ as [|h]; [lia|]. cbn [seq foldl_opt].
    now rewrite model_visit_missing by (apply lookup_ge_None; lia).
  - intros s Hs. apply list_elem_of_In, in_seq in Hs.
    split; apply lookup_lt_is_Some; lia.
Qed.

(** X15.  When the matrix an evaluator indexes second has fewer rows than the
    one it loops over, the first missing row raises a TypeError and nothing is
    returned, for any non-empty list of symbols and a positive horizon; with
    horizon 0 no row is read and the evaluator returns. *)
Theorem evaluators_fail_on_short_matrix (long short : list (list num))
        (sym : string) (symbols : list string) (horizon : nat) :
  (length short < length long)%nat ->
  ((0 < horizon)%nat ->
   Gru.evaluatePerStock long short (sym :: symbols) horizon = None /\
   Model.computePerStockAccuracy long short (sym :: symbols) horizon = None) /\
  (exists ev acc,
      Gru.evaluatePerStock long short (sym :: symbols) 0 = Some ev /\
      Model.computePerStockAccuracy long short (sym :: symbols) 0 = Some acc).
Proof.
  intros Hlen. split.
  - intros Hh. split.
    + unfold Gru.evaluatePerStock. simpl.
      now rewrite gru_stockLoop_fails.
    + unfold Model.computePerStockAccuracy. simpl.
      now rewrite model_stockLoop_fails.
  - assert (HG : forall idx, Gru.stockLoop long short idx 0
                             = Some (0%nat, 0%nat, [])).
    { intros idx. unfold Gru.stockLoop. generalize (0%nat, 0%nat, @nil Gru.Pred).
      induction (seq 0 (length long)) as [|s l IH]; intros st; [reflexivity|].
      simpl. apply IH. }
    assert (HM : forall idx, Model.stockLoop long short idx 0 = Some (0%nat, 0%nat)).
    { intros idx. unfold Model.stockLoop. generalize (0%nat, 0%nat).
      induction (seq 0 (length long)) as [|s l IH]; intros st; [reflexivity|].
      simpl. apply IH. }
    destruct (foldl_opt_writes
                (fun ev p => match Gru.stockLoop long short p.1 0 with
                             | Some (correct, total, preds) =>
                                 Some {| Gru.stockAccuracies :=
                                           <[p.2 := num_div (ofNat correct) (ofNat total)]>
                                             (Gru.stockAccuracies ev);
                                         Gru.stockPredictions :=
                                           <[p.2 := preds]> (Gru.stockPredictions ev) |}
                             | None => None
                             end)
                (fun ev key => Gru.stockAccuracies ev !! key) (fun _ => NaN)
                (zip (seq 0 (length (sym :: symbols))) (sym :: symbols))
                {| Gru.stockAccuracies := ∅; Gru.stockPredictions := ∅ |})
      as (ev & Hev & _).
    { intros st p _. rewrite HG. eexists. split; [reflexivity|]. intros key. simpl.
      change (num_div (ofNat 0) (ofNat 0)) with NaN. rewrite lookup_insert.
      destruct (decide (p.2 = key)), (decide (key = p.2));
        first [congruence | reflexivity]. }
    destruct (foldl_opt_writes
                (fun acc p => match Model.stockLoop long short p.1 0 with
                              | Some (correct, total) =>
                                  Some (<[p.2 := num_div (ofNat correct) (ofNat total)]> acc)
                              | None => None
                              end)
                (fun (acc : gmap string num) key => acc !! key) (fun _ => NaN)
                (zip (seq 0 (length (sym :: symbols))) (sym :: symbols)) ∅)
      as (acc & Hacc & _).
    { intros st p _. rewrite HM. eexists. split; [reflexivity|]. intros key. simpl.
      change (num_div (ofNat 0) (ofNat 0)) with NaN. rewrite lookup_insert.
      destruct (decide (p.2 = key)), (decide (key = p.2));
        first [congruence | reflexivity]. }
    exists ev, acc. split; [exact Hev|exact Hacc].
Qed.

Lemma evaluators_agree_fold (yTrue yPred : list (list num)) (horizon : nat)
      (ps : list (nat * string)) (ev : Gru.Evaluation) :
  length yTrue = length yPred ->
  foldl_opt (fun stockAccuracies p =>
               match Model.stockLoop yPred yTrue p.1 horizon with
               | Some (correct, total) =>
                   Some (<[p.2 := num_div (ofNat correct) (ofNat total)]>
                           stockAccuracies)
               | None => None
               end) (Gru.stockAccuracies ev) ps =
  Gru.stockAccuracies <$>
    foldl_opt (fun ev p =>
                 match Gru.stockLoop yTrue yPred p.1 horizon with
                 | Some (correct, total, preds) =>
                     Some {| Gru.stockAccuracies :=
                               <[p.2 := num_div (ofNat correct) (ofNat total)]>
                                 (Gru.stockAccuracies ev);
                             Gru.stockPredictions :=
                               <[p.2 := preds]> (Gru.stockPredictions ev) |}
                 | None => None
                 end) ev ps.
Proof.
  intros Hlen. revert ev. induction ps as [|p ps IH]; intros ev; [reflexivity|].
  simpl. rewrite model_stockLoop, gru_stockLoop by lia. rewrite <- Hlen.
  apply (IH {| Gru.stockAccuracies := _; Gru.stockPredictions := _ |}).
Qed.

(** X16.  The two accuracy evaluators agree: on matrices with the same number
    of rows, [computePerStockAccuracy] returns exactly the accuracy map of
    [evaluatePerStock], for any list of symbols and any horizon. *)
Theorem evaluators_agree (yTrue yPred : list (list num)) (symbols : list string)
        (horizon : nat) :
  length yTrue = length yPred ->
  Model.computePerStockAccuracy yPred yTrue symbols horizon =
  Gru.stockAccuracies <$> Gru.evaluatePerStock yTrue yPred symbols horizon.
Proof.
  intros Hlen. unfold Model.computePerStockAccuracy, Gru.evaluatePerStock.
  apply (evaluators_agree_fold yTrue yPred horizon _
           {| Gru.stockAccuracies := ∅; Gru.stockPredictions := ∅ |} Hlen).
Qed.

(** ** The prediction timeline *)

Lemma sampleResult_days (predData trueData : list (list num))
      (idx days_ s : nat) (rowPred rowTrue : list num)
      (days : list nat) (res : list Model.Entry) :
  predData !! s = Some rowPred -> trueData !! s = Some rowTrue ->
  foldl_opt (fun res day =>
               let predIdx := (idx * days_ + day)%nat in
               match predData !! s, trueData !! s with
               | Some rowPred, Some rowTrue =>
                   let predicted := above_half (rowPred !! predIdx) in
                   let actual := rowTrue !! predIdx in
                   Some (res ++ [{| Model.predicted := predicted;
                                    Model.actual := actual;
                                    Model.correct := strict_eq actual predicted |}])
               | _, _ => None
               end) res days =
  Some (res ++ map (fun day => modelEntry trueData predData (s, (idx * days_ + day)%nat))
                   days).
Proof.
  intros HP HT. set (step := fun (res : list Model.Entry) (day : nat) => _).
  assert (Hstep : forall acc day,
            step acc day =
            Some (acc ++ [modelEntry trueData predData (s, (idx * days_ + day)%nat)])).
  { intros acc day. subst step. cbv beta zeta. rewrite HP, HT.
    unfold modelEntry, hit, cellAt. simpl. now rewrite HP, HT. }
  clearbody step. revert res. induction days as [|d days IH]; intros res.
  - simpl. now rewrite app_nil_r.
  - simpl. rewrite Hstep, IH, <- app_assoc. reflexivity.
Qed.

Lemma timeline_rows (predData trueData : list (list num)) (idx days_ : nat)
      (ss : list nat) (rows : list (list Model.Entry)) :
  (forall s, s ∈ ss -> is_Some (predData !! s) /\ is_Some (trueData !! s)) ->
  foldl_opt (fun rows sample =>
               match Model.sampleResult predData trueData idx days_ sample with
               | Some r => Some (rows ++ [r])
               | None => None
               end) rows ss =
  Some (rows ++ map (fun s => map (fun day => modelEntry trueData predData
                                                (s, (idx * days_ + day)%nat))
                                  (seq 0 days_)) ss).
Proof.
  revert rows. induction ss as [|s ss IH]; intros rows Hrows.
  - simpl. now rewrite app_nil_r.
  - destruct (Hrows s) as [[rowPred HP] [rowTrue HT]]; [left|].
    simpl. unfold Model.sampleResult at 1.
    rewrite (sampleResult_days _ _ _ _ _ rowPred rowTrue) by assumption.
    rewrite IH by (intros s' Hs'; apply Hrows; now right).
    now rewrite <- app_assoc.
Qed.

Lemma concat_map_bind {A B C : Type} (f : B -> C) (g : A -> list B) (l : list A) :
  concat (map (fun x => map f (g x)) l) = map f (l ≫= g).
Proof.
  induction l as [|x l IH]; [reflexivity|].
  change ((x :: l) ≫= g) with (g x ++ (l ≫= g)).
  simpl. now rewrite map_app, IH.
Qed.

Lemma filter_map_length {A B : Type} (f : A -> B) (p : B -> bool) (l : list A) :
  length (List.filter p (map f l)) = length (List.filter (fun x => p (f x)) l).
Proof.
  induction l as [|x l IH]; [reflexivity|]. simpl.
  destruct (p (f x)); simpl; now rewrite IH.
Qed.

(** X17.  The timeline of an entity has one row per sample, in sample order,
    and each row has one record per horizon day, the record of day d of sample
    s being that of column idx * days + d. The accuracy that
    [computePerStockAccuracy] reports for the entity is the number of records
    marked correct in its timeline divided by the number of records. *)
Theorem timeline_rows_and_accuracy (predData trueData : list (list num))
        (symbols : list string) (predictionDays idx : nat) (sym : string) :
  (length predData <= length trueData)%nat -> NoDup symbols ->
  symbols !! idx = Some sym ->
  exists timeline rows acc,
    Model.getPredictionTimeline predData trueData symbols predictionDays
      = Some timeline /\
    timeline !! sym = Some rows /\
    length rows = length predData /\
    (forall s row, rows !! s = Some row ->
       length row = predictionDays /\
       forall d, (d < predictionDays)%nat ->
                 row !! d = Some (modelEntry trueData predData
                                             (s, (idx * predictionDays + d)%nat))) /\
    Model.computePerStockAccuracy predData trueData symbols predictionDays
      = Some acc /\
    acc !! sym =
      Some (num_div (ofNat (length (List.filter Model.correct (concat rows))))
                    (ofNat (length (concat rows)))).
Proof.
  intros Hlen Hnd Hidx.
  set (rowsOf := fun i : nat =>
         map (fun s => map (fun day => modelEntry trueData predData
                                         (s, (i * predictionDays + day)%nat))
                           (seq 0 predictionDays))
             (seq 0 (length predData))).
  assert (Hkeys : NoDup (map snd (zip (seq 0 (length symbols)) symbols)))
    by now rewrite zip_seq_keys.
  assert (Hin : (idx, sym) ∈ zip (seq 0 (length symbols)) symbols)
    by (apply (zip_seq_elem symbols 0 idx sym Hidx)).
  unfold Model.getPredictionTimeline.
  destruct (foldl_opt_writes
              (fun timeline p =>
                 match foldl_opt (fun rows sample =>
                          match Model.sampleResult predData trueData p.1
                                                   predictionDays sample with
                          | Some r => Some (rows ++ [r])
                          | None => None
                          end) [] (seq 0 (length predData)) with
                 | Some rows => Some (<[p.2 := rows]> timeline)
                 | None => None
                 end)
              (fun (timeline : gmap string (list (list Model.Entry))) key =>
                 timeline !! key)
              rowsOf (zip (seq 0 (length symbols)) symbols) ∅)
    as (timeline & Htl & Hget).
  { intros st p _. rewrite timeline_rows.
    - eexists. split; [reflexivity|]. intros key. simpl. rewrite lookup_insert.
      destruct (decide (p.2 = key)), (decide (key = p.2));
        first [congruence | reflexivity].
    - intros s Hs. apply list_elem_of_In, in_seq in Hs.
      split; apply lookup_lt_is_Some; lia. }
  destruct (computePerStockAccuracy_accuracy predData trueData symbols
              predictionDays idx sym Hlen Hnd Hidx) as (acc & Hacc & Hsym).
  exists timeline, (rowsOf idx), acc.
  split; [exact Htl|]. split.
  { rewrite Hget. now apply (last_write_NoDup rowsOf). }
  split; [subst rowsOf; cbv beta; now rewrite length_map, length_seq|].
  split; [|split; [exact Hacc|]].
  - intros s row Hrow. subst rowsOf. cbv beta in Hrow.
    change (map ?g ?l) with (g <$> l) in Hrow.
    rewrite list_lookup_fmap in Hrow.
    destruct (seq 0 (length predData) !! s) as [s'|] eqn:Hs; [|discriminate].
    apply lookup_seq in Hs as [-> _]. injection Hrow as <-. split.
    + now rewrite length_fmap, length_seq.
    + intros d Hd. change (map ?g ?l) with (g <$> l).
      rewrite !list_lookup_fmap, lookup_seq_lt by exact Hd. reflexivity.
  - assert (Hc : concat (rowsOf idx) =
                 map (modelEntry trueData predData)
                     (block (length predData) predictionDays idx)).
    { unfold block. rewrite <- concat_map_bind. subst rowsOf. cbv beta.
      f_equal. apply map_ext. intros s. now rewrite map_map. }
    rewrite Hsym, Hc. unfold spec_accuracy.
    now rewrite filter_map_length, length_map.
Qed.

(** ** The range of the tensor entries *)

Lemma forwardFill_elems (lastValue : cell) (column : list cell) (c : cell) :
  c ∈ Loader.forwardFill lastValue column -> c = lastValue \/ c ∈ column.
Proof.
  revert lastValue. induction column as [|[v|] rest IH]; intros lastValue Hc;
    simpl in Hc.
  - inversion Hc.
  - apply elem_of_cons in Hc as [->|Hc]; [right; left|].
    apply IH in Hc as [->|Hc]; right; [left|now right].
  - apply elem_of_cons in Hc as [->|Hc]; [now left|].
    apply IH in Hc as [->|Hc]; [now left|right; now right].
Qed.

(** X18.  For a symbol and field whose pivoted values are finite, not all
    equal, and of a range that does not overflow, every normalised value
    that [prepareData] can put into a tensor, at any axis position, is a
    finite number between 0 and 1, holes included. *)
Theorem tensor_entries_in_unit (rawData : list Loader.Row) (symbol : string)
        (p : Loader.Series cell) (f : Loader.field) (a b : Q) (j : Z) :
  symbol ∈ Loader.symbolsOf rawData ->
  Loader.pivotOf rawData !! symbol = Some p ->
  (forall c, c ∈ Loader.col p f -> c = None \/ exists q, c = Some (Fin q)) ->
  Some (Fin a) ∈ Loader.col p f -> Some (Fin b) ∈ Loader.col p f -> ~ (a == b)%Q ->
  (forall x y, Some (Fin x) ∈ Loader.col p f -> Some (Fin y) ∈ Loader.col p f ->
               (x - y < overflow_bound)%Q) ->
  0 <= j < Z.of_nat (length (Loader.allDatesOf rawData)) ->
  exists v, Loader.valueAt (Loader.normalizedOf rawData) symbol f j = Some v /\
            in_unit v.
Proof.
  intros Hsym Hp Hfin Ha Hb Hab Hrange Hj.
  set (filled := Loader.forwardFill None (Loader.col p f)).
  assert (Hkeep : forall q, Some (Fin q) ∈ Loader.col p f -> Some (Fin q) ∈ filled).
  { intros q Hq. apply list_elem_of_lookup in Hq as [i Hi].
    apply (list_elem_of_lookup_2 _ i).
    apply (forwardFill_at (Loader.col p f) i). exists i. split; [lia|].
    split; [exact Hi|]. intros k Hk. lia. }
  assert (Hfin' : forall c, c ∈ filled -> c = None \/ exists q, c = Some (Fin q)).
  { intros c Hc. apply forwardFill_elems in Hc as [->|Hc]; [now left|auto]. }
  assert (Hin' : forall q, Some (Fin q) ∈ filled -> Some (Fin q) ∈ Loader.col p f).
  { intros q Hq. apply forwardFill_elems in Hq as [Hq|Hq]; [discriminate|exact Hq]. }
  destruct (normalizeColumn_scaled filled Hfin')
    as (Hlen & Hhole & Hval & _).
  { exists a, b. auto. }
  { intros x y Hx Hy. apply Hrange; now apply Hin'. }
  destruct (pivotOf_holds rawData) as [_ Hpiv].
  destruct (Hpiv _ Hsym) as (p' & Hp' & Hcols).
  assert (p' = p) as -> by congruence. destruct (Hcols f) as [Hplen _].
  unfold Loader.valueAt.
  rewrite normalizedOf_lookup, filledOf_lookup, Hp by exact Hsym.
  cbn [fmap option_fmap option_map]. rewrite !col_perField. fold filled.
  unfold at_. destruct (Z.ltb_spec j 0) as [Hneg|_]; [lia|].
  destruct (lookup_lt_is_Some_2 filled (Z.to_nat j)) as [c Hc].
  { subst filled. rewrite length_forwardFill, Hplen. lia. }
  destruct (Hfin' c (list_elem_of_lookup_2 _ _ _ Hc)) as [->|[q ->]].
  - rewrite (Hhole _ Hc). eexists. split; [reflexivity|].
    exists 0%Q. repeat split; [apply Qle_refl|discriminate].
  - destruct (Hval _ _ Hc) as (r & Hr & H0 & H1). rewrite Hr.
    eexists. split; [reflexivity|]. exists r. auto.
Qed.

(** ** The datasets of the timeline chart *)

Lemma zip_seq_lookup {A : Type} (l : list A) (a i : nat) (v : A) :
  (i, v) ∈ zip (seq a (length l)) l <-> exists k, i = (a + k)%nat /\ l !! k = Some v.
Proof.
  revert a. induction l as [|h l IH]; intros a; simpl.
  - split; [intros H; inversion H | intros (k & _ & H); discriminate].
  - rewrite elem_of_cons, IH. split.
    + intros [H | (k & -> & H)].
      * inversion H; subst. exists 0%nat. split; [lia | reflexivity].
      * exists (S k). split; [lia | exact H].
    + intros ([|k] & -> & H).
      * left. simpl in H. inversion H; subst. f_equal. lia.
      * right. exists k. split; [lia | exact H].
Qed.

Lemma splitPoints_fold (s : nat) (ps : list (nat * Model.Entry))
      (pts : list Charts.Point * list Charts.Point) :
  foldl (fun pts p =>
           if Model.correct p.2
           then (pts.1 ++ [{| Charts.x := p.1; Charts.y := s |}], pts.2)
           else (pts.1, pts.2 ++ [{| Charts.x := p.1; Charts.y := s |}]))
        pts ps
  = (pts.1 ++ ((fun p => {| Charts.x := p.1; Charts.y := s |})
                 <$> List.filter (fun p => Model.correct p.2) ps),
     pts.2 ++ ((fun p => {| Charts.x := p.1; Charts.y := s |})
                 <$> List.filter (fun p => negb (Model.correct p.2)) ps)).
Proof.
  revert pts. induction ps as [|p ps IH]; intros [cp ip]; simpl.
  - rewrite !app_nil_r. reflexivity.
  - destruct (Model.correct p.2); simpl; rewrite IH; simpl;
      rewrite <- ?app_assoc; reflexivity.
Qed.

Lemma splitPoints_elem (s : nat) (sample : list Model.Entry) (pt : Charts.Point)
      (b : bool) :
  pt ∈ (if b then (Charts.splitPoints s sample).1
        else (Charts.splitPoints s sample).2)
  <-> Charts.y pt = s /\
      exists e, sample !! Charts.x pt = Some e /\ Model.correct e = b.
Proof.
  unfold Charts.splitPoints. rewrite splitPoints_fold. simpl.
  assert (Hgen : forall g : nat * Model.Entry -> bool,
             pt ∈ ((fun p : nat * Model.Entry =>
                      {| Charts.x := p.1; Charts.y := s |})
                     <$> List.filter g (zip (seq 0 (length sample)) sample))
             <-> Charts.y pt = s /\
                 exists e, sample !! Charts.x pt = Some e /\
                           g (Charts.x pt, e) = true).
  { intros g. rewrite list_elem_of_fmap. split.
    - intros ([i e] & -> & Hin). simpl.
      apply list_elem_of_In, filter_In in Hin as [Hin Hg].
      apply list_elem_of_In, zip_seq_lookup in Hin as (k & -> & Hk).
      split; [reflexivity|]. exists e. split; [exact Hk | exact Hg].
    - intros (Hy & e & He & Hg). exists (Charts.x pt, e). split.
      + destruct pt as [px py]. simpl in *. subst. reflexivity.
      + apply list_elem_of_In, filter_In. split; [|exact Hg].
        apply list_elem_of_In, zip_seq_lookup. exists (Charts.x pt).
        split; [reflexivity | exact He]. }
  destruct b; rewrite Hgen; simpl; split; intros (Hy & e & He & Hc);
    (split; [exact Hy|]); exists e; (split; [exact He|]);
    destruct (Model.correct e); simpl in *; congruence.
Qed.

Lemma addSample_fold (ps : list (nat * list Model.Entry)) (ds0 : list Charts.Dataset) :
  foldl Charts.addSample ds0 ps = ds0 ++ (ps ≫= Charts.addSample []).
Proof.
  revert ds0. induction ps as [|p ps IH]; intros ds0; simpl.
  - rewrite app_nil_r. reflexivity.
  - rewrite IH, app_assoc. f_equal.
    unfold Charts.addSample.
    destruct (Charts.splitPoints p.1 p.2).1, (Charts.splitPoints p.1 p.2).2;
      simpl; rewrite ?app_nil_r, <- ?app_assoc; reflexivity.
Qed.

Lemma addSample_elem (p : nat * list Model.Entry) (d : Charts.Dataset) :
  d ∈ Charts.addSample [] p
  <-> Charts.sampleNumber d = (p.1 + 1)%nat /\ Charts.data d <> [] /\
      Charts.data d = (if Charts.correctKind d
                       then (Charts.splitPoints p.1 p.2).1
                       else (Charts.splitPoints p.1 p.2).2).
Proof.
  unfold Charts.addSample.
  destruct (Charts.splitPoints p.1 p.2) as [cp ip]. simpl.
  split.
  - intros H.
    destruct cp as [|c cp], ip as [|i ip]; simpl in H;
      repeat (apply elem_of_cons in H as [H | H]; [subst d; simpl; auto|]);
      inversion H.
  - intros (Hn & Hne & Hd). destruct d as [n k dd]. simpl in *. subst n.
    destruct k; subst dd.
    + destruct cp as [|c cp]; [congruence|].
      destruct ip; simpl; apply elem_of_cons; left; reflexivity.
    + destruct ip as [|i ip]; [congruence|].
      destruct cp; simpl; [apply elem_of_cons; left; reflexivity|].
      apply elem_of_cons; right. apply elem_of_cons; left; reflexivity.
Qed.

Lemma filter_split_length {A : Type} (g : A -> bool) (l : list A) :
  (length (List.filter g l) + length (List.filter (fun a => negb (g a)) l))%nat
  = length l.
Proof.
  induction l as [|a l IH]; [reflexivity|]. simpl.
  destruct (g a); simpl; lia.
Qed.

Lemma addSample_points (ps : list (nat * list Model.Entry)) :
  length ((ps ≫= Charts.addSample []) ≫= Charts.data) = length (concat (ps.*2)).
Proof.
  induction ps as [|p ps IH]; [reflexivity|].
  change ((p :: ps) ≫= Charts.addSample [])
    with (Charts.addSample [] p ++ (ps ≫= Charts.addSample [])).
  rewrite bind_app, length_app, IH. simpl. rewrite length_app. f_equal.
  unfold Charts.addSample, Charts.splitPoints. rewrite splitPoints_fold. simpl.
  pose proof (filter_split_length (fun q : nat * Model.Entry => Model.correct q.2)
                (zip (seq 0 (length p.2)) p.2)) as Hsum.
  rewrite length_zip, length_seq, Nat.min_id in Hsum. cbv beta in Hsum.
  set (cp := List.filter (fun q : nat * Model.Entry => Model.correct q.2) _) in *.
  set (ip := List.filter (fun q : nat * Model.Entry => negb (Model.correct q.2)) _) in *.
  destruct cp as [|c cp], ip as [|i ip]; simpl in *;
    rewrite ?app_nil_r, ?length_app; simpl;
    repeat match goal with
           | |- context [length (list_fmap ?A ?B ?f ?l)] =>
               replace (length (list_fmap A B f l)) with (length l)
                 by (symmetry; apply length_fmap)
           end; lia.
Qed.

Lemma chart_datasets (timelineData : list (list Model.Entry)) :
  timelineData <> [] ->
  exists datasets,
    Charts.createStockTimelineChart timelineData = Some datasets /\
    (forall d, d ∈ datasets -> Charts.data d <> []) /\
    (forall d pt, d ∈ datasets -> pt ∈ Charts.data d ->
       Charts.sampleNumber d = (Charts.y pt + 1)%nat) /\
    (forall sampleIdx dayIdx kind,
       (exists d, d ∈ datasets /\ Charts.correctKind d = kind /\
                  {| Charts.x := dayIdx; Charts.y := sampleIdx |} ∈ Charts.data d)
       <-> exists sample e, timelineData !! sampleIdx = Some sample /\
                            sample !! dayIdx = Some e /\
                            Model.correct e = kind) /\
    length (datasets ≫= Charts.data) = length (concat timelineData).
Proof.
  intros Hne.
  exists (foldl Charts.addSample [] (zip (seq 0 (length timelineData)) timelineData)).
  split; [destruct timelineData; [congruence | reflexivity]|].
  rewrite addSample_fold. simpl.
  assert (Hd : forall d,
             d ∈ zip (seq 0 (length timelineData)) timelineData
                 ≫= Charts.addSample []
             <-> exists s sample, timelineData !! s = Some sample /\
                   Charts.sampleNumber d = (s + 1)%nat /\ Charts.data d <> [] /\
                   Charts.data d = (if Charts.correctKind d
                                    then (Charts.splitPoints s sample).1
                                    else (Charts.splitPoints s sample).2)).
  { intros d. rewrite list_elem_of_bind. split.
    - intros ([s sample] & Hin & Hz).
      apply zip_seq_lookup in Hz as (k & -> & Hk).
      apply addSample_elem in Hin. simpl in *.
      exists k, sample. split; [exact Hk | exact Hin].
    - intros (s & sample & Hs & H). exists (s, sample). split.
      + apply addSample_elem. exact H.
      + apply zip_seq_lookup. exists s. split; [reflexivity | exact Hs]. }
  split; [|split; [|split]]; [| | |rewrite addSample_points, snd_zip;
                                   [reflexivity | rewrite length_seq; lia]].
  - intros d Hin. apply Hd in Hin as (s & sample & _ & _ & H & _). exact H.
  - intros d pt Hin Hpt. apply Hd in Hin as (s & sample & _ & Hn & _ & Hdat).
    rewrite Hdat in Hpt. apply splitPoints_elem in Hpt as [Hy _]. lia.
  - intros sampleIdx dayIdx kind. split.
    + intros (d & Hin & Hk & Hpt).
      apply Hd in Hin as (s & sample & Hs & Hn & _ & Hdat).
      rewrite Hdat in Hpt. apply splitPoints_elem in Hpt as (Hy & e & He & Hc).
      simpl in *. subst s. exists sample, e. repeat split; congruence.
    + intros (sample & e & Hs & He & Hc).
      assert (Hpt : {| Charts.x := dayIdx; Charts.y := sampleIdx |}
                      ∈ (if kind then (Charts.splitPoints sampleIdx sample).1
                         else (Charts.splitPoints sampleIdx sample).2)).
      { apply splitPoints_elem. simpl. split; [reflexivity|].
        exists e. split; [exact He | exact Hc]. }
      exists {| Charts.sampleNumber := sampleIdx + 1; Charts.correctKind := kind;
                Charts.data := if kind
                               then (Charts.splitPoints sampleIdx sample).1
                               else (Charts.splitPoints sampleIdx sample).2 |}.
      split; [|split; [reflexivity | exact Hpt]].
      apply Hd. exists sampleIdx, sample. simpl.
      repeat split; try assumption.
      intros Hnil. rewrite Hnil in Hpt. inversion Hpt.
Qed.


(** X19.  An empty timeline stops createStockTimelineChart with a TypeError;
    otherwise the chart gets datasets that are never empty, and a point (x, y)
    lies in the dataset of sample y + 1 of one kind exactly when record x of
    sample y exists and its correct flag is that kind; the datasets hold as
    many points as the timeline has records, so each record is drawn once,
    green if correct and red if not. *)
Theorem chart_points_partition (timelineData : list (list Model.Entry)) :
  (timelineData = [] -> Charts.createStockTimelineChart timelineData = None) /\
  (timelineData <> [] ->
   exists datasets,
     Charts.createStockTimelineChart timelineData = Some datasets /\
     (forall d, d ∈ datasets -> Charts.data d <> []) /\
     (forall d pt, d ∈ datasets -> pt ∈ Charts.data d ->
        Charts.sampleNumber d = (Charts.y pt + 1)%nat) /\
     (forall sampleIdx dayIdx kind,
        (exists d, d ∈ datasets /\ Charts.correctKind d = kind /\
                   {| Charts.x := dayIdx; Charts.y := sampleIdx |} ∈ Charts.data d)
        <-> exists sample e, timelineData !! sampleIdx = Some sample /\
                             sample !! dayIdx = Some e /\
                             Model.correct e = kind) /\
     length (datasets ≫= Charts.data) = length (concat timelineData)).
Proof.
  split; [intros ->; reflexivity | apply chart_datasets].
Qed.

(** X20.  createTimelineCharts draws at most the first ten samples of a stock:
    a stock that has no timeline, or an empty one, stops it with a TypeError,
    and otherwise a point of the chart belongs to one of the samples 0..9 of
    the stock's timeline. *)
Theorem stockChart_first_ten (timeline : gmap string (list (list Model.Entry)))
        (symbol : string) :
  match timeline !! symbol with
  | None | Some [] => Charts.stockChart timeline symbol = None
  | Some stockTimeline =>
      exists datasets,
        Charts.stockChart timeline symbol = Some datasets /\
        forall d pt, d ∈ datasets -> pt ∈ Charts.data d ->
          (Charts.y pt < 10)%nat /\
          exists sample e, stockTimeline !! Charts.y pt = Some sample /\
                           sample !! Charts.x pt = Some e /\
                           Model.correct e = Charts.correctKind d
  end.
Proof.
  unfold Charts.stockChart.
  destruct (timeline !! symbol) as [[|row rows]|]; [reflexivity | | reflexivity].
  set (tl := row :: rows).
  assert (Hne : take (Nat.min 10 (length tl)) tl <> []) by (subst tl; simpl; congruence).
  destruct (chart_datasets _ Hne) as (datasets & Hc & _ & _ & Hpts & _).
  exists datasets. split; [exact Hc|].
  intros d [px py] Hin Hpt. simpl.
  destruct (proj1 (Hpts py px (Charts.correctKind d))) as (sample & e & Hs & He & Hk).
  { exists d. auto. }
  apply lookup_take_Some in Hs as [Hs Hlt].
  split; [lia|]. exists sample, e. auto.
Qed.

(** ** The further properties on the sample data *)

Lemma parseAndPivot_pivot_witness :
  match Sequences.parseAndPivot four_lines with
  | Ok p => strictly_ascending (Sequences.dates p) /\ NoDup (Sequences.dates p)
  | Throw _ => False
  end.
Proof.
  destruct (Sequences.parseAndPivot four_lines) as [p|msg] eqn:Hp.
  - destruct (parseAndPivot_pivot four_lines p Hp) as (Hs & Hnd & _). now split.
  - vm_compute in Hp. discriminate.
Defined.

Lemma normalizeColumn_unit_range_witness :
  length (Loader.normalizeColumn [Some (Fin 1); None; Some (Fin 3)]) = 3%nat /\
  Loader.normalizeColumn [Some (Fin 1); None; Some (Fin 3)] !! 1%nat
    = Some (Fin 0).
Proof.
  destruct (normalizeColumn_unit_range [Some (Fin 1); None; Some (Fin 3)])
    as (H & _).
  destruct H as (Hlen & Hhole & _).
  - intros c Hc.
    repeat (apply elem_of_cons in Hc as [->|Hc]); eauto. inversion Hc.
  - exists 1%Q, 3%Q. split; [left|]. split; [right; right; left|].
    intros H. vm_compute in H. discriminate.
  - intros a b Ha Hb.
    repeat (apply elem_of_cons in Ha as [Ha|Ha]); try discriminate;
      try (inversion Ha; fail);
      repeat (apply elem_of_cons in Hb as [Hb|Hb]); try discriminate;
      try (inversion Hb; fail);
      injection Ha as ->; injection Hb as ->; reflexivity.
  - split; [exact Hlen|]. apply Hhole. reflexivity.
Defined.

Lemma sample_window_content_witness :
  exists sample label,
    Loader.samplesOf one_stock !! 0%nat = Some sample /\
    Loader.labelsOf one_stock !! 0%nat = Some label /\
    length sample = 12%nat.
Proof.
  destruct (sample_window_content one_stock 0) as (sample & label & H1 & H2 & H3 & _).
  - assert (Hlen : length (Loader.allDatesOf one_stock) = 17%nat)
      by (vm_compute; reflexivity).
    rewrite Hlen. simpl. lia.
  - exists sample, label. auto.
Defined.

Lemma dateIndex_dates_witness :
  match Loader.prepareData one_stock with
  | Ok r => length (Loader.dateIndex r)
            = length (Loader.X_train r ++ Loader.X_test r)
  | Throw _ => False
  end.
Proof.
  destruct (Loader.prepareData one_stock) as [r|msg] eqn:Hr.
  - destruct (dateIndex_dates one_stock r Hr) as (H & _). exact H.
  - vm_compute in Hr. discriminate.
Defined.

Lemma filled_series_complete_witness :
  exists p s,
    Loader.pivotOf late_listing !! "B" = Some p /\
    Loader.filledOf late_listing !! "B" = Some s /\
    Loader.col s Loader.Close = Loader.forwardFill None (Loader.col p Loader.Close).
Proof.
  destruct (filled_series_complete late_listing "B") as (p & s & Hp & Hs & H).
  - assert (Hsym : Loader.symbolsOf late_listing = ["A"; "B"])
      by (vm_compute; reflexivity).
    rewrite Hsym. right. left.
  - exists p, s. split; [exact Hp|]. split; [exact Hs|].
    exact (proj1 (H Loader.Close)).
Defined.

Lemma createSequences_shapes_witness :
  match Sequences.createSequences four_pivot four_dates ["A"]
                                  (fun _ => (true, [[Fin 0]])) 1 1 with
  | Ok (Some t) =>
      length (Sequences.X_train t) = length (Sequences.y_train t) /\
      Sequences.X_train t <> [] /\ Sequences.X_test t <> []
  | _ => False
  end.
Proof.
  destruct (Sequences.createSequences four_pivot four_dates ["A"]
                                      (fun _ => (true, [[Fin 0]])) 1 1)
    as [[t|]|msg] eqn:Ht.
  - destruct (createSequences_shapes _ _ _ _ _ _ t Ht) as (H1 & _ & H3 & H4 & _).
    auto.
  - vm_compute in Ht. discriminate.
  - vm_compute in Ht. discriminate.
Defined.


Lemma accuracy_in_unit_witness :
  exists acc a,
    Model.computePerStockAccuracy example_pred example_true ["A"] 2 = Some acc /\
    acc !! "A" = Some a /\ in_unit a.
Proof.
  destruct (accuracy_in_unit example_true example_pred ["A"] 2 0 "A")
    as (_ & H); [reflexivity | simpl; lia | lia | apply NoDup_singleton
                 | reflexivity | exact H].
Defined.

Lemma evaluators_fail_on_short_matrix_witness :
  Gru.evaluatePerStock example_true [] ["A"] 2 = None /\
  Model.computePerStockAccuracy example_true [] ["A"] 2 = None.
Proof.
  destruct (evaluators_fail_on_short_matrix example_true [] "A" [] 2) as (H & _).
  - simpl. lia.
  - apply H. lia.
Defined.

Lemma evaluators_agree_witness :
  Model.computePerStockAccuracy example_pred example_true ["A"] 2 =
  Gru.stockAccuracies <$> Gru.evaluatePerStock example_true example_pred ["A"] 2.
Proof.
  apply (evaluators_agree example_true example_pred ["A"] 2). reflexivity.
Defined.

Lemma timeline_rows_and_accuracy_witness :
  exists timeline rows,
    Model.getPredictionTimeline example_pred example_true ["A"] 2 = Some timeline /\
    timeline !! "A" = Some rows /\ length rows = 1%nat.
Proof.
  destruct (timeline_rows_and_accuracy example_pred example_true ["A"] 2 0 "A")
    as (timeline & rows & acc & H1 & H2 & H3 & _);
    [simpl; lia | apply NoDup_singleton | reflexivity |].
  exists timeline, rows. auto.
Defined.

Lemma tensor_entries_in_unit_witness :
  exists v, Loader.valueAt (Loader.normalizedOf one_stock) "A" Loader.Close 0
            = Some v /\ in_unit v.
Proof.
  apply (tensor_entries_in_unit one_stock "A"
           {| Loader.Open_ := (fun c => Some (Fin c)) <$> sample_closes;
              Loader.Close_ := (fun c => Some (Fin c)) <$> sample_closes |}
           Loader.Close 1 0 0).
  - assert (Hsym : Loader.symbolsOf one_stock = ["A"]) by (vm_compute; reflexivity).
    rewrite Hsym. left.
  - vm_compute. reflexivity.
  - intros c Hc. simpl in Hc.
    repeat (apply elem_of_cons in Hc as [->|Hc]); eauto. inversion Hc.
  - left.
  - right. left.
  - intros H. vm_compute in H. discriminate.
  - assert (Hunit : forall q, Some (Fin q) ∈ (fun c => Some (Fin c)) <$> sample_closes ->
                              (0 <= q)%Q /\ (q <= 1)%Q).
    { intros q Hq. simpl in Hq.
      repeat (apply elem_of_cons in Hq as [Hq|Hq];
              [injection Hq as ->; split; discriminate|]).
      inversion Hq. }
    intros x y Hx Hy. apply Hunit in Hx, Hy.
    pose proof overflow_bound_pos. lra.
  - assert (Hlen : length (Loader.allDatesOf one_stock) = 17%nat)
      by (vm_compute; reflexivity).
    rewrite Hlen. lia.
Defined.

(** * Whole runs: the sample loop, the split and the Gap Filler *)

Lemma tensors_return {A B C : Type} (Xa Xb : list (list (list A)))
      (ya yb : list (list B)) (k : list (list (list A)) -> list (list B) ->
                                 list (list (list A)) -> list (list B) -> C) :
  Xa <> [] -> (forall sample, sample ∈ Xa -> sample <> []) -> ya <> [] ->
  Xb <> [] -> (forall sample, sample ∈ Xb -> sample <> []) -> yb <> [] ->
  (X_train ← tensor3d Xa; y_train ← tensor2d ya;
   X_test ← tensor3d Xb; y_test ← tensor2d yb;
   Ok (k X_train y_train X_test y_test)) = Ok (k Xa ya Xb yb).
Proof.
  intros HXa HsXa Hya HXb HsXb Hyb.
  destruct Xa as [|[|? ?] ?];
    [congruence|exfalso; apply (HsXa []); [left|reflexivity]|].
  destruct ya as [|? ?]; [congruence|].
  destruct Xb as [|[|? ?] ?];
    [congruence|exfalso; apply (HsXb []); [left|reflexivity]|].
  destruct yb as [|? ?]; [congruence|].
  reflexivity.
Qed.

Lemma split80_elem {A : Type} (arr : list A) (x : A) :
  x ∈ (split80 arr).1 \/ x ∈ (split80 arr).2 -> x ∈ arr.
Proof.
  unfold split80, slice_to, slice_from. cbn [fst snd].
  intros H. apply elem_of_app in H. now rewrite take_drop in H.
Qed.

Lemma sampleAt_length (normalizedData : gmap string (Loader.Series num))
      (symbols : list string) (i : Z) :
  length (Loader.sampleAt normalizedData symbols i) = 12%nat.
Proof.
  unfold Loader.sampleAt. rewrite length_map, length_forRange.
  unfold Loader.WINDOW_SIZE. lia.
Qed.

Lemma samples_labels_length (rawData : list Loader.Row) :
  length (Loader.samplesOf rawData)
    = Z.to_nat (Z.of_nat (length (Loader.allDatesOf rawData)) - 15) /\
  length (Loader.labelsOf rawData) = length (Loader.samplesOf rawData).
Proof.
  unfold Loader.samplesOf, Loader.labelsOf, Loader.anchors.
  rewrite !length_map, length_forRange.
  unfold Loader.WINDOW_SIZE, Loader.PREDICTION_DAYS. split; [f_equal; lia|reflexivity].
Qed.

(** [prepareData] returns as soon as there are rows and two samples. *)
Lemma prepareData_returns (rawData : list Loader.Row) :
  rawData <> [] -> (2 <= length (Loader.samplesOf rawData))%nat ->
  Loader.prepareData rawData = Ok (Loader.prepared rawData).
Proof.
  intros Hne HN. unfold Loader.prepareData.
  destruct rawData as [|row rows]; [congruence|].
  set (rawData := row :: rows) in *. cbv zeta.
  destruct (samples_labels_length rawData) as [_ Hlab].
  destruct (split80_edges (Loader.samplesOf rawData)) as (HX1 & HX2 & _).
  destruct (split80_edges (Loader.labelsOf rawData)) as (Hy1 & Hy2 & _).
  assert (Hsample : forall sample,
             sample ∈ (split80 (Loader.samplesOf rawData)).1 \/
             sample ∈ (split80 (Loader.samplesOf rawData)).2 -> sample <> []).
  { intros sample Hin. apply split80_elem in Hin.
    apply list_elem_of_In, in_map_iff in Hin as (i & <- & _).
    intros H. apply (f_equal length) in H. rewrite sampleAt_length in H.
    discriminate. }
  apply (tensors_return
           (split80 (Loader.samplesOf rawData)).1
           (split80 (Loader.samplesOf rawData)).2
           (split80 (Loader.labelsOf rawData)).1
           (split80 (Loader.labelsOf rawData)).2
           (fun a b c d =>
              {| Loader.symbols := Loader.symbolsOf rawData;
                 Loader.dateIndex :=
                   map (at_ (Loader.allDatesOf rawData))
                       (Loader.anchors (length (Loader.allDatesOf rawData)));
                 Loader.X_train := a; Loader.y_train := b;
                 Loader.X_test := c; Loader.y_test := d;
                 Loader.processedData := Loader.normalizedOf rawData |})).
  - intros H. apply HX1 in H. lia.
  - intros sample Hin. apply Hsample. now left.
  - intros H. apply Hy1 in H. lia.
  - intros H. apply HX2 in H. rewrite H in HN. simpl in HN. lia.
  - intros sample Hin. apply Hsample. now right.
  - intros H. apply Hy2 in H. rewrite H in Hlab. simpl in Hlab. lia.
Qed.

(** With rows but fewer than two samples the first tensor construction
    throws. *)
Lemma prepareData_degenerate (rawData : list Loader.Row) :
  rawData <> [] -> (length (Loader.samplesOf rawData) < 2)%nat ->
  exists message, Loader.prepareData rawData = Throw message /\
                  message <> "No data loaded".
Proof.
  intros Hne HN.
  destruct (Loader.prepareData rawData) as [r|message] eqn:Hrun.
  - apply prepareData_run in Hrun as (_ & Htrain & _). exfalso. apply Htrain.
    apply (proj2 (proj1 (split80_edges _))). lia.
  - exists message. split; [reflexivity|].
    unfold Loader.prepareData in Hrun.
    destruct rawData as [|row rows]; [congruence|]. cbv zeta in Hrun.
    set (rawData := row :: rows) in *.
    destruct (tensors_outcome
                (split80 (Loader.samplesOf rawData)).1
                (split80 (Loader.samplesOf rawData)).2
                (split80 (Loader.labelsOf rawData)).1
                (split80 (Loader.labelsOf rawData)).2
                (fun a b c d =>
                   {| Loader.symbols := Loader.symbolsOf rawData;
                      Loader.dateIndex :=
                        map (at_ (Loader.allDatesOf rawData))
                            (Loader.anchors (length (Loader.allDatesOf rawData)));
                      Loader.X_train := a; Loader.y_train := b;
                      Loader.X_test := c; Loader.y_test := d;
                      Loader.processedData := Loader.normalizedOf rawData |}))
      as [H|(message' & H & _ & Hm)]; rewrite H in Hrun; congruence.
Qed.

Lemma baseOk_all (pivot : gmap string (gmap string Sequences.Quote))
      (dates symbols : list string) (i : Z) :
  (forall sym, sym ∈ symbols ->
               exists c, Sequences.closeOn pivot (at_ dates i) sym = Some c) ->
  Sequences.baseOk pivot dates symbols true i = true.
Proof.
  unfold Sequences.baseOk. induction symbols as [|x symbols IH]; intros Hall;
    [reflexivity|].
  simpl. destruct (Hall x) as [c ->]; [left|].
  apply IH. intros sym Hsym. apply Hall. now right.
Qed.

Lemma labelsAt_length (pivot : gmap string (gmap string Sequences.Quote))
      (dates symbols : list string) (outputLen i : Z) :
  length (Sequences.labelsAt pivot dates symbols outputLen i)
    = (Z.to_nat outputLen * length symbols)%nat.
Proof.
  rewrite labelsAt_runs, (length_bind_block _ (length symbols)).
  - unfold forRangeIncl. rewrite length_forRange. f_equal. lia.
  - intros off. unfold sequencesRun. apply length_map.
Qed.

(** A visited position whose window is complete and whose symbols all have a
    close on its date yields a sample. *)
Lemma sequenceAt_valid (pivot : gmap string (gmap string Sequences.Quote))
      (dates symbols : list string) (windowBlock : Z -> bool * list (list num))
      (inputLen outputLen i : Z) (seq : list (list num)) :
  0 <= outputLen ->
  windowBlock i = (true, seq) -> Z.of_nat (length seq) = inputLen ->
  (forall sym, sym ∈ symbols ->
               exists c, Sequences.closeOn pivot (at_ dates i) sym = Some c) ->
  Sequences.sequenceAt pivot dates symbols windowBlock inputLen outputLen i
    = Some (seq, Sequences.labelsAt pivot dates symbols outputLen i).
Proof.
  intros Hout Hw Hlen Hall. unfold Sequences.sequenceAt. rewrite Hw.
  rewrite (proj2 (Z.eqb_eq _ _) Hlen). cbn [negb orb].
  rewrite baseOk_all by exact Hall. cbn [negb].
  rewrite labelsAt_length.
  replace (Z.of_nat (Z.to_nat outputLen * length symbols))
    with (Z.of_nat (length symbols) * outputLen) by lia.
  rewrite Z.eqb_refl. reflexivity.
Qed.

Lemma omap_two {A B : Type} (f : A -> option B) (l : list A) (k1 k2 : A) :
  k1 <> k2 -> k1 ∈ l -> k2 ∈ l -> is_Some (f k1) -> is_Some (f k2) ->
  (2 <= length (omap f l))%nat.
Proof.
  intros Hne H1 H2 [y1 Hy1] [y2 Hy2].
  assert (Hone : forall (l' : list A) k y, k ∈ l' -> f k = Some y ->
                                           (1 <= length (omap f l'))%nat).
  { intros l' k y Hk Hy. assert (Hin : y ∈ omap f l').
    { apply list_elem_of_omap. now exists k. }
    destruct (omap f l'); [inversion Hin|simpl; lia]. }
  induction l as [|a l IH]; [inversion H1|].
  apply elem_of_cons in H1 as [<-|H1]; apply elem_of_cons in H2 as [H2|H2].
  - congruence.
  - cbn [omap list_omap]. rewrite Hy1. simpl.
    specialize (Hone l k2 y2 H2 Hy2). lia.
  - subst a. cbn [omap list_omap]. rewrite Hy2. simpl.
    specialize (Hone l k1 y1 H1 Hy1). lia.
  - specialize (IH H1 H2). cbn [omap list_omap]. destruct (f a); simpl; lia.
Qed.

(** The pushed elements keep the order of the visited positions. *)
Lemma omap_order {A B : Type} (f : A -> option B) (l : list A)
      (j1 j2 : nat) (y1 y2 : B) :
  (j1 < j2)%nat -> omap f l !! j1 = Some y1 -> omap f l !! j2 = Some y2 ->
  exists i1 i2 k1 k2,
    (i1 < i2)%nat /\ l !! i1 = Some k1 /\ l !! i2 = Some k2 /\
    f k1 = Some y1 /\ f k2 = Some y2.
Proof.
  assert (Hone : forall (l' : list A) j y, omap f l' !! j = Some y ->
                   exists i k, l' !! i = Some k /\ f k = Some y).
  { intros l' j y Hj. apply list_elem_of_lookup_2, list_elem_of_omap in Hj
      as (k & Hk & Hy). apply list_elem_of_lookup in Hk as [i Hi]. now exists i, k. }
  revert j1 j2. induction l as [|a l IH]; intros j1 j2 Hlt H1 H2; [discriminate|].
  cbn [omap list_omap] in H1, H2. destruct (f a) as [y|] eqn:Hfa.
  - destruct j2 as [|j2]; [lia|]. simpl in H2. destruct j1 as [|j1].
    + simpl in H1. injection H1 as ->.
      destruct (Hone l j2 y2 H2) as (i & k & Hi & Hk).
      exists 0%nat, (S i), a, k. repeat split; auto; lia.
    + simpl in H1.
      destruct (IH j1 j2 ltac:(lia) H1 H2) as (i1 & i2 & k1 & k2 & Hi & Hl1 & Hl2 & Hf).
      exists (S i1), (S i2), k1, k2. repeat split; auto; [lia|tauto|tauto].
  - destruct (IH j1 j2 Hlt H1 H2) as (i1 & i2 & k1 & k2 & Hi & Hl1 & Hl2 & Hf).
    exists (S i1), (S i2), k1, k2. repeat split; auto; [lia|tauto|tauto].
Qed.

Lemma candidates_lookup (dates : list string) (inputLen outputLen : Z)
      (i : nat) (k : Z) :
  Sequences.candidates dates inputLen outputLen !! i = Some k ->
  k = inputLen + Z.of_nat i /\
  k ∈ Sequences.candidates dates inputLen outputLen.
Proof.
  intros Hi. split; [|now apply list_elem_of_lookup_2 in Hi].
  unfold Sequences.candidates, forRangeIncl in Hi.
  assert (Hlt : (i < Z.to_nat (Z.of_nat (length dates) - outputLen - 1 + 1 - inputLen))%nat).
  { apply lookup_lt_Some in Hi. now rewrite length_forRange in Hi. }
  rewrite forRange_lookup in Hi by exact Hlt. congruence.
Qed.

(** [createSequences] returns as soon as two positions yield a sample and
    the window is not empty. *)
Lemma createSequences_returns (pivot : gmap string (gmap string Sequences.Quote))
      (dates symbols : list string) (windowBlock : Z -> bool * list (list num))
      (inputLen outputLen : Z) :
  0 < inputLen ->
  (2 <= length (Sequences.produced pivot dates symbols windowBlock
                                   inputLen outputLen))%nat ->
  exists t, Sequences.createSequences pivot dates symbols windowBlock
                                      inputLen outputLen = Ok (Some t).
Proof.
  intros Hin HN. unfold Sequences.createSequences.
  set (produced := Sequences.produced _ _ _ _ _ _) in *.
  destruct (Sequences.candidates dates inputLen outputLen) eqn:Hc.
  { unfold produced, Sequences.produced in HN. rewrite Hc in HN. simpl in HN. lia. }
  clear Hc. cbv zeta.
  destruct (map fst produced) eqn:HX.
  { apply (f_equal length) in HX. rewrite length_map in HX. simpl in HX. lia. }
  rewrite <- HX. clear HX.
  destruct (split80_edges (map fst produced)) as (HX1 & HX2 & _).
  destruct (split80_edges (map snd produced)) as (Hy1 & Hy2 & _).
  rewrite length_map in HX1, Hy1.
  assert (Hsample : forall x,
             x ∈ (split80 (map fst produced)).1 \/
             x ∈ (split80 (map fst produced)).2 -> x <> []).
  { intros x Hx. apply split80_elem in Hx.
    apply list_elem_of_In, in_map_iff in Hx as ([x' labels] & <- & Hp).
    apply list_elem_of_In, list_elem_of_omap in Hp as (i & _ & Hi).
    apply sequenceAt_Some in Hi as (_ & Hlen & _). simpl.
    intros ->. simpl in Hlen. lia. }
  eexists.
  apply (tensors_return
           (split80 (map fst produced)).1 (split80 (map fst produced)).2
           (split80 (map snd produced)).1 (split80 (map snd produced)).2
           (fun a b c d => Some {| Sequences.X_train := a;
                                   Sequences.y_train := b;
                                   Sequences.X_test := c;
                                   Sequences.y_test := d;
                                   Sequences.out_symbols := symbols |})).
  - intros H. apply HX1 in H. lia.
  - intros x Hx. apply Hsample. now left.
  - intros H. apply Hy1 in H. lia.
  - intros H. apply HX2, map_eq_nil in H. rewrite H in HN. simpl in HN. lia.
  - intros x Hx. apply Hsample. now right.
  - intros H. apply Hy2, map_eq_nil in H. rewrite H in HN. simpl in HN. lia.
Qed.

(** How a run of [createSequences] can end. *)
Lemma createSequences_outcome (pivot : gmap string (gmap string Sequences.Quote))
      (dates symbols : list string) (windowBlock : Z -> bool * list (list num))
      (inputLen outputLen : Z) :
  let run := Sequences.createSequences pivot dates symbols windowBlock
                                       inputLen outputLen in
  let produced := Sequences.produced pivot dates symbols windowBlock
                                     inputLen outputLen in
  (Sequences.candidates dates inputLen outputLen = [] /\ run = Ok None) \/
  (produced = [] /\ run = Throw "No valid sequences generated") \/
  (produced <> [] /\
   ((exists t, run = Ok (Some t)) \/
    exists message, run = Throw message /\
                    message <> "No valid sequences generated")).
Proof.
  intros run produced. subst run. unfold Sequences.createSequences.
  destruct (Sequences.candidates dates inputLen outputLen) as [|i0 rest] eqn:Hcand;
    [now left|]. right. cbv zeta. fold produced.
  destruct produced as [|pair produced'] eqn:Hprod; [now left|]. right.
  split; [discriminate|].
  change (map fst (pair :: produced')) with (pair.1 :: map fst produced').
  cbv iota. set (X := pair.1 :: map fst produced').
  set (y := map snd (pair :: produced')).
  destruct (tensors_outcome (split80 X).1 (split80 X).2 (split80 y).1 (split80 y).2
              (fun a b c d => Some {| Sequences.X_train := a;
                                      Sequences.y_train := b;
                                      Sequences.X_test := c;
                                      Sequences.y_test := d;
                                      Sequences.out_symbols := symbols |}))
    as [H|(message & H & Hm & _)]; rewrite H.
  - left. eexists. reflexivity.
  - right. now exists message.
Qed.

(** C2.  With a lookback of 12 and a horizon of 3, the sample loop of both
    variants visits position i exactly when i - 12 >= 0 and
    i + 3 <= len(axis) - 1.  [prepareData] builds one sample for every
    visited position, the first and the last included, and none for any
    other, and the tensors of a run that returns hold exactly these samples.
    In [createSequences] a visited position whose window is complete and
    whose symbols all have a close on its date yields a sample: the run then
    ends neither without a value nor on the 'No valid sequences' check, a
    run that returns holds the sample, and the run does return as soon as a
    second visited position is valid.  Conversely every sample of a run
    that returns comes from a visited position. *)
Theorem anchor_bounds (n : nat) (i : Z) :
  (i ∈ Loader.anchors n <-> 0 <= i - 12 /\ i + 3 <= Z.of_nat n - 1) /\
  (forall dates : list string,
      length dates = n ->
      (i ∈ Sequences.candidates dates 12 3 <->
       0 <= i - 12 /\ i + 3 <= Z.of_nat n - 1)) /\
  (forall rawData,
      length (Loader.allDatesOf rawData) = n ->
      length (Loader.samplesOf rawData) = length (Loader.anchors n) /\
      length (Loader.labelsOf rawData) = length (Loader.anchors n) /\
      (0 <= i - 12 /\ i + 3 <= Z.of_nat n - 1 ->
       Loader.samplesOf rawData !! Z.to_nat (i - 12) =
         Some (Loader.sampleAt (Loader.normalizedOf rawData)
                               (Loader.symbolsOf rawData) i)) /\
      (forall r,
          Loader.prepareData rawData = Ok r ->
          length (Loader.X_train r ++ Loader.X_test r) = length (Loader.anchors n) /\
          (0 <= i - 12 /\ i + 3 <= Z.of_nat n - 1 ->
           (Loader.X_train r ++ Loader.X_test r) !! Z.to_nat (i - 12) =
             Some (Loader.sampleAt (Loader.normalizedOf rawData)
                                   (Loader.symbolsOf rawData) i)))) /\
  (forall pivot dates symbols windowBlock t x,
      length dates = n ->
      Sequences.createSequences pivot dates symbols windowBlock 12 3
        = Ok (Some t) ->
      (x ∈ Sequences.X_train t ++ Sequences.X_test t <->
       exists k labels,
         (0 <= k - 12 /\ k + 3 <= Z.of_nat n - 1) /\
         Sequences.sequenceAt pivot dates symbols windowBlock 12 3 k
           = Some (x, labels))) /\
  (forall pivot dates symbols windowBlock seq,
      length dates = n ->
      0 <= i - 12 /\ i + 3 <= Z.of_nat n - 1 ->
      windowBlock i = (true, seq) -> length seq = 12%nat ->
      (forall sym, sym ∈ symbols ->
         exists c, Sequences.closeOn pivot (at_ dates i) sym = Some c) ->
      let run := Sequences.createSequences pivot dates symbols windowBlock 12 3 in
      Sequences.sequenceAt pivot dates symbols windowBlock 12 3 i
        = Some (seq, Sequences.labelsAt pivot dates symbols 3 i) /\
      run <> Ok None /\
      run <> Throw "No valid sequences generated" /\
      (forall t, run = Ok (Some t) ->
                 seq ∈ Sequences.X_train t ++ Sequences.X_test t) /\
      (forall k seq',
          k <> i -> 0 <= k - 12 /\ k + 3 <= Z.of_nat n - 1 ->
          windowBlock k = (true, seq') -> length seq' = 12%nat ->
          (forall sym, sym ∈ symbols ->
             exists c, Sequences.closeOn pivot (at_ dates k) sym = Some c) ->
          exists t, run = Ok (Some t) /\
                    seq ∈ Sequences.X_train t ++ Sequences.X_test t /\
                    seq' ∈ Sequences.X_train t ++ Sequences.X_test t)).
Proof.
  assert (Hcand : forall (dates : list string) k,
             length dates = n ->
             (k ∈ Sequences.candidates dates 12 3 <->
              0 <= k - 12 /\ k + 3 <= Z.of_nat n - 1)).
  { intros dates k <-. unfold Sequences.candidates, forRangeIncl.
    rewrite elem_of_forRange. lia. }
  assert (Hsample : forall rawData,
             length (Loader.allDatesOf rawData) = n ->
             0 <= i - 12 /\ i + 3 <= Z.of_nat n - 1 ->
             Loader.samplesOf rawData !! Z.to_nat (i - 12) =
               Some (Loader.sampleAt (Loader.normalizedOf rawData)
                                     (Loader.symbolsOf rawData) i)).
  { intros rawData Hn Hi. unfold Loader.samplesOf.
    change (map ?f ?l) with (f <$> l).
    rewrite list_lookup_fmap, Hn. unfold Loader.anchors.
    rewrite forRange_lookup.
    - simpl. f_equal. f_equal. unfold Loader.WINDOW_SIZE. lia.
    - unfold Loader.WINDOW_SIZE, Loader.PREDICTION_DAYS. lia. }
  assert (Hheld : forall pivot dates symbols windowBlock t,
             Sequences.createSequences pivot dates symbols windowBlock 12 3
               = Ok (Some t) ->
             Sequences.X_train t ++ Sequences.X_test t =
             map fst (Sequences.produced pivot dates symbols windowBlock 12 3)).
  { intros pivot dates symbols windowBlock t Ht.
    apply createSequences_run in Ht as (-> & _ & -> & _).
    unfold split80, slice_to, slice_from. cbn [fst snd]. apply take_drop. }
  assert (Hpushed : forall pivot dates symbols windowBlock k x labels,
             length dates = n ->
             0 <= k - 12 /\ k + 3 <= Z.of_nat n - 1 ->
             Sequences.sequenceAt pivot dates symbols windowBlock 12 3 k
               = Some (x, labels) ->
             x ∈ map fst (Sequences.produced pivot dates symbols windowBlock 12 3)).
  { intros pivot dates symbols windowBlock k x labels Hn Hk Hseq.
    apply list_elem_of_In, in_map_iff. exists (x, labels). split; [reflexivity|].
    apply list_elem_of_In, list_elem_of_omap. exists k. split; [|exact Hseq].
    now apply Hcand. }
  split; [|split; [|split; [|split]]].
  - unfold Loader.anchors, Loader.WINDOW_SIZE, Loader.PREDICTION_DAYS.
    rewrite elem_of_forRange. lia.
  - intros dates Hn. now apply Hcand.
  - intros rawData Hn.
    assert (Hlen : length (Loader.samplesOf rawData) = length (Loader.anchors n)).
    { unfold Loader.samplesOf. now rewrite length_map, Hn. }
    split; [exact Hlen|].
    split; [unfold Loader.labelsOf; now rewrite length_map, Hn|].
    split; [now apply Hsample|].
    intros r Hr. apply prepareData_Ok in Hr as ->.
    cbn [Loader.X_train Loader.X_test Loader.prepared].
    unfold split80, slice_to, slice_from. cbn [fst snd]. rewrite take_drop.
    split; [exact Hlen|now apply Hsample].
  - intros pivot dates symbols windowBlock t x Hn Ht.
    rewrite (Hheld _ _ _ _ _ Ht). split.
    + intros Hx. apply list_elem_of_In, in_map_iff in Hx as ([x' labels] & <- & Hin).
      apply list_elem_of_In, list_elem_of_omap in Hin as (k & Hk & Hseq).
      exists k, labels. split; [|exact Hseq]. now apply (Hcand dates).
    + intros (k & labels & Hk & Hseq). now apply (Hpushed _ _ _ _ k x labels).
  - intros pivot dates symbols windowBlock seq Hn Hi Hw Hlen Hall run.
    assert (Hseq : Sequences.sequenceAt pivot dates symbols windowBlock 12 3 i
                   = Some (seq, Sequences.labelsAt pivot dates symbols 3 i)).
    { apply sequenceAt_valid; [lia|exact Hw|lia|exact Hall]. }
    assert (Hin : seq ∈ map fst (Sequences.produced pivot dates symbols
                                                    windowBlock 12 3)).
    { now apply (Hpushed _ _ _ _ i seq _ Hn Hi Hseq). }
    assert (Hne : Sequences.produced pivot dates symbols windowBlock 12 3 <> []).
    { intros H. rewrite H in Hin. inversion Hin. }
    split; [exact Hseq|].
    destruct (createSequences_outcome pivot dates symbols windowBlock 12 3)
      as [[_ H]|[[H _]|[_ H]]]; [| contradiction |].
    { exfalso. unfold Sequences.createSequences in H.
      destruct (Sequences.candidates dates 12 3) eqn:Hc.
      - apply Hne. unfold Sequences.produced. now rewrite Hc.
      - cbv zeta in H.
        destruct (map fst (Sequences.produced pivot dates symbols windowBlock 12 3))
          eqn:HX; [inversion Hin|].
        rewrite <- HX in H.
        destruct (tensors_outcome
                    (split80 (map fst (Sequences.produced pivot dates symbols
                                                          windowBlock 12 3))).1
                    (split80 (map fst (Sequences.produced pivot dates symbols
                                                          windowBlock 12 3))).2
                    (split80 (map snd (Sequences.produced pivot dates symbols
                                                          windowBlock 12 3))).1
                    (split80 (map snd (Sequences.produced pivot dates symbols
                                                          windowBlock 12 3))).2
                    (fun a b c d => Some {| Sequences.X_train := a;
                                            Sequences.y_train := b;
                                            Sequences.X_test := c;
                                            Sequences.y_test := d;
                                            Sequences.out_symbols := symbols |}))
          as [H'|(message & H' & _)]; rewrite H' in H; discriminate. }
    fold run in H.
    split; [|split; [|split]].
    + destruct H as [[t ->]|(message & -> & _)]; discriminate.
    + destruct H as [[t ->]|(message & -> & Hm)]; [discriminate|congruence].
    + intros t Ht. rewrite (Hheld _ _ _ _ _ Ht). exact Hin.
    + intros k seq' Hki Hk Hw' Hlen' Hall'.
      assert (Hseq' : Sequences.sequenceAt pivot dates symbols windowBlock 12 3 k
                      = Some (seq', Sequences.labelsAt pivot dates symbols 3 k)).
      { apply sequenceAt_valid; [lia|exact Hw'|lia|exact Hall']. }
      destruct (createSequences_returns pivot dates symbols windowBlock 12 3)
        as [t Ht]; [lia| |].
      { apply (omap_two _ _ k i Hki).
        - now apply Hcand.
        - now apply Hcand.
        - rewrite Hseq'. eauto.
        - rewrite Hseq. eauto. }
      exists t. split; [exact Ht|]. rewrite (Hheld _ _ _ _ _ Ht).
      split; [exact Hin|]. now apply (Hpushed _ _ _ _ k seq' _ Hn Hk Hseq').
Qed.

(** C5.  The chronological splitter of both variants.  When a loader
    returns, it has built N >= 2 samples, its train part is the first
    floor(0.8 * N) of them and its test part the rest, inputs and labels cut
    at the same place: the two lengths add up to N, the order inside each
    part is the order in which the samples were built, and every train
    sample was built before every test sample.  In [prepareData] sample j is
    the one of loop position 12 + j; in [createSequences] the samples come
    from strictly increasing visited positions. *)
Theorem split80_chronological :
  (forall rawData r,
      Loader.prepareData rawData = Ok r ->
      let samples := Loader.samplesOf rawData in
      let labels := Loader.labelsOf rawData in
      let N := length samples in
      (2 <= N)%nat /\
      Loader.X_train r = take (floor_08 N) samples /\
      Loader.X_test r = drop (floor_08 N) samples /\
      Loader.y_train r = take (floor_08 N) labels /\
      Loader.y_test r = drop (floor_08 N) labels /\
      Loader.X_train r ++ Loader.X_test r = samples /\
      Loader.y_train r ++ Loader.y_test r = labels /\
      length (Loader.X_train r) = floor_08 N /\
      (length (Loader.X_train r) + length (Loader.X_test r) = N)%nat /\
      (5 * floor_08 N <= 4 * N < 5 * floor_08 N + 5)%nat /\
      (forall j, (j < floor_08 N)%nat ->
         Loader.X_train r !! j =
           Some (Loader.sampleAt (Loader.normalizedOf rawData)
                                 (Loader.symbolsOf rawData) (12 + Z.of_nat j))) /\
      (forall j, (floor_08 N + j < N)%nat ->
         Loader.X_test r !! j =
           Some (Loader.sampleAt (Loader.normalizedOf rawData)
                                 (Loader.symbolsOf rawData)
                                 (12 + Z.of_nat (floor_08 N + j))))) /\
  (forall pivot dates symbols windowBlock inputLen outputLen t,
      Sequences.createSequences pivot dates symbols windowBlock inputLen outputLen
        = Ok (Some t) ->
      let produced := Sequences.produced pivot dates symbols windowBlock
                                         inputLen outputLen in
      let N := length produced in
      (2 <= N)%nat /\
      Sequences.X_train t = take (floor_08 N) (map fst produced) /\
      Sequences.X_test t = drop (floor_08 N) (map fst produced) /\
      Sequences.y_train t = take (floor_08 N) (map snd produced) /\
      Sequences.y_test t = drop (floor_08 N) (map snd produced) /\
      zip (Sequences.X_train t ++ Sequences.X_test t)
          (Sequences.y_train t ++ Sequences.y_test t) = produced /\
      length (Sequences.X_train t) = floor_08 N /\
      (length (Sequences.X_train t) + length (Sequences.X_test t) = N)%nat /\
      (5 * floor_08 N <= 4 * N < 5 * floor_08 N + 5)%nat /\
      (forall j1 j2 p1 p2,
          (j1 < j2)%nat -> produced !! j1 = Some p1 -> produced !! j2 = Some p2 ->
          exists k1 k2,
            k1 < k2 /\
            k1 ∈ Sequences.candidates dates inputLen outputLen /\
            k2 ∈ Sequences.candidates dates inputLen outputLen /\
            Sequences.sequenceAt pivot dates symbols windowBlock
                                 inputLen outputLen k1 = Some p1 /\
            Sequences.sequenceAt pivot dates symbols windowBlock
                                 inputLen outputLen k2 = Some p2)).
Proof.
  split.
  - intros rawData r Hr samples labels N.
    apply prepareData_run in Hr as (-> & Htrain & _).
    destruct (samples_labels_length rawData) as [_ Hlab].
    fold samples labels in Hlab, Htrain.
    cbn [Loader.X_train Loader.X_test Loader.y_train Loader.y_test Loader.prepared].
    fold samples labels. unfold split80, slice_to, slice_from in *.
    cbn [fst snd] in *. rewrite Hlab. fold N in Htrain |- *.
    pose proof (floor_08_bounds N) as Hb.
    assert (HN : (2 <= N)%nat).
    { destruct (split80_edges samples) as (H1 & _).
      destruct (Nat.le_gt_cases 2 N) as [H|H]; [exact H|].
      exfalso. apply Htrain. apply H1. fold N. lia. }
    assert (Hat : forall j, (j < N)%nat ->
              samples !! j = Some (Loader.sampleAt (Loader.normalizedOf rawData)
                                     (Loader.symbolsOf rawData) (12 + Z.of_nat j))).
    { intros j Hj. subst samples. unfold Loader.samplesOf.
      change (map ?f ?l) with (f <$> l). rewrite list_lookup_fmap.
      unfold Loader.anchors. rewrite forRange_lookup; [reflexivity|].
      subst N. unfold Loader.samplesOf, Loader.anchors in Hj.
      now rewrite length_map, length_forRange in Hj. }
    repeat split; try reflexivity; try lia.
    + apply take_drop.
    + apply take_drop.
    + rewrite length_take. fold N. lia.
    + rewrite length_take, length_drop. fold N. lia.
    + intros j Hj. rewrite lookup_take_lt by exact Hj. apply Hat. lia.
    + intros j Hj. rewrite lookup_drop. now apply Hat.
  - intros pivot dates symbols windowBlock inputLen outputLen t Ht produced N.
    apply createSequences_run in Ht as (-> & -> & -> & -> & _ & Htrain & _).
    fold produced in Htrain |- *.
    unfold split80, slice_to, slice_from in *. cbn [fst snd] in *.
    rewrite !length_map in *. fold N in Htrain |- *.
    pose proof (floor_08_bounds N) as Hb.
    assert (HN : (2 <= N)%nat).
    { destruct (split80_edges (map fst produced)) as (H1 & _).
      destruct (Nat.le_gt_cases 2 N) as [H|H]; [exact H|].
      exfalso. apply Htrain.
      unfold split80, slice_to in H1. cbn [fst] in H1. rewrite length_map in H1.
      apply H1. fold N. lia. }
    split; [exact HN|]. do 4 (split; [reflexivity|]).
    split; [rewrite !take_drop; apply zip_fst_snd|].
    split; [rewrite length_take, length_map; fold N; lia|].
    split; [rewrite length_take, length_drop, length_map; fold N; lia|].
    split; [exact Hb|].
    intros j1 j2 p1 p2 Hj H1 H2.
    destruct (omap_order _ _ j1 j2 p1 p2 Hj H1 H2)
      as (i1 & i2 & k1 & k2 & Hi & Hk1 & Hk2 & Hf1 & Hf2).
    apply candidates_lookup in Hk1 as [-> Hc1].
    apply candidates_lookup in Hk2 as [-> Hc2].
    exists (inputLen + Z.of_nat i1), (inputLen + Z.of_nat i2).
    repeat split; auto. lia.
Qed.

(** C6.  After the Gap Filler of [prepareData] has run, for every symbol
    and field: the series keeps its length, a hole is left at position i
    only if every position up to i was a hole in the pivot (the holes that
    remain form a leading prefix, and leading holes do remain), a position
    that held a value keeps it, and a hole that got filled holds exactly
    the value of the nearest preceding non-hole position. *)
Theorem forward_fill_nearest (rawData : list Loader.Row) (symbol : string)
        (f : Loader.field) (i : nat) :
  symbol ∈ Loader.symbolsOf rawData ->
  exists p s,
    Loader.pivotOf rawData !! symbol = Some p /\
    Loader.filledOf rawData !! symbol = Some s /\
    let column := Loader.col p f in
    let filled := Loader.col s f in
    length column = length (Loader.allDatesOf rawData) /\
    length filled = length column /\
    (filled !! i = Some None <->
     (i < length column)%nat /\ forall j, (j <= i)%nat -> column !! j = Some None) /\
    (forall v, column !! i = Some (Some v) -> filled !! i = Some (Some v)) /\
    (forall v, column !! i = Some None ->
               (filled !! i = Some (Some v) <->
                exists j, (j < i)%nat /\ column !! j = Some (Some v) /\
                          forall k, (j < k < i)%nat -> column !! k = Some None)).
Proof.
  intros Hsym.
  destruct (pivotOf_holds rawData) as [_ Hpiv].
  destruct (Hpiv _ Hsym) as (p & Hp & Hcols).
  exists p, (Loader.perField (fun f => Loader.forwardFill None (Loader.col p f))).
  split; [exact Hp|]. split; [now rewrite filledOf_lookup, Hp|].
  cbv zeta. rewrite col_perField.
  destruct (forwardFill_at (Loader.col p f) i) as (Hlen & Hhole & Hval).
  split; [apply Hcols|]. split; [exact Hlen|]. split; [exact Hhole|]. split.
  - intros v Hv. apply Hval. exists i. split; [lia|]. split; [exact Hv|].
    intros k Hk. lia.
  - intros v Hi. rewrite Hval. split.
    + intros (j & Hj & Hc & Hk).
      assert (j <> i) by (intros ->; congruence).
      exists j. split; [lia|]. split; [exact Hc|].
      intros k Hjk. apply Hk. lia.
    + intros (j & Hj & Hc & Hk). exists j. split; [lia|]. split; [exact Hc|].
      intros k Hjk. destruct (decide (k = i)) as [->|Hne]; [exact Hi|].
      apply Hk. lia.
Qed.

(** X7.  The degenerate splits.  [prepareData] on rows with fewer than 17
    dates builds fewer than two samples and does not return: the train part
    of the split would be empty and the first tensor construction throws
    (not the loader's own 'No data loaded'); with 17 dates or more it
    returns.  [createSequences] with a single sample throws in the same
    way.  When a loader returns, neither part is empty and the test part
    holds at least a fifth of the samples and fewer than a fifth plus
    one. *)
Theorem split80_parts :
  (forall rawData,
      rawData <> [] ->
      let N := length (Loader.samplesOf rawData) in
      ((length (Loader.allDatesOf rawData) < 17)%nat ->
       exists message, Loader.prepareData rawData = Throw message /\
                       message <> "No data loaded") /\
      ((17 <= length (Loader.allDatesOf rawData))%nat ->
       exists r, Loader.prepareData rawData = Ok r /\
                 Loader.X_train r <> [] /\ Loader.X_test r <> [] /\
                 (N <= 5 * length (Loader.X_test r) < N + 5)%nat)) /\
  (forall pivot dates symbols windowBlock inputLen outputLen,
      let run := Sequences.createSequences pivot dates symbols windowBlock
                                           inputLen outputLen in
      let N := length (Sequences.produced pivot dates symbols windowBlock
                                          inputLen outputLen) in
      (N = 1%nat ->
       exists message, run = Throw message /\
                       message <> "No valid sequences generated") /\
      (forall t, run = Ok (Some t) ->
                 Sequences.X_train t <> [] /\ Sequences.X_test t <> [] /\
                 (N <= 5 * length (Sequences.X_test t) < N + 5)%nat)).
Proof.
  split.
  - intros rawData Hne N.
    destruct (samples_labels_length rawData) as [HN _]. fold N in HN.
    split.
    + intros Hlen. apply prepareData_degenerate; [exact Hne|]. fold N. lia.
    + intros Hlen. exists (Loader.prepared rawData).
      assert (H2 : (2 <= N)%nat) by lia.
      split; [now apply prepareData_returns|].
      cbn [Loader.X_train Loader.X_test Loader.prepared].
      destruct (split80_edges (Loader.samplesOf rawData)) as (H1 & H3 & Hb).
      fold N in H1, Hb. split; [|split; [|exact Hb]].
      * intros H. apply H1 in H. lia.
      * intros H. apply H3 in H. subst N. rewrite H in H2. simpl in H2. lia.
  - intros pivot dates symbols windowBlock inputLen outputLen run N.
    destruct (split80_edges (map fst (Sequences.produced pivot dates symbols
                                        windowBlock inputLen outputLen)))
      as (H1 & H3 & Hb).
    rewrite length_map in H1, Hb. fold N in H1, Hb.
    split.
    + intros HN.
      destruct (createSequences_outcome pivot dates symbols windowBlock
                                        inputLen outputLen)
        as [[Hc _]|[[Hp _]|[_ [[t Ht]|H]]]].
      * exfalso. subst N. unfold Sequences.produced in HN. rewrite Hc in HN.
        discriminate.
      * exfalso. subst N. rewrite Hp in HN. discriminate.
      * exfalso. apply createSequences_run in Ht as (_ & _ & _ & _ & _ & Htrain & _).
        apply Htrain, H1. lia.
      * exact H.
    + intros t Ht.
      apply createSequences_run in Ht as (-> & _ & -> & _ & _ & Htrain & Htest).
      auto.
Qed.

(** ** Whole runs on the sample data *)

Lemma anchor_bounds_witness :
  12 ∈ Loader.anchors 17 /\
  12 ∈ Sequences.candidates trading_days 12 3 /\
  length (Loader.samplesOf one_stock) = length (Loader.anchors 17) /\
  exists t,
    Sequences.createSequences seventeen_pivot trading_days ["A"] twelve_steps 12 3
      = Ok (Some t) /\
    replicate 12 [Fin 0; Fin 0] ∈ Sequences.X_train t ++ Sequences.X_test t.
Proof.
  destruct (anchor_bounds 17 12) as (H1 & H2 & H3 & _ & H5).
  split; [apply H1; lia|]. split; [apply (H2 trading_days); [reflexivity|lia]|].
  split; [apply (H3 one_stock); vm_compute; reflexivity|].
  assert (Hclose : forall k, k = 12 \/ k = 13 ->
            forall sym, sym ∈ ["A"] ->
              exists c, Sequences.closeOn seventeen_pivot (at_ trading_days k) sym
                        = Some c).
  { intros k Hk sym Hsym. apply list_elem_of_singleton in Hsym as ->.
    destruct Hk as [-> | ->]; vm_compute; eexists; reflexivity. }
  destruct (H5 seventeen_pivot trading_days ["A"] twelve_steps
               (replicate 12 [Fin 0; Fin 0]))
    as (_ & _ & _ & _ & Hret);
    [reflexivity|lia|reflexivity|reflexivity|apply Hclose; now left|].
  destruct (Hret 13 (replicate 12 [Fin 0; Fin 0]))
    as (t & Ht & Hin & _);
    [lia|lia|reflexivity|reflexivity|apply Hclose; now right|].
  exists t. split; [exact Ht|exact Hin].
Defined.

Lemma split80_chronological_witness :
  match Loader.prepareData one_stock with
  | Ok r => length (Loader.X_train r) = 1%nat /\
            (length (Loader.X_train r) + length (Loader.X_test r) = 2)%nat
  | Throw _ => False
  end.
Proof.
  destruct split80_chronological as [H _].
  destruct (Loader.prepareData one_stock) as [r|msg] eqn:Hr.
  - destruct (H one_stock r Hr) as (_ & _ & _ & _ & _ & _ & _ & Hlen & Hsum & _).
    assert (HN : length (Loader.samplesOf one_stock) = 2%nat)
      by (vm_compute; reflexivity).
    rewrite HN in Hlen, Hsum. split; [exact Hlen|exact Hsum].
  - vm_compute in Hr. discriminate.
Defined.

Lemma forward_fill_nearest_witness :
  exists p s,
    Loader.pivotOf inner_gap !! "B" = Some p /\
    Loader.filledOf inner_gap !! "B" = Some s /\
    Loader.col p Loader.Close !! 3%nat = Some None /\
    Loader.col s Loader.Close !! 3%nat = Some (Some (Fin (5 # 10))).
Proof.
  destruct (forward_fill_nearest inner_gap "B" Loader.Close 3)
    as (p & s & Hp & Hs & _ & _ & _ & _ & Hfill).
  - assert (Hsym : Loader.symbolsOf inner_gap = ["A"; "B"])
      by (vm_compute; reflexivity).
    rewrite Hsym. right. left.
  - assert (Hcol : (fun p => Loader.col p Loader.Close)
                     <$> Loader.pivotOf inner_gap !! "B"
                   = Some (((fun c => Some (Fin c)) <$> take 3 sample_closes)
                           ++ None :: ((fun c => Some (Fin c)) <$> drop 4 sample_closes)))
      by (vm_compute; reflexivity).
    rewrite Hp in Hcol. cbn [fmap option_fmap option_map] in Hcol.
    injection Hcol as Hcol. change (Loader.Close_ p) with (Loader.col p Loader.Close) in Hcol.
    exists p, s. split; [exact Hp|]. split; [exact Hs|].
    assert (Hhole : Loader.col p Loader.Close !! 3%nat = Some None)
      by (rewrite Hcol; reflexivity).
    split; [exact Hhole|].
    apply (Hfill (Fin (5 # 10)) Hhole). exists 2%nat. split; [lia|].
    split; [rewrite Hcol; reflexivity|]. intros k Hk. lia.
Defined.

Lemma split80_parts_witness :
  exists r, Loader.prepareData one_stock = Ok r /\
            Loader.X_train r <> [] /\ Loader.X_test r <> [].
Proof.
  destruct split80_parts as [H _].
  destruct (H one_stock) as [_ Hret]; [discriminate|].
  destruct Hret as (r & Hr & H1 & H2 & _).
  - assert (Hlen : length (Loader.allDatesOf one_stock) = 17%nat)
      by (vm_compute; reflexivity).
    rewrite Hlen. lia.
  - exists r. auto.
Defined.
